(** * The candidate acquisition and selection pipeline of [junior.py]

    A shallow embedding of the text normalizer, the quantity parser, the
    field extractor, the search harvester, the similarity key and the daily
    selection loop of [src/junior.py], with the properties stated about
    them.

    Python strings are lists of Unicode code points.  The Unicode tables
    behind [str.lower], [str.isspace], [\w], [\d] and [float] belong to the
    interpreter, not to the program: they are the fields of the class
    [PyUnicode]; the facts about them that the proofs use are the class
    [PyUnicodeLaws].  Floats are IEEE binary64 values ([spec_float] of the
    Standard Library).  What lies outside the program (the network, the
    copy generator, the sinks, the state file) is a state that the calls
    pass along, and an exception is a result [Raise]. *)

From Stdlib Require Import ZArith Lia Bool List Ascii String DecimalString.
From Stdlib Require DecimalPos DecimalFacts.
From Stdlib Require Import Floats.SpecFloat.
From stdpp Require Import base list gmap sets sorting.

Import ListNotations.
Local Open Scope Z_scope.

(** ** Strings *)

Abbreviation char := Z (only parsing).
Abbreviation str := (list Z) (only parsing).

(** Decoder for the UTF-8 bytes of a literal of this file: [u "..."] is the
    Python string with the same text. *)
Fixpoint utf8_decode (s : string) (pending : nat) (acc : Z) : str :=
  match s with
  | EmptyString => []
  | String a t =>
      let b := Z.of_N (N_of_ascii a) in
      match pending with
      | O =>
          if b <? 128 then b :: utf8_decode t 0 0
          else if b <? 224 then utf8_decode t 1 (b - 192)
          else if b <? 240 then utf8_decode t 2 (b - 224)
          else utf8_decode t 3 (b - 240)
      | S O => (acc * 64 + (b - 128)) :: utf8_decode t 0 0
      | S n => utf8_decode t n (acc * 64 + (b - 128))
      end
  end.

Definition u (s : string) : str := utf8_decode s 0 0.

Definition str_eqb (a b : str) : bool := bool_decide (a = b).

(** [s.startswith(p)] *)
Fixpoint starts_with (p s : str) : bool :=
  match p, s with
  | [], _ => true
  | _ :: _, [] => false
  | a :: p', b :: s' => (a =? b) && starts_with p' s'
  end.

(** [sub in s] *)
Fixpoint contains (sub s : str) : bool :=
  starts_with sub s ||
  match s with
  | [] => false
  | _ :: t => contains sub t
  end.

(** [s.replace(old, new)]: occurrences are replaced from the left and do
    not overlap; [skip] counts the characters of the occurrence being
    replaced that are still ahead. *)
Fixpoint replace_from (old new s : str) (skip : nat) : str :=
  match s with
  | [] => []
  | a :: t =>
      match skip with
      | S n => replace_from old new t n
      | O =>
          if starts_with old s
          then new ++ replace_from old new t (length old - 1)
          else a :: replace_from old new t 0
      end
  end.

Definition replace (old new s : str) : str :=
  match old with
  | [] => new ++ flat_map (fun a => a :: new) s
  | _ => replace_from old new s 0
  end.

(** [sep.join(ws)] *)
Fixpoint join (sep : str) (ws : list str) : str :=
  match ws with
  | [] => []
  | [w] => w
  | w :: rest => w ++ sep ++ join sep rest
  end.

(** [s.split(sep)[0]] for a one-character separator *)
Fixpoint before_first (sep : char) (s : str) : str :=
  match s with
  | [] => []
  | a :: t => if a =? sep then [] else a :: before_first sep t
  end.

Fixpoint drop_while (p : char -> bool) (s : str) : str :=
  match s with
  | [] => []
  | a :: t => if p a then drop_while p t else s
  end.

Fixpoint take_while (p : char -> bool) (s : str) : str :=
  match s with
  | [] => []
  | a :: t => if p a then a :: take_while p t else []
  end.

(** [str(n)] for an integer: its decimal digits, after a minus sign when
    it is negative. *)
Definition str_of_int (n : Z) : str :=
  u (DecimalString.NilZero.string_of_int (Z.to_int n)).

Definition digit_char (d : Z) : char := 48 + d.

(** ** The interpreter's Unicode tables *)

Definition ascii_lower (c : char) : char :=
  if (65 <=? c) && (c <=? 90) then c + 32 else c.

Definition ascii_decimal (c : char) : option Z :=
  if (48 <=? c) && (c <=? 57) then Some (c - 48) else None.

Class PyUnicode := {
  (** [str.lower] *)
  str_lower : str -> str;
  (** [str.isspace] on one character; also the class [\s] *)
  isspace : char -> bool;
  (** [str.isalnum] on one character; [\w] is this or the underscore *)
  isalnum : char -> bool;
  (** the decimal value of a character, when it has one; [\d] *)
  todecimal : char -> option Z;
  (** a character that lower-casing leaves alone wherever it stands *)
  lower_stable : char -> bool
}.

Definition in_range (lo hi c : Z) : bool := (lo <=? c) && (c <=? hi).

(** The tables of the code points below 256, as the interpreter has them;
    every other code point is taken as an uncased symbol. *)
Module Latin1.

Definition l1_isspace (c : char) : bool :=
  in_range 9 13 c || in_range 28 32 c || (c =? 133) || (c =? 160).

Definition l1_isalnum (c : char) : bool :=
  in_range 48 57 c || in_range 65 90 c || in_range 97 122 c
  || (c =? 170) || (c =? 178) || (c =? 179) || (c =? 181) || (c =? 185)
  || (c =? 186) || in_range 188 190 c
  || in_range 192 214 c || in_range 216 246 c || in_range 248 255 c.

Definition l1_upper (c : char) : bool :=
  in_range 65 90 c || in_range 192 214 c || in_range 216 222 c.

Definition l1_lower_char (c : char) : char :=
  if l1_upper c then c + 32 else c.

Definition l1_lower (s : str) : str := map l1_lower_char s.

Definition l1_stable (c : char) : bool := negb (l1_upper c).

End Latin1.

Definition latin1 : PyUnicode := {|
  str_lower := Latin1.l1_lower;
  isspace := Latin1.l1_isspace;
  isalnum := Latin1.l1_isalnum;
  todecimal := ascii_decimal;
  lower_stable := Latin1.l1_stable
|}.

(** ** Exceptions *)

(** [OtherError] stands for the other classes that derive from
    [Exception], such as the errors of [requests]; [KeyboardInterrupt] and
    [SystemExit] derive from [BaseException] only. *)
Inductive exn :=
| ValueError
| OverflowError
| RuntimeError (msg : str)
| OtherError (tag : nat)
| KeyboardInterrupt
| SystemExit.

(** [isinstance(e, Exception)] *)
Definition is_Exception (e : exn) : bool :=
  match e with
  | KeyboardInterrupt | SystemExit => false
  | ValueError | OverflowError | RuntimeError _ | OtherError _ => true
  end.

Inductive pyresult (A : Type) :=
| Ok (a : A)
| Raise (e : exn).
Arguments Ok {A} a.
Arguments Raise {A} e.

(** [try: body except: handler] with a bare [except] *)
Definition try_except {A} (body handler : pyresult A) : pyresult A :=
  match body with
  | Ok a => Ok a
  | Raise _ => handler
  end.

Definition rbind {A B} (m : pyresult A) (f : A -> pyresult B) : pyresult B :=
  match m with
  | Ok a => f a
  | Raise e => Raise e
  end.

(** ** Floats: [float(s)], [x * n], [int(x)], [x < y] *)

Module PyFloat.

Definition prec : Z := 53.
Definition emax : Z := 1024.

Abbreviation float := spec_float (only parsing).

(** The number of decimal digits of a positive integer. *)
Definition digits10 (m : Z) : Z := Z.of_nat (length (str_of_int m)).

(** The double nearest to [m * 10^e] (ties to even), for [0 <= m]; values
    beyond the largest double give an infinity, and values below half the
    smallest one give zero. *)
Definition of_decimal (neg : bool) (m e : Z) : float :=
  if m <=? 0 then S754_zero neg
  else if 310 <? digits10 m + e then S754_infinity neg
  else if digits10 m + e <? -330 then S754_zero neg
  else if 0 <=? e then binary_round prec emax neg (Z.to_pos (m * 10 ^ e)) 0
  else
    let '(q, e', l) := SFdiv_core_binary prec emax m 0 (10 ^ (- e)) 0 in
    binary_round_aux prec emax neg q e' l.

(** [float(n)] for an integer of moderate size *)
Definition of_int (n : Z) : float := binary_normalize prec emax n 0 false.

Definition mul (x y : float) : float := SFmul prec emax x y.

Definition ltb (x y : float) : bool := SFltb x y.
Definition leb (x y : float) : bool := SFleb x y.

(** [int(x)]: truncation toward zero; an infinity raises [OverflowError]
    and a NaN raises [ValueError]. *)
Definition to_int (x : float) : pyresult Z :=
  match x with
  | S754_zero _ => Ok 0
  | S754_finite s m e =>
      let a := if 0 <=? e then Zpos m * 2 ^ e else Zpos m / 2 ^ (- e) in
      Ok (if s then - a else a)
  | S754_infinity _ => Raise OverflowError
  | S754_nan => Raise ValueError
  end.

(** *** The text of a float *)

Definition is_digit (c : char) : bool := in_range 48 57 c.

(** [Py_ISSPACE]: the ASCII blanks *)
Definition is_blank (c : char) : bool := (c =? 32) || in_range 9 13 c.

Fixpoint take_digits (s : str) : str * str :=
  match s with
  | c :: t =>
      if is_digit c then let '(ds, r) := take_digits t in (c :: ds, r)
      else ([], s)
  | [] => ([], [])
  end.

Definition digits_value (ds : str) : Z :=
  fold_left (fun acc c => 10 * acc + (c - 48)) ds 0.

(** The characters of a float's text are first brought to ASCII: a blank
    beyond ASCII becomes a space, a decimal digit beyond ASCII its ASCII
    digit, and the text stops with a question mark at any other character
    beyond ASCII. *)
Fixpoint transform_decimal_and_space `{PyUnicode} (s : str) : str :=
  match s with
  | [] => []
  | c :: t =>
      if c <=? 127 then c :: transform_decimal_and_space t
      else if isspace c then 32 :: transform_decimal_and_space t
      else
        match todecimal c with
        | Some d => digit_char d :: transform_decimal_and_space t
        | None => [63]
        end
  end.

(** Underscores may stand between two digits only; [prev] is the character
    before. *)
Fixpoint strip_underscores (s : str) (prev : char) : option str :=
  match s with
  | [] => if prev =? 95 then None else Some []
  | c :: t =>
      if c =? 95 then
        if is_digit prev then strip_underscores t c else None
      else if (prev =? 95) && negb (is_digit c) then None
      else option_map (cons c) (strip_underscores t c)
  end.

Definition remove_underscores (s : str) : option str :=
  if existsb (Z.eqb 95) s then strip_underscores s 0 else Some s.

Definition MAX_ABS_EXP : Z := 1100000000.

Definition parse_sign (s : str) : bool * str :=
  match s with
  | c :: t =>
      if c =? 45 then (true, t)
      else if c =? 43 then (false, t)
      else (false, s)
  | [] => (false, s)
  end.

(** The exponent part: [e] or [E], a sign, digits; without a digit nothing
    of it is read. *)
Definition parse_exponent (s : str) : Z * str :=
  match s with
  | c :: t =>
      if (c =? 101) || (c =? 69) then
        let '(eneg, t1) := parse_sign t in
        let '(ds, r) := take_digits t1 in
        match ds with
        | [] => (0, s)
        | _ =>
            let sig := drop_while (Z.eqb 48) ds in
            let a := digits_value ds in
            let a := if (9 <? Z.of_nat (length sig)) || (MAX_ABS_EXP <? a)
                     then MAX_ABS_EXP else a in
            (if eneg then - a else a, r)
        end
      else (0, s)
  | [] => (0, s)
  end.

(** The decimal number at the head of [s] and what follows it. *)
Definition parse_number (s : str) : option (float * str) :=
  let '(neg, s0) := parse_sign s in
  let '(ip, s1) := take_digits s0 in
  let '(fp, s2) :=
    match s1 with
    | c :: t => if c =? 46 then take_digits t else ([], s1)
    | [] => ([], s1)
    end in
  match ip ++ fp with
  | [] => None
  | ds =>
      let '(e, s3) := parse_exponent s2 in
      Some (of_decimal neg (digits_value ds) (e - Z.of_nat (length fp)), s3)
  end.

(** [inf], [infinity] and [nan] in any case, after a sign. *)
Definition parse_inf_or_nan (s : str) : option (float * str) :=
  let '(neg, s0) := parse_sign s in
  let low := map ascii_lower in
  if starts_with (u "inf") (low (take 3 s0)) then
    let s1 := skipn 3 s0 in
    if starts_with (u "inity") (low (take 5 s1))
    then Some (S754_infinity neg, skipn 5 s1)
    else Some (S754_infinity neg, s1)
  else if starts_with (u "nan") (low (take 3 s0)) then
    Some (S754_nan, skipn 3 s0)
  else None.

Definition string_to_double (s : str) : option (float * str) :=
  match parse_number s with
  | Some r => Some r
  | None => parse_inf_or_nan s
  end.

(** The float of an ASCII text. *)
Definition of_ascii (s : str) : pyresult float :=
  match remove_underscores s with
  | None => Raise ValueError
  | Some a =>
      let b := drop_while is_blank a in
      let c := rev (drop_while is_blank (rev b)) in
      match c with
      | [] => Raise ValueError
      | _ =>
          match string_to_double c with
          | Some (x, []) => Ok x
          | _ => Raise ValueError
          end
      end
  end.

(** [float(s)] for a string *)
Definition of_str `{PyUnicode} (s : str) : pyresult float :=
  of_ascii (transform_decimal_and_space s).

End PyFloat.

(** ** Regular expressions, as [re] matches them

    Backtracking in the order of [re]: the left branch of an alternative
    first, a repetition as long as it can be.  A match is tried against a
    suffix of the subject; the continuation receives what is left of it and
    the groups set so far.  An iteration of a repetition has to take a
    character: no pattern of the program repeats what can match the empty
    string. *)

Module Re.

Inductive regex :=
| Eps
| Cls (p : char -> bool)
| Seq (r1 r2 : regex)
| Alt (r1 r2 : regex)
| Star (r : regex)
| Grp (n : nat) (r : regex)
| Eol.

Definition caps := list (nat * str).

Fixpoint rmatch {A : Type} (r : regex) (s : str) (c : caps)
    (k : str -> caps -> option A) {struct r} : option A :=
  match r with
  | Eps => k s c
  | Cls p =>
      match s with
      | a :: t => if p a then k t c else None
      | [] => None
      end
  | Seq r1 r2 => rmatch r1 s c (fun s1 c1 => rmatch r2 s1 c1 k)
  | Alt r1 r2 =>
      match rmatch r1 s c k with
      | Some x => Some x
      | None => rmatch r2 s c k
      end
  | Star r1 =>
      (fix loop (n : nat) (s : str) (c : caps) {struct n} : option A :=
         match n with
         | O => k s c
         | S n' =>
             match rmatch r1 s c
                     (fun s1 c1 =>
                        if (length s1 <? length s)%nat then loop n' s1 c1
                        else None) with
             | Some x => Some x
             | None => k s c
             end
         end) (length s) s c
  | Grp i r1 =>
      rmatch r1 s c
        (fun s1 c1 => k s1 ((i, take (length s - length s1) s) :: c1))
  | Eol =>
      match s with
      | [] => k s c
      | [10] => k s c
      | _ => None
      end
  end.

(** A match object: [group(0)] and the numbered groups. *)
Record Match := { m_text : str; m_groups : caps }.

Fixpoint lookup_group (n : nat) (c : caps) : option str :=
  match c with
  | [] => None
  | (i, w) :: c' => if (i =? n)%nat then Some w else lookup_group n c'
  end.

Definition group (m : Match) (n : nat) : option str :=
  match n with
  | O => Some (m_text m)
  | _ => lookup_group n (m_groups m)
  end.

(** One attempt at the head of [s]; with [must_advance] an empty match is
    no match. *)
Definition match_at (r : regex) (s : str) (must_advance : bool)
    : option (str * caps) :=
  rmatch r s []
    (fun s' c =>
       if must_advance && (length s' =? length s)%nat then None
       else Some (s', c)).

Definition match_of (s rest : str) (c : caps) : Match :=
  {| m_text := take (length s - length rest) s; m_groups := c |}.

(** The walk over the subject that [finditer] and [sub] share: matches are
    taken from the left and do not overlap; [skip] counts the characters
    of the last match still ahead.  After an empty match the next one at
    the same place must advance. *)
Fixpoint scan {B : Type} (r : regex) (on_char : char -> B -> B)
    (on_match : Match -> B -> B) (done : B) (s : str) (skip : nat) : B :=
  match skip with
  | S n =>
      match s with
      | [] => done
      | _ :: t => scan r on_char on_match done t n
      end
  | O =>
      match match_at r s false with
      | Some (rest, c) =>
          match (length s - length rest)%nat with
          | S n =>
              on_match (match_of s rest c)
                (match s with
                 | [] => done
                 | _ :: t => scan r on_char on_match done t n
                 end)
          | O =>
              on_match (match_of s rest c)
                (match match_at r s true with
                 | Some (rest', c') =>
                     on_match (match_of s rest' c')
                       (match s with
                        | [] => done
                        | _ :: t =>
                            scan r on_char on_match done t
                              (length s - length rest' - 1)
                        end)
                 | None =>
                     match s with
                     | [] => done
                     | a :: t => on_char a (scan r on_char on_match done t 0)
                     end
                 end)
          end
      | None =>
          match s with
          | [] => done
          | a :: t => on_char a (scan r on_char on_match done t 0)
          end
      end
  end.

(** [re.finditer(r, s)] *)
Definition finditer (r : regex) (s : str) : list Match :=
  scan r (fun _ acc => acc) cons [] s 0.

(** [re.search(r, s)] *)
Definition search (r : regex) (s : str) : option Match :=
  head (finditer r s).

(** [re.sub(r, repl, s)] for a replacement without group references *)
Definition sub (r : regex) (repl s : str) : str :=
  scan r cons (fun _ acc => repl ++ acc) [] s 0.

(** *** Building blocks *)

Definition lit (c : char) : regex := Cls (Z.eqb c).

Fixpoint lits (w : str) : regex :=
  match w with
  | [] => Eps
  | [c] => lit c
  | c :: w' => Seq (lit c) (lits w')
  end.

Definition plus (r : regex) : regex := Seq r (Star r).
Definition opt (r : regex) : regex := Alt r Eps.

(** [.] without [DOTALL] *)
Definition any_char : regex := Cls (fun c => negb (c =? 10)).

End Re.

Import Re.

(** ** The program *)

Section Text.

Context `{U : PyUnicode}.

Definition isdecimal (c : char) : bool :=
  match todecimal c with
  | Some _ => true
  | None => false
  end.

(** [\w] *)
Definition isword (c : char) : bool := isalnum c || (c =? 95).

(** [s.rstrip()]: without the blanks at the end *)
Fixpoint rstrip (s : str) : str :=
  match s with
  | [] => []
  | a :: t =>
      match rstrip t with
      | [] => if isspace a then [] else [a]
      | t' => a :: t'
      end
  end.

(** [s.strip()] *)
Definition strip (s : str) : str := rstrip (drop_while isspace s).

(** [s.split()] *)
Fixpoint split_from (s : str) (cur : str) : list str :=
  match s with
  | [] => match cur with [] => [] | _ => [rev cur] end
  | a :: t =>
      if isspace a then
        match cur with
        | [] => split_from t []
        | _ => rev cur :: split_from t []
        end
      else split_from t (a :: cur)
  end.

Definition split (s : str) : list str := split_from s [].

End Text.

Definition STOPWORDS : list str :=
  split (U := latin1) (u "
de da do das dos e a o os as para por com sem em no na nos nas um uma umas uns
kit jogo conjunto original novo nova promoção oferta relâmpago frete grátis
").

Section Program.

Context `{U : PyUnicode}.

(** The pattern "[^\w\s]" *)
Definition re_not_word_nor_space : regex :=
  Cls (fun c => negb (isword c || isspace c)).

(** The pattern "\s+" *)
Definition re_spaces : regex := plus (Cls isspace).

Definition normalize_text (s : str) : str :=
  let s := str_lower s in
  let s := sub re_not_word_nor_space (u " ") s in
  let s := strip (sub re_spaces (u " ") s) in
  s.

Definition top_keywords (title : str) (k : nat) : str :=
  let words :=
    filter (fun w => (w ∉ STOPWORDS) ∧ (2 < length w)%nat)
           (split (normalize_text title)) in
  let words := take k words in
  match words with
  | [] => take 40 (normalize_text title)
  | _ => join (u "-") words
  end.

Definition similarity_key (category title : str) : str :=
  category ++ u ":" ++ top_keywords title 6.

(** *** The quantity parser *)

Definition parse_int_like (s : str) : pyresult (option Z) :=
  let s := replace (u " ") [] (replace (u ".") [] (str_lower s)) in
  let s := replace (u ",") (u ".") s in
  let mult := 1 in
  let '(mult, s) :=
    if contains (u "mil") s then (1000, replace (u "mil") [] s)
    else (mult, s) in
  let '(mult, s) :=
    if contains (u "k") s then (1000, replace (u "k") [] s)
    else (mult, s) in
  try_except
    (rbind (PyFloat.of_str s) (fun x =>
     rbind (PyFloat.to_int (PyFloat.mul x (PyFloat.of_int mult)))
           (fun n => Ok (Some n))))
    (Ok None).

(** *** The field extractor *)

(** What [BeautifulSoup] gives for a fetched product page: the text of the
    [title] tag, when there is one ([get_text(strip=True)]), and the text
    of the page ([get_text(" ", strip=True)]). *)
Record Page := { page_title : option str; page_text : str }.

Record Product := {
  title : str;
  url : str;
  price : str;
  sold : option Z;
  rating : option spec_float;
  reviews : option Z
}.

Definition re_digit : regex := Cls isdecimal.
Definition re_space : regex := Cls isspace.

(** A quantity and then [word]: group 1 is digits, an optional dot or
    comma, and digits again ("\d+[.,]?\d*"); then "\s*", the optional
    group 2 "(mil|k)?", "\s*" and [word]. *)
Definition re_quantity_then (word : str) : regex :=
  Seq (Grp 1 (Seq (plus re_digit)
               (Seq (opt (Cls (fun c => (c =? 46) || (c =? 44))))
                    (Star re_digit))))
   (Seq (Star re_space)
    (Seq (opt (Grp 2 (Alt (lits (u "mil")) (lit 107))))
     (Seq (Star re_space) (lits word)))).

Definition re_sold : regex := re_quantity_then (u "vendid").
Definition re_reviews : regex := re_quantity_then (u "avalia").

(** The pattern "(\d\.\d)\s*de\s*5" *)
Definition re_rating : regex :=
  Seq (Grp 1 (Seq re_digit (Seq (lit 46) re_digit)))
   (Seq (Star re_space)
    (Seq (lits (u "de")) (Seq (Star re_space) (lit 53)))).

(** The pattern "r\$\s*([\d\.]+[,]\d{2})" *)
Definition re_price : regex :=
  Seq (lit 114) (Seq (lit 36) (Seq (Star re_space)
   (Grp 1 (Seq (plus (Cls (fun c => isdecimal c || (c =? 46))))
            (Seq (lit 44) (Seq re_digit re_digit)))))).

(** The pattern "\s*\|\s*Shopee.*$" *)
Definition re_title_suffix : regex :=
  Seq (Star re_space) (Seq (lit 124) (Seq (Star re_space)
   (Seq (lits (u "Shopee")) (Seq (Star any_char) Eol)))).

(** The truth value of an optional integer: [None] and [0] are false. *)
Definition truthy (v : option Z) : bool :=
  match v with
  | Some n => negb (n =? 0)
  | None => false
  end.

(** The loop over the matches of a quantity pattern: each match is parsed
    after [clean] has taken the indicator word out of it, and the loop
    stops at the first parse that is true; [cur] is the last value
    assigned. *)
Fixpoint first_quantity (clean : str -> str) (ms : list Match)
    (cur : option Z) : pyresult (option Z) :=
  match ms with
  | [] => Ok cur
  | m :: rest =>
      rbind (parse_int_like (clean (m_text m))) (fun v =>
        if truthy v then Ok v else first_quantity clean rest v)
  end.

(** The sold detector: the matches of the pattern, each without
    "vendidos" and "vendido", given to the parser. *)
Definition detect_sold (text : str) : pyresult (option Z) :=
  first_quantity
    (fun g => replace (u "vendido") [] (replace (u "vendidos") [] g))
    (finditer re_sold text) None.

(** The review detector, in the same way. *)
Definition detect_reviews (text : str) : pyresult (option Z) :=
  first_quantity
    (fun g => replace (u "avaliação") [] (replace (u "avaliações") [] g))
    (finditer re_reviews text) None.

(** The rating detector: the float of group 1 of the first match, [None]
    when [float] raises. *)
Definition detect_rating (text : str) : pyresult (option spec_float) :=
  match search re_rating text with
  | Some m =>
      try_except
        (match group m 1 with
         | Some g => rbind (PyFloat.of_str g) (fun x => Ok (Some x))
         | None => Raise (OtherError 0)
         end)
        (Ok None)
  | None => Ok None
  end.

(** The price detector: "R$ " and group 1 of the first match without its
    dots (group 1 is set in every match of the pattern). *)
Definition detect_price (text : str) : option str :=
  match search re_price text with
  | Some m =>
      match group m 1 with
      | Some g => Some (u "R$ " ++ replace (u ".") [] g)
      | None => None
      end
  | None => None
  end.

(** The body of [shopee_product_details] once the page is fetched. *)
Definition product_of_page (url : str) (pg : Page) : pyresult Product :=
  let title :=
    match page_title pg with
    | Some t => t
    | None => []
    end in
  let title := strip (sub re_title_suffix [] title) in
  let text := str_lower (page_text pg) in
  rbind (detect_sold text) (fun sold =>
  rbind (detect_rating text) (fun rating =>
  rbind (detect_reviews text) (fun reviews =>
  let price := detect_price text in
  Ok {| title := match title with [] => u "Produto Shopee" | _ => title end;
        url := url;
        price := match price with
                 | Some ((_ :: _) as pr) => pr
                 | _ => u "R$ --"
                 end;
        sold := sold;
        rating := rating;
        reviews := reviews |}))).

(** *** The search harvester

    The network is a state [X] that every request may change: a request
    gives a result or raises, and a new state. *)

Section Harvester.

Context {X : Type}.

Definition ext (A : Type) : Type := X -> pyresult A * X.

(** The anchors with an [href] of the result page of a query, each with
    its [href] and its text; raises when the page cannot be fetched. *)
Variable get_search_anchors : str -> ext (list (str * str)).
(** The page of a product; raises when it cannot be fetched. *)
Variable get_page : str -> ext Page.
(** [time.sleep(0.6)], the pause after a request that gave a record. *)
Variable sleep : ext unit.

Definition shopee_product_details (url : str) : ext Product :=
  fun x =>
    match get_page url x with
    | (Ok pg, x') => (product_of_page url pg, x')
    | (Raise e, x') => (Raise e, x')
    end.

Definition product_link (a : str * str) : option str :=
  let '(href, text) := a in
  if contains (u "/product/") href && negb (contains (u "shopee.com.br") href)
  then
    let full := u "https://shopee.com.br" ++ before_first 63 href in
    let text := normalize_text text in
    if (length text <? 20)%nat then None else Some full
  else None.

Fixpoint dedup_urls (limit : Z) (items : list str) (seen : gset (list Z))
    (urls : list str) : list str :=
  match items with
  | [] => urls
  | it :: rest =>
      if decide (it ∈ seen) then dedup_urls limit rest seen urls
      else
        let urls' := urls ++ [it] in
        if limit <=? Z.of_nat (length urls') then urls'
        else dedup_urls limit rest ({[it]} ∪ seen) urls'
  end.

(** One detail request per url, under [except Exception: continue]: a
    request that raises an [Exception] is dropped, any other exception
    leaves the loop and the function. The pause follows a request that
    gave a record, outside the [try]. *)
Fixpoint fetch_details (urls : list str) (out : list Product)
    : ext (list Product) :=
  match urls with
  | [] => fun x => (Ok out, x)
  | a :: rest =>
      fun x =>
        match shopee_product_details a x with
        | (Ok p, x') =>
            match sleep x' with
            | (Ok _, x'') => fetch_details rest (out ++ [p]) x''
            | (Raise e, x'') => (Raise e, x'')
            end
        | (Raise e, x') =>
            if is_Exception e then fetch_details rest out x'
            else (Raise e, x')
        end
  end.

Definition shopee_search (query : str) (limit : Z) : ext (list Product) :=
  fun x =>
    match get_search_anchors query x with
    | (Ok anchors, x') =>
        let items := omap product_link anchors in
        let urls := dedup_urls limit items ∅ [] in
        fetch_details urls [] x'
    | (Raise e, x') => (Raise e, x')
    end.

End Harvester.

End Program.

(** ** The daily selection *)

(** A product that passed the filter, with the three keys the filter adds
    to it. *)
Record Candidate := {
  c_product : Product;
  c_category : str;
  c_product_id : str;
  c_similarity_key : str
}.

(** The content of [state.json]; a key may be missing. *)
Record State := {
  day_index : option Z;
  used_product_ids : option (list str);
  used_similarity_keys : option (list str)
}.

Record Config := {
  total_days : Z;
  per_day : Z;
  categories : list str;
  sold_min : Z;
  rating_min : spec_float;
  USE_SHEETS : bool;
  created_at : str
}.

(** A row of the sheet. *)
Record Row := {
  row_day : Z;
  row_title : str;
  row_url : str;
  row_price : str;
  row_sold : option Z;
  row_rating : option spec_float;
  row_ctas : str;
  row_content : str;
  row_category : str;
  row_similarity_key : str;
  row_created_at : str
}.

(** What a run that ends without an exception has done: nothing, the
    project being over, or the delivery of the picks of the day. *)
Inductive Report :=
| ProjectFinished
| Delivered (day : Z) (picks : list Candidate).

Section Selection.

Context `{U : PyUnicode}.

(** The filter of [main]: the candidate made of a search result, or
    nothing when the result is rejected. *)
Definition make_candidate (cfg : Config) (used_ids used_keys : gset (list Z))
    (cat : str) (p : Product) : option Candidate :=
  if negb (truthy (sold p)) || (default 0 (sold p) <? sold_min cfg) then None
  else if match rating p with
          | Some r => PyFloat.ltb r (rating_min cfg)
          | None => false
          end then None
  else
    let pid := url p in
    if decide (pid ∈ used_ids) then None
    else
      let sk := similarity_key cat (title p) in
      if decide (sk ∈ used_keys) then None
      else Some {| c_product := p; c_category := cat;
                   c_product_id := pid; c_similarity_key := sk |}.

(** The key of the sort: the [sold] of a candidate. *)
Definition sold_key (c : Candidate) : Z := default 0 (sold (c_product c)).

(** [sort(key=..., reverse=True)]: by decreasing key, candidates with the
    same key staying in their order. *)
Fixpoint insert_desc (c : Candidate) (l : list Candidate) : list Candidate :=
  match l with
  | [] => [c]
  | d :: l' =>
      if sold_key c <? sold_key d then d :: insert_desc c l'
      else c :: l
  end.

Fixpoint sort_desc (l : list Candidate) : list Candidate :=
  match l with
  | [] => []
  | c :: l' => insert_desc c (sort_desc l')
  end.

(** The walk over the sorted candidates of one category. *)
Fixpoint take_picks (per_day : Z) (cands picks : list Candidate)
    : list Candidate :=
  match cands with
  | [] => picks
  | cand :: rest =>
      if per_day <=? Z.of_nat (length picks) then picks
      else if existsb
                (fun c => str_eqb (c_similarity_key c) (c_similarity_key cand))
                picks
      then take_picks per_day rest picks
      else take_picks per_day rest (picks ++ [cand])
  end.

Definition insufficient_message (per_day : Z) (found : nat) : str :=
  u "Não consegui achar " ++ str_of_int per_day
  ++ u " produtos válidos hoje. Achou " ++ str_of_int (Z.of_nat found)
  ++ u ". Ajuste categorias ou filtros.".

(** The world of a run: the state file, missing or with its content, and
    everything else outside the program. *)
Context {X : Type}.

Record Env := { store : option State; outside : X }.

Definition M (A : Type) : Type := Env -> pyresult A * Env.

Definition ret {A} (a : A) : M A := fun e => (Ok a, e).

Definition raise {A} (x : exn) : M A := fun e => (Raise x, e).

Definition bind {A B} (m : M A) (f : A -> M B) : M B :=
  fun e =>
    match m e with
    | (Ok a, e') => f a e'
    | (Raise x, e') => (Raise x, e')
    end.

(** A call that acts on the outside only. *)
Definition call {A} (f : X -> pyresult A * X) : M A :=
  fun e =>
    let '(r, x') := f (outside e) in
    (r, {| store := store e; outside := x' |}).

Definition load_state : M State :=
  fun e =>
    match store e with
    | Some st => (Ok st, e)
    | None => (Raise (OtherError 1), e)
    end.

Definition save_state (st : State) : M unit :=
  fun e => (Ok tt, {| store := Some st; outside := outside e |}).

(** The harvester that [main] calls, the copy generator, the two sinks and
    the search for the CTA line in a generated text.  In the program the
    harvester is [shopee_search]; the selection is stated for any
    harvester, as its properties do not depend on how the records are
    found. *)
Variable search_products : str -> Z -> X -> pyresult (list Product) * X.
Variable generate_copy : Candidate -> X -> pyresult str * X.
Variable append_to_sheet : list Row -> X -> pyresult unit * X.
Variable write_output : Z -> list (Candidate * str) -> X -> pyresult unit * X.
Variable cta_line : str -> str.

(** The loop over the categories. *)
Fixpoint scan_categories (cfg : Config) (used_ids used_keys : gset (list Z))
    (cats : list str) (picks : list Candidate) : M (list Candidate) :=
  match cats with
  | [] => ret picks
  | cat :: rest =>
      if per_day cfg <=? Z.of_nat (length picks) then ret picks
      else
        bind (call (search_products (cat ++ u " shopee") 50)) (fun results =>
          let candidates :=
            omap (make_candidate cfg used_ids used_keys cat) results in
          let candidates := sort_desc candidates in
          scan_categories cfg used_ids used_keys rest
            (take_picks (per_day cfg) candidates picks))
  end.

Definition row_of (day : Z) (cfg : Config) (p : Candidate) (content : str)
    : Row :=
  {| row_day := day;
     row_title := title (c_product p);
     row_url := url (c_product p);
     row_price := price (c_product p);
     row_sold := sold (c_product p);
     row_rating := rating (c_product p);
     row_ctas := cta_line content;
     row_content := content;
     row_category := c_category p;
     row_similarity_key := c_similarity_key p;
     row_created_at := created_at cfg |}.

(** The loop over the picks: the copy of each, its row, and its identity
    and key added to the two sets. *)
Fixpoint write_picks (day : Z) (cfg : Config) (picks : list Candidate)
    (rows : list Row) (outputs : list (Candidate * str))
    (used_ids used_keys : gset (list Z))
    : M (list Row * list (Candidate * str) * gset (list Z) * gset (list Z)) :=
  match picks with
  | [] => ret (rows, outputs, used_ids, used_keys)
  | p :: rest =>
      bind (call (generate_copy p)) (fun content =>
        write_picks day cfg rest
          (rows ++ [row_of day cfg p content])
          (outputs ++ [(p, content)])
          ({[c_product_id p]} ∪ used_ids)
          ({[c_similarity_key p]} ∪ used_keys))
  end.

Definition main (cfg : Config) : M Report :=
  bind load_state (fun state =>
  let day := default 0 (day_index state) + 1 in
  if total_days cfg <? day then ret ProjectFinished
  else
    let used_ids : gset (list Z) :=
      list_to_set (default [] (used_product_ids state)) in
    let used_keys : gset (list Z) :=
      list_to_set (default [] (used_similarity_keys state)) in
    bind (scan_categories cfg used_ids used_keys (categories cfg) [])
      (fun picks =>
    if Z.of_nat (length picks) <? per_day cfg then
      raise (RuntimeError (insufficient_message (per_day cfg) (length picks)))
    else
      bind (write_picks day cfg picks [] [] used_ids used_keys)
        (fun '(rows, outputs, used_ids, used_keys) =>
      bind (if USE_SHEETS cfg then call (append_to_sheet rows)
            else call (write_output day outputs)) (fun _ =>
      bind (save_state {| day_index := Some day;
                          used_product_ids := Some (elements used_ids);
                          used_similarity_keys := Some (elements used_keys) |})
        (fun _ => ret (Delivered day picks)))))).

End Selection.

(** ** What the proofs use of the interpreter's tables *)

Class PyUnicodeLaws (U : PyUnicode) : Prop := {
  (** lower-casing gives characters that lower-casing leaves alone *)
  str_lower_stable : forall s, forallb lower_stable (str_lower s) = true;
  str_lower_fixed : forall s, forallb lower_stable s = true -> str_lower s = s;
  (** on ASCII text, lower-casing is the ASCII one *)
  str_lower_ascii :
    forall s, forallb (in_range 0 127) s = true ->
              str_lower s = map ascii_lower s;
  (** the space is a blank that lower-casing leaves alone *)
  space_stable : lower_stable 32 = true;
  isspace_space : isspace 32 = true;
  (** decimal values are digits, the ASCII ones up to code point 127 *)
  todecimal_range : forall c d, todecimal c = Some d -> 0 <= d <= 9;
  todecimal_ascii : forall c, c <= 127 -> todecimal c = ascii_decimal c
}.

(** ** The matches of a pattern, as a relation

    [Matches r s s' c c']: [r] matches a prefix of [s] and leaves [s'],
    taking the groups from [c] to [c']. *)

Inductive Matches : regex -> str -> str -> caps -> caps -> Prop :=
| M_eps s c : Matches Eps s s c c
| M_cls (p : char -> bool) a t c : p a = true -> Matches (Cls p) (a :: t) t c c
| M_seq r1 r2 s s1 s2 c c1 c2 :
    Matches r1 s s1 c c1 -> Matches r2 s1 s2 c1 c2 ->
    Matches (Seq r1 r2) s s2 c c2
| M_alt_l r1 r2 s s' c c' : Matches r1 s s' c c' -> Matches (Alt r1 r2) s s' c c'
| M_alt_r r1 r2 s s' c c' : Matches r2 s s' c c' -> Matches (Alt r1 r2) s s' c c'
| M_star_0 r s c : Matches (Star r) s s c c
| M_star_S r s s1 s2 c c1 c2 :
    Matches r s s1 c c1 -> (length s1 < length s)%nat ->
    Matches (Star r) s1 s2 c1 c2 -> Matches (Star r) s s2 c c2
| M_grp i r s s' c c' :
    Matches r s s' c c' ->
    Matches (Grp i r) s s' c ((i, take (length s - length s') s) :: c')
| M_eol s c : s = [] \/ s = [10] -> Matches Eol s s c c.

(** Where a match of [finditer] comes from: an attempt at a suffix of the
    subject. *)
Definition match_in (r : regex) (s : str) (m : Match) : Prop :=
  exists pre s' rest c,
    s = pre ++ s' /\ Matches r s' rest [] c /\ m = match_of s' rest c.


(** A pattern without a group. *)
Fixpoint groupless (r : regex) : bool :=
  match r with
  | Grp _ _ => false
  | Seq a b | Alt a b => groupless a && groupless b
  | Star a => groupless a
  | _ => true
  end.

(** The ASCII images of a decimal character in the text of a float: its
    digit, or a space for a character that is a blank as well. *)
Definition digit_pool : list Z := [32; 48; 49; 50; 51; 52; 53; 54; 55; 56; 57].

(** Between 0.0 and 9.9. *)
Definition in_rating_range (r : spec_float) : bool :=
  PyFloat.leb (S754_zero false) r
  && PyFloat.leb r (PyFloat.of_decimal false 99 (-1)).

Definition rating_text_ok (x y : Z) : bool :=
  match PyFloat.of_ascii [x; 46; y] with
  | Ok r => in_rating_range r
  | Raise _ => true
  end.

Ltac invert H := inversion H; subst; clear H.

(** Every pick is a candidate that the filter made. *)
Definition filtered `{U : PyUnicode} (cfg : Config) (ids keys : gset (list Z))
    (c : Candidate) : Prop :=
  exists cat p, make_candidate cfg ids keys cat p = Some c.


(** The sets of a state file. *)
Definition ids_of (s : option State) : gset (list Z) :=
  match s with
  | Some st => list_to_set (default [] (used_product_ids st))
  | None => ∅
  end.

Definition keys_of (s : option State) : gset (list Z) :=
  match s with
  | Some st => list_to_set (default [] (used_similarity_keys st))
  | None => ∅
  end.


(** The state file after some runs: each run starts from the state file
    that the one before left, in any world outside it. *)
Inductive store_follows `{U : PyUnicode} {X : Type}
    (search_products : str -> Z -> X -> pyresult (list Product) * X)
    (generate_copy : Candidate -> X -> pyresult str * X)
    (append_to_sheet : list Row -> X -> pyresult unit * X)
    (write_output : Z -> list (Candidate * str) -> X -> pyresult unit * X)
    (cta_line : str -> str) (s : option State) : option State -> Prop :=
| follows_now :
    store_follows search_products generate_copy append_to_sheet write_output
      cta_line s s
| follows_run cfg e r e' :
    store_follows search_products generate_copy append_to_sheet write_output
      cta_line s (store e) ->
    main search_products generate_copy append_to_sheet write_output cta_line
      cfg e = (r, e') ->
    store_follows search_products generate_copy append_to_sheet write_output
      cta_line s (store e').

(** *** A small world for examples

    The searches of a run answer with the lists of products of a queue,
    one after the other; copies and sinks never fail. *)

Definition sample_config (per_day sold_min : Z) : Config :=
  {| total_days := 30; per_day := per_day; categories := [u "Pets"];
     sold_min := sold_min; rating_min := PyFloat.of_decimal false 45 (-1);
     USE_SHEETS := false; created_at := u "2024-01-01 08:00:00" |}.

Definition sample_product (name : string) (link : string) (sold : option Z)
    (rating : option spec_float) : Product :=
  {| title := u name; url := u link; price := u "R$ 19,90"; sold := sold;
     rating := rating; reviews := None |}.


Definition queue_search (q : str) (limit : Z) (x : list (list Product))
    : pyresult (list Product) * list (list Product) :=
  match x with
  | r :: rest => (Ok r, rest)
  | [] => (Ok [], [])
  end.

Definition fixed_copy (c : Candidate) (x : list (list Product))
    : pyresult str * list (list Product) :=
  (Ok (u "TITULO - ACHADINHO"), x).

Definition quiet_sheet (rows : list Row) (x : list (list Product))
    : pyresult unit * list (list Product) := (Ok tt, x).

Definition quiet_output (day : Z) (outs : list (Candidate * str))
    (x : list (list Product)) : pyresult unit * list (list Product) :=
  (Ok tt, x).

Definition no_cta (content : str) : str := [].

Definition sample_run (cfg : Config) (e : Env (X := list (list Product)))
    : pyresult Report * Env :=
  main (U := latin1) queue_search fixed_copy quiet_sheet quiet_output no_cta
    cfg e.

Definition empty_state : State :=
  {| day_index := Some 0; used_product_ids := Some [];
     used_similarity_keys := Some [] |}.

Definition coleira : Product :=
  sample_product "Coleira Antipulgas Para Cachorro"
    "https://shopee.com.br/product/1/1" (Some 300)
    (Some (PyFloat.of_decimal false 48 (-1))).

Definition arranhador : Product :=
  sample_product "Arranhador Para Gatos Grande"
    "https://shopee.com.br/product/1/2" (Some 150)
    (Some (PyFloat.of_decimal false 40 (-1))).

Definition bebedouro : Product :=
  sample_product "Bebedouro Fonte Para Gatos"
    "https://shopee.com.br/product/1/3" (Some 50)
    (Some (PyFloat.of_decimal false 49 (-1))).

Definition comedouro : Product :=
  sample_product "Comedouro Lento Para Cachorro"
    "https://shopee.com.br/product/1/4" (Some 120) None.

Definition pets_today : list Product := [bebedouro; arranhador; coleira; comedouro].

(** A first day: an empty state file and one answer in the queue. *)
Definition first_day : Env (X := list (list Product)) :=
  {| store := Some empty_state; outside := [pets_today] |}.

(** The day after a run: the state file it left, and the same answer. *)
Definition next_day (r : pyresult Report * Env (X := list (list Product)))
    : Env (X := list (list Product)) :=
  {| store := store (snd r); outside := [pets_today] |}.

Definition picks_of {X : Type} (r : pyresult Report * Env (X := X))
    : list Candidate :=
  match fst r with
  | Ok (Delivered _ picks) => picks
  | _ => []
  end.

(** *** The normalizer, step by step *)

Section NormalForm.

Context `{U : PyUnicode}.

(** What the first substitution does: a character that is neither a word
    character nor a blank becomes a space. *)
Definition blank_out (s : str) : str :=
  map (fun c => if negb (isword c || isspace c) then 32 else c) s.

(** The same said without the word class: a space in the place of every
    character that is neither alphanumeric, nor the underscore, nor a
    blank. *)
Definition spaced_out (s : str) : str :=
  map (fun c => if isalnum c || (c =? 95) || isspace c then c else 32) s.

(** What the second substitution does: a run of blanks becomes one space;
    [in_run] tells that the character before was a blank. *)
Fixpoint collapse_from (s : str) (in_run : bool) : str :=
  match s with
  | [] => []
  | a :: t =>
      if isspace a then
        if in_run then collapse_from t true else 32 :: collapse_from t true
      else a :: collapse_from t false
  end.

(** Every blank is a space, and no blank follows a blank;
    [after_blank] tells that the character before was a blank. *)
Fixpoint spaced (s : str) (after_blank : bool) : bool :=
  match s with
  | [] => true
  | a :: t =>
      if isspace a then negb after_blank && (a =? 32) && spaced t true
      else spaced t false
  end.

(** [spaced], and no blank at the end. *)
Fixpoint norm_form (s : str) (after_blank : bool) : bool :=
  match s with
  | [] => true
  | a :: t =>
      if isspace a then
        negb after_blank && (a =? 32)
        && match t with [] => false | _ => true end
        && norm_form t true
      else norm_form t false
  end.

(** The characters of a normalized text: left alone by lower-casing, and
    word characters or blanks. *)
Definition good_char (c : char) : bool :=
  lower_stable c && (isword c || isspace c).

End NormalForm.

(** [string.punctuation] *)
Definition ascii_punctuation (c : char) : bool :=
  in_range 33 47 c || in_range 58 64 c || in_range 91 96 c
  || in_range 123 126 c.

(** The characters that the text of a float can end with: a digit, a dot,
    or the last letter of "inf", "infinity" or "nan". *)
Definition float_end (c : char) : bool :=
  PyFloat.is_digit c || (c =? 46)
  || (ascii_lower c =? 102) || (ascii_lower c =? 121)
  || (ascii_lower c =? 110).

(** *** More of the small world

    A copy generator that always fails. *)
Definition failing_copy (c : Candidate) (x : list (list Product))
    : pyresult str * list (list Product) :=
  (Raise (OtherError 2), x).

(** A result page with four anchors: two for the same product with
    different query strings, one with an absolute address, one with a
    short text. *)
Definition shop_anchors {X : Type} (query : str) (x : X)
    : pyresult (list (str * str)) * X :=
  (Ok [(u "/product/1/2?sp_atk=3", u "Fone de ouvido bluetooth sem fio");
       (u "/product/1/2?sp_atk=4", u "Fone de ouvido bluetooth sem fio");
       (u "https://shopee.com.br/product/9/9",
        u "Fone de ouvido com fio e microfone");
       (u "/product/7/7", u "Fone")], x).

(** A product page that shows its sold count, rating, reviews and price. *)
Definition shop_text : str :=
  u "Fone Bluetooth 4.8 de 5 2,5 mil Vendidos 310 Avaliações R$ 1.299,90".

Definition shop_content : Page :=
  {| page_title := Some (u "Fone Bluetooth | Shopee Brasil");
     page_text := shop_text |}.

Definition shop_page {X : Type} (link : str) (x : X) : pyresult Page * X :=
  (Ok shop_content, x).

(** The request for a product page fails with an error of [requests]. *)
Definition failing_page {X : Type} (link : str) (x : X) : pyresult Page * X :=
  (Raise (OtherError 3), x).

(** The request for a product page is interrupted from the keyboard. *)
Definition interrupted_page {X : Type} (link : str) (x : X)
    : pyresult Page * X :=
  (Raise KeyboardInterrupt, x).

(** A pause that nothing interrupts, and one that the keyboard does. *)
Definition no_pause {X : Type} (x : X) : pyresult unit * X := (Ok tt, x).

Definition interrupted_pause {X : Type} (x : X) : pyresult unit * X :=
  (Raise KeyboardInterrupt, x).

(** The record of that page. *)
Definition shop_record : Product :=
  {| title := u "Fone Bluetooth";
     url := u "https://shopee.com.br/product/1/2";
     price := u "R$ 1299,90";
     sold := None;
     rating := Some (PyFloat.of_decimal false 48 (-1));
     reviews := None |}.

Definition found_by {X A : Type} (r : pyresult (list A) * X) : list A :=
  match fst r with
  | Ok l => l
  | Raise _ => []
  end.

(** A run of [main] with the harvester of the program on that shop. *)
Definition shop_run (cfg : Config) (e : Env (X := list (list Product)))
    : pyresult Report * Env :=
  main (U := latin1)
    (shopee_search (U := latin1) shop_anchors shop_page no_pause)
    fixed_copy quiet_sheet quiet_output no_cta cfg e.

Definition shop_details : pyresult Product * unit :=
  shopee_product_details (U := latin1) shop_page
    (u "https://shopee.com.br/product/1/2") tt.

(** Two categories, two products a day. *)
Definition two_category_config : Config :=
  {| total_days := 30; per_day := 2; categories := [u "Pets"; u "Casa"];
     sold_min := 100; rating_min := PyFloat.of_decimal false 45 (-1);
     USE_SHEETS := false; created_at := u "2024-01-01 08:00:00" |}.

(** A day on which the search of each category finds the same product. *)
Definition same_product_day : Env (X := list (list Product)) :=
  {| store := Some empty_state; outside := [[coleira]; [coleira]] |}.

Definition same_product_run : pyresult Report * Env :=
  main (U := latin1) queue_search fixed_copy quiet_sheet quiet_output no_cta
    two_category_config same_product_day.

(** The candidate that the filter makes of the product in a category. *)
Definition coleira_in (cat : str) : Candidate :=
  {| c_product := coleira; c_category := cat; c_product_id := url coleira;
     c_similarity_key := similarity_key (U := latin1) cat (title coleira) |}.


(** *** Checking the parser on a range of texts *)

(** [s] is ASCII and the parser gives [v] for it. *)
Definition parses_to (s : str) (v : Z) : bool :=
  forallb (in_range 0 127) s
  && match parse_int_like (U := latin1) s with
     | Ok (Some n) => n =? v
     | _ => false
     end.

Definition counts_below (b : Z) : list Z := map Z.of_nat (seq 0 (Z.to_nat b)).

(** The text "n,d" of a number with one decimal. *)
Definition decimal_text (n d : Z) : str :=
  str_of_int n ++ u "," ++ str_of_int d.

Definition near_thousands (n d : Z) : bool :=
  let s := decimal_text n d ++ u " mil" in
  parses_to s (1000 * n + 100 * d) || parses_to s (1000 * n + 100 * d - 1).

(** *** The parser on the text of a count *)

(** The characters of a decimal number. *)
Fixpoint codes (d : Decimal.uint) : str :=
  match d with
  | Decimal.Nil => []
  | Decimal.D0 l => 48 :: codes l
  | Decimal.D1 l => 49 :: codes l
  | Decimal.D2 l => 50 :: codes l
  | Decimal.D3 l => 51 :: codes l
  | Decimal.D4 l => 52 :: codes l
  | Decimal.D5 l => 53 :: codes l
  | Decimal.D6 l => 54 :: codes l
  | Decimal.D7 l => 55 :: codes l
  | Decimal.D8 l => 56 :: codes l
  | Decimal.D9 l => 57 :: codes l
  end.


(** The float [x] is the positive integer [a], held exactly. *)
Definition holds (x : spec_float) (a : Z) : Prop :=
  exists q k,
    x = S754_finite false q (- k) /\ 0 <= k <= 52
    /\ Z.pos q = a * 2 ^ k /\ Z.pos (digits2_pos q) = 53.


(** What the parser does to an ASCII text before it calls [float]: the
    multiplier, and the text given to [float]. *)
Definition quantity_text (s : str) : Z * str :=
  let s := replace (u " ") [] (replace (u ".") [] (map ascii_lower s)) in
  let s := replace (u ",") (u ".") s in
  let '(mult, s) :=
    if contains (u "mil") s then (1000, replace (u "mil") [] s)
    else (1, s) in
  if contains (u "k") s then (1000, replace (u "k") [] s) else (mult, s).

(** The first character of [w] is not a digit. *)
Definition starts_without_digit (w : str) : bool :=
  match w with
  | a :: _ => negb (PyFloat.is_digit a)
  | [] => false
  end.


(** *** The matcher *)

(** The loop of a repetition, with its fuel. *)
Section StarLoop.

Context {A : Type}.
Variable r : regex.
Variable k : str -> caps -> option A.

Fixpoint star_loop (n : nat) (s : str) (c : caps) : option A :=
  match n with
  | O => k s c
  | S n' =>
      match rmatch r s c
              (fun s1 c1 =>
                 if (length s1 <? length s)%nat then star_loop n' s1 c1
                 else None) with
      | Some x => Some x
      | None => k s c
      end
  end.

End StarLoop.

(** * Properties *)

(** ** The tables below 256 satisfy the laws *)

Lemma l1_lower_char_stable c :
  Latin1.l1_stable (Latin1.l1_lower_char c) = true.
Proof.
  unfold Latin1.l1_stable, Latin1.l1_lower_char.
  destruct (Latin1.l1_upper c) eqn:E; [|now rewrite E].
  unfold Latin1.l1_upper, in_range in *.
  apply negb_true_iff.
  repeat (apply orb_false_intro); apply andb_false_iff; lia.
Qed.

Lemma l1_lower_stable s : forallb Latin1.l1_stable (Latin1.l1_lower s) = true.
Proof.
  induction s as [|c s IH]; [reflexivity|].
  cbn [Latin1.l1_lower map forallb]. rewrite l1_lower_char_stable. exact IH.
Qed.

Lemma l1_lower_fixed s :
  forallb Latin1.l1_stable s = true -> Latin1.l1_lower s = s.
Proof.
  induction s as [|c s IH]; [reflexivity|].
  cbn [Latin1.l1_lower map forallb]. intros [Hc Hs]%andb_true_iff.
  unfold Latin1.l1_lower in IH. rewrite (IH Hs).
  unfold Latin1.l1_stable in Hc. apply negb_true_iff in Hc.
  unfold Latin1.l1_lower_char. now rewrite Hc.
Qed.

Lemma l1_lower_ascii s :
  forallb (in_range 0 127) s = true -> Latin1.l1_lower s = map ascii_lower s.
Proof.
  induction s as [|c s IH]; [reflexivity|].
  cbn [Latin1.l1_lower map forallb]. intros [Hc Hs]%andb_true_iff.
  unfold Latin1.l1_lower in IH. rewrite (IH Hs). f_equal.
  unfold in_range in Hc.
  unfold Latin1.l1_lower_char, Latin1.l1_upper, in_range, ascii_lower.
  destruct ((65 <=? c) && (c <=? 90)) eqn:E; [reflexivity|].
  cbn [orb].
  replace ((192 <=? c) && (c <=? 214)) with false
    by (symmetry; apply andb_false_iff; lia).
  replace ((216 <=? c) && (c <=? 222)) with false
    by (symmetry; apply andb_false_iff; lia).
  reflexivity.
Qed.

Lemma ascii_decimal_range c d : ascii_decimal c = Some d -> 0 <= d <= 9.
Proof.
  unfold ascii_decimal.
  destruct ((48 <=? c) && (c <=? 57)) eqn:E; [|discriminate].
  intros [= <-]. lia.
Qed.

Lemma latin1_laws : PyUnicodeLaws latin1.
Proof.
  constructor; cbn.
  - apply l1_lower_stable.
  - apply l1_lower_fixed.
  - apply l1_lower_ascii.
  - reflexivity.
  - reflexivity.
  - apply ascii_decimal_range.
  - reflexivity.
Qed.

(** ** The quantity parser *)

Lemma try_except_ok {A} (body : pyresult A) (v : A) :
  exists r, try_except body (Ok v) = Ok r.
Proof. destruct body; cbn; eauto. Qed.

Lemma parse_int_like_returns `{U : PyUnicode} (s : str) :
  exists v, parse_int_like s = Ok v.
Proof.
  unfold parse_int_like.
  repeat match goal with
         | |- context [if ?b then _ else _] => destruct b
         end; apply try_except_ok.
Qed.

(** C8. [parse_int_like("1,2k")] is 1200, [parse_int_like("78,7 mil")] is
    78700, [parse_int_like("garbage")] is [None], and on every string the
    parser returns a value: it never raises. *)
Theorem parse_int_like_examples_and_total
    (U : PyUnicode) (L : PyUnicodeLaws U) :
  parse_int_like (u "1,2k") = Ok (Some 1200)
  /\ parse_int_like (u "78,7 mil") = Ok (Some 78700)
  /\ parse_int_like (u "garbage") = Ok None
  /\ forall s : str, exists v, parse_int_like s = Ok v.
Proof.
  repeat split.
  - unfold parse_int_like. rewrite str_lower_ascii by reflexivity.
    vm_compute. reflexivity.
  - unfold parse_int_like. rewrite str_lower_ascii by reflexivity.
    vm_compute. reflexivity.
  - unfold parse_int_like. rewrite str_lower_ascii by reflexivity.
    vm_compute. reflexivity.
  - intros s. apply parse_int_like_returns.
Qed.

Lemma parse_int_like_examples_and_total_witness :
  parse_int_like (U := latin1) (u "1,2k") = Ok (Some 1200)
  /\ parse_int_like (U := latin1) (u "78,7 mil") = Ok (Some 78700)
  /\ parse_int_like (U := latin1) (u "garbage") = Ok None
  /\ forall s : str, exists v, parse_int_like (U := latin1) s = Ok v.
Proof. exact (parse_int_like_examples_and_total latin1 latin1_laws). Defined.


(** ** Soundness of the matcher *)

Lemma rmatch_sound {A} (r : regex) :
  forall (s : str) (c : caps) (k : str -> caps -> option A) (a : A),
    rmatch r s c k = Some a ->
    exists s' c', Matches r s s' c c' /\ k s' c' = Some a.
Proof.
  induction r as [|p|r1 IH1 r2 IH2|r1 IH1 r2 IH2|r IH|i r IH|];
    intros s c k a H; cbn [rmatch] in H.
  - exists s, c. split; [constructor | exact H].
  - destruct s as [|x t]; [discriminate|].
    destruct (p x) eqn:E; [|discriminate].
    exists t, c. split; [now constructor | exact H].
  - apply IH1 in H as (s1 & c1 & M1 & H).
    apply IH2 in H as (s2 & c2 & M2 & H).
    exists s2, c2. split; [econstructor; eauto | exact H].
  - destruct (rmatch r1 s c k) eqn:E.
    + injection H as ->. apply IH1 in E as (s' & c' & M1 & E).
      exists s', c'. split; [now apply M_alt_l | exact E].
    + apply IH2 in H as (s' & c' & M2 & H).
      exists s', c'. split; [now apply M_alt_r | exact H].
  - revert H. generalize (length s) at 1. intros n. revert s c.
    induction n as [|n IHn]; intros s c H.
    + exists s, c. split; [constructor | exact H].
    + match type of H with
      | match ?e with _ => _ end = _ => destruct e eqn:E
      end.
      * injection H as ->. apply IH in E as (s1 & c1 & M1 & E).
        destruct (length s1 <? length s)%nat eqn:L; [|discriminate].
        apply Nat.ltb_lt in L.
        apply IHn in E as (s2 & c2 & M2 & E).
        exists s2, c2. split; [econstructor; eauto | exact E].
      * exists s, c. split; [constructor | exact H].
  - apply IH in H as (s' & c' & M1 & H).
    eexists _, _. split; [constructor; exact M1 | exact H].
  - destruct s as [|x [|y t]].
    + exists [], c. split; [constructor; now left | exact H].
    + destruct (decide (x = 10)) as [->|N].
      * exists [10], c. split; [constructor; now right | exact H].
      * destruct x as [|p|p]; try discriminate.
        do 4 (destruct p as [p|p|]; try discriminate); congruence.
    + destruct x as [|p|p]; try discriminate.
      do 4 (destruct p as [p|p|]; try discriminate).
Qed.

Lemma Matches_suffix r s s' c c' :
  Matches r s s' c c' -> exists w, s = w ++ s'.
Proof.
  induction 1.
  - now exists [].
  - now exists [a].
  - destruct IHMatches1 as [w1 ->], IHMatches2 as [w2 ->].
    exists (w1 ++ w2). now rewrite <- app_assoc.
  - assumption.
  - assumption.
  - now exists [].
  - destruct IHMatches1 as [w1 ->], IHMatches2 as [w2 ->].
    exists (w1 ++ w2). now rewrite <- app_assoc.
  - assumption.
  - now exists [].
Qed.

Lemma match_at_sound r s adv rest c :
  match_at r s adv = Some (rest, c) -> Matches r s rest [] c.
Proof.
  unfold match_at. intros H.
  apply rmatch_sound in H as (s' & c' & M & H).
  destruct (adv && (length s' =? length s)%nat); [discriminate|].
  now injection H as <- <-.
Qed.

Lemma match_in_cons r a s m : match_in r s m -> match_in r (a :: s) m.
Proof.
  intros (pre & s' & rest & c & -> & M & ->).
  now exists (a :: pre), s', rest, c.
Qed.

Lemma match_in_here r s adv rest c :
  match_at r s adv = Some (rest, c) -> match_in r s (match_of s rest c).
Proof.
  intros H. exists [], s, rest, c. repeat split.
  eapply match_at_sound; eauto.
Qed.

Lemma scan_finditer r s :
  forall skip,
    Forall (match_in r s) (scan r (fun _ acc => acc) cons [] s skip).
Proof.
  induction s as [|a t IH]; intros skip.
  - destruct skip; cbn; [|constructor].
    destruct (match_at r [] false) as [[rest c]|] eqn:E; [|constructor].
    constructor; [eapply match_in_here; eauto|].
    destruct (match_at r [] true) as [[rest' c']|] eqn:E'; [|constructor].
    constructor; [eapply match_in_here; eauto | constructor].
  - assert (IH' : forall k, Forall (match_in r (a :: t))
                              (scan r (fun _ acc => acc) cons [] t k)).
    { intros k. eapply Forall_impl; [apply IH|]. intros m. apply match_in_cons. }
    destruct skip; cbn [scan]; [|apply IH'].
    destruct (match_at r (a :: t) false) as [[rest c]|] eqn:E; [|apply IH'].
    destruct (length (a :: t) - length rest)%nat eqn:L.
    + constructor; [eapply match_in_here; eauto|].
      destruct (match_at r (a :: t) true) as [[rest' c']|] eqn:E'; [|apply IH'].
      constructor; [eapply match_in_here; eauto | apply IH'].
    + constructor; [eapply match_in_here; eauto | apply IH'].
Qed.

Lemma finditer_sound r s m : In m (finditer r s) -> match_in r s m.
Proof.
  intros H. pose proof (scan_finditer r s 0) as F.
  rewrite Forall_forall in F. apply F. now apply list_elem_of_In.
Qed.

Lemma search_sound r s m : search r s = Some m -> match_in r s m.
Proof.
  unfold search. intros H. apply finditer_sound.
  destruct (finditer r s); [discriminate|]. injection H as ->. now left.
Qed.

(** ** The field extractor *)

Lemma Matches_groupless r s s' c c' :
  Matches r s s' c c' -> groupless r = true -> c' = c.
Proof.
  induction 1; cbn [groupless]; intros G;
    try apply andb_true_iff in G as [G1 G2]; try discriminate; auto.
  - rewrite IHMatches2, IHMatches1; auto.
  - rewrite IHMatches2, IHMatches1; auto.
Qed.

Section Extractor.
Context `{U : PyUnicode} {L : PyUnicodeLaws U}.

Lemma rating_match_shape text m :
  match_in re_rating text m ->
  exists a b, group m 1 = Some [a; 46; b]
              /\ isdecimal a = true /\ isdecimal b = true.
Proof.
  intros (pre & s' & rest & c & -> & M & ->).
  unfold re_rating in M.
  invert M. match goal with H : Matches (Grp _ _) _ _ _ _ |- _ => invert H end.
  match goal with H : Matches (Seq re_digit _) _ _ _ _ |- _ => invert H end.
  match goal with H : Matches re_digit _ _ _ _ |- _ => invert H end.
  match goal with H : Matches (Seq (lit _) _) _ _ _ _ |- _ => invert H end.
  match goal with H : Matches (lit _) _ _ _ _ |- _ => invert H end.
  match goal with H : Matches re_digit _ _ _ _ |- _ => invert H end.
  match goal with H : Matches (Seq (Star _) _) _ _ _ _ |- _ =>
    apply Matches_groupless in H; [subst | reflexivity] end.
  match goal with H : (46 =? _) = true |- _ => apply Z.eqb_eq in H; subst end.
  eexists _, _. split.
  { cbn [group match_of m_groups lookup_group Nat.eqb].
    f_equal.
    match goal with
    | |- take ?n _ = _ => replace n with 3%nat by (cbn [length]; lia)
    end.
    reflexivity. }
  split; assumption.
Qed.

Lemma transform_decimal c t :
  isdecimal c = true ->
  exists x, In x digit_pool
            /\ PyFloat.transform_decimal_and_space (c :: t)
               = x :: PyFloat.transform_decimal_and_space t.
Proof.
  unfold isdecimal. intros D. cbn [PyFloat.transform_decimal_and_space].
  destruct (c <=? 127) eqn:A.
  - apply Z.leb_le in A. rewrite todecimal_ascii in D by assumption.
    unfold ascii_decimal in D.
    destruct ((48 <=? c) && (c <=? 57)) eqn:R; [|discriminate].
    exists c. split; [|reflexivity].
    apply andb_true_iff in R as [R1%Z.leb_le R2%Z.leb_le].
    assert (c = 48 \/ c = 49 \/ c = 50 \/ c = 51 \/ c = 52 \/ c = 53
            \/ c = 54 \/ c = 55 \/ c = 56 \/ c = 57) as H by lia.
    unfold digit_pool. cbn [In]. intuition.
  - destruct (isspace c).
    + exists 32. split; [now left | reflexivity].
    + destruct (todecimal c) as [d|] eqn:T; [|discriminate].
      apply todecimal_range in T.
      exists (digit_char d). split; [|reflexivity].
      unfold digit_char.
      assert (d = 0 \/ d = 1 \/ d = 2 \/ d = 3 \/ d = 4 \/ d = 5
              \/ d = 6 \/ d = 7 \/ d = 8 \/ d = 9) as H by lia.
      unfold digit_pool. cbn [In].
      repeat (destruct H as [->|H]; [cbn; tauto|]). subst. cbn. tauto.
Qed.

Lemma rating_pool_ok :
  forallb (fun x => forallb (rating_text_ok x) digit_pool) digit_pool = true.
Proof. vm_compute. reflexivity. Qed.

Lemma rating_of_str_range a b r :
  isdecimal a = true -> isdecimal b = true ->
  PyFloat.of_str [a; 46; b] = Ok r -> in_rating_range r = true.
Proof.
  intros Da Db. unfold PyFloat.of_str.
  destruct (transform_decimal a [46; b] Da) as (x & Hx & ->).
  change (PyFloat.transform_decimal_and_space [46; b])
    with (46 :: PyFloat.transform_decimal_and_space [b]).
  destruct (transform_decimal b [] Db) as (y & Hy & ->).
  change (PyFloat.transform_decimal_and_space []) with (@nil Z).
  pose proof rating_pool_ok as P.
  rewrite forallb_forall in P. specialize (P x Hx).
  rewrite forallb_forall in P. specialize (P y Hy).
  unfold rating_text_ok in P. intros E. now rewrite E in P.
Qed.

Lemma first_quantity_returns clean ms cur :
  exists v, first_quantity clean ms cur = Ok v.
Proof.
  revert cur. induction ms as [|m ms IH]; intros cur; cbn [first_quantity].
  - eauto.
  - destruct (parse_int_like_returns (clean (m_text m))) as [v ->].
    cbn [rbind]. destruct (truthy v); eauto.
Qed.

Lemma detect_rating_returns text : exists v, detect_rating text = Ok v.
Proof.
  unfold detect_rating. destruct (search re_rating text); [|eauto].
  apply try_except_ok.
Qed.

(** The record of a page: every detector returns, and the record holds
    what the detectors returned. *)
Lemma product_of_page_fields link pg :
  exists p,
    product_of_page link pg = Ok p
    /\ url p = link
    /\ detect_sold (str_lower (page_text pg)) = Ok (sold p)
    /\ detect_rating (str_lower (page_text pg)) = Ok (rating p)
    /\ detect_reviews (str_lower (page_text pg)) = Ok (reviews p).
Proof.
  unfold product_of_page.
  destruct (first_quantity_returns
              (fun g => replace (u "vendido") [] (replace (u "vendidos") [] g))
              (finditer re_sold (str_lower (page_text pg))) None) as [s Hs].
  destruct (detect_rating_returns (str_lower (page_text pg))) as [r Hr].
  destruct (first_quantity_returns
              (fun g => replace (u "avaliação") [] (replace (u "avaliações") [] g))
              (finditer re_reviews (str_lower (page_text pg))) None) as [v Hv].
  unfold detect_sold, detect_reviews. rewrite Hs, Hr, Hv. cbn [rbind].
  eexists. split; [reflexivity|]. cbn. auto.
Qed.

Lemma detect_rating_range text r :
  detect_rating text = Ok (Some r) -> in_rating_range r = true.
Proof.
  unfold detect_rating.
  destruct (search re_rating text) as [m|] eqn:S; [|discriminate].
  apply search_sound in S.
  destruct (rating_match_shape _ _ S) as (a & b & -> & Da & Db).
  destruct (PyFloat.of_str [a; 46; b]) as [x|e] eqn:F; cbn.
  - intros [= <-]. exact (rating_of_str_range a b x Da Db F).
  - discriminate.
Qed.

End Extractor.

(** C4 (amended). For every page, the extractor returns a record whose
    rating is absent or lies between 0.0 and 9.9: the pattern takes any
    one digit, a dot and one digit before "de 5", and nothing bounds the
    value by 5. *)
Theorem rating_within_one_digit_range
    (U : PyUnicode) (L : PyUnicodeLaws U) (link : str) (pg : Page) :
  exists p,
    product_of_page link pg = Ok p
    /\ (rating p = None
        \/ exists r, rating p = Some r
                     /\ PyFloat.leb (S754_zero false) r = true
                     /\ PyFloat.leb r (PyFloat.of_decimal false 99 (-1)) = true).
Proof.
  destruct (product_of_page_fields link pg) as (p & Hp & _ & _ & Hr & _).
  exists p. split; [exact Hp|].
  destruct (rating p) as [r|]; [right | now left].
  exists r. split; [reflexivity|].
  apply detect_rating_range in Hr. unfold in_rating_range in Hr.
  now apply andb_true_iff in Hr.
Qed.

Lemma rating_within_one_digit_range_witness :
  exists p,
    product_of_page (U := latin1) (u "https://shopee.com.br/product/1/2")
      {| page_title := None; page_text := u "nota 4.8 de 5" |} = Ok p
    /\ (rating p = None
        \/ exists r, rating p = Some r
                     /\ PyFloat.leb (S754_zero false) r = true
                     /\ PyFloat.leb r (PyFloat.of_decimal false 99 (-1)) = true).
Proof.
  exact (rating_within_one_digit_range latin1 latin1_laws
           (u "https://shopee.com.br/product/1/2")
           {| page_title := None; page_text := u "nota 4.8 de 5" |}).
Defined.

(** C4 as stated fails: on the page text "9.9 de 5" the rating is 9.9,
    which is above 5.0. *)
Lemma rating_above_five :
  exists p,
    product_of_page (U := latin1) (u "https://shopee.com.br/product/1/2")
      {| page_title := None; page_text := u "9.9 de 5" |} = Ok p
    /\ rating p = Some (PyFloat.of_decimal false 99 (-1))
    /\ PyFloat.leb (PyFloat.of_decimal false 99 (-1)) (PyFloat.of_int 5) = false.
Proof.
  exists {| title := u "Produto Shopee";
            url := u "https://shopee.com.br/product/1/2";
            price := u "R$ --";
            sold := None;
            rating := Some (PyFloat.of_decimal false 99 (-1));
            reviews := None |}.
  split; [vm_compute; reflexivity|]. split; [reflexivity|].
  vm_compute. reflexivity.
Qed.

Lemma first_quantity_from_match `{U : PyUnicode} clean ms cur n :
  first_quantity clean ms cur = Ok (Some n) ->
  cur = Some n
  \/ exists m, In m ms /\ parse_int_like (clean (m_text m)) = Ok (Some n).
Proof.
  revert cur. induction ms as [|m ms IH]; intros cur; cbn [first_quantity].
  - intros [= ->]. now left.
  - destruct (parse_int_like (clean (m_text m))) as [v|e] eqn:P; cbn [rbind];
      [|discriminate].
    destruct (truthy v).
    + intros [= ->]. right. exists m. split; [now left | exact P].
    + intros H. apply IH in H as [->|(m' & I & P')].
      * right. exists m. split; [now left | exact P].
      * right. exists m'. split; [now right | exact P'].
Qed.

(** C7 (amended). For every page the extractor returns a record, and in it:
    the title is the cleaned text of the title tag, or the fixed
    placeholder "Produto Shopee" when that text is missing or empty; the
    price is the sentinel "R$ --" when the price pattern has no match, and
    otherwise comes from the match; sold, rating and reviews are absent
    when their pattern has no match, and a value that is present was
    parsed from a match of the pattern in the page text. *)
Theorem fields_absent_or_parsed (U : PyUnicode) (link : str) (pg : Page) :
  exists p,
    product_of_page link pg = Ok p
    /\ title p
       = match strip (sub re_title_suffix [] (default [] (page_title pg))) with
         | [] => u "Produto Shopee"
         | t => t
         end
    /\ (search re_price (str_lower (page_text pg)) = None ->
        price p = u "R$ --")
    /\ (price p = u "R$ --"
        \/ exists m g,
             search re_price (str_lower (page_text pg)) = Some m
             /\ group m 1 = Some g
             /\ price p = u "R$ " ++ replace (u ".") [] g)
    /\ (finditer re_sold (str_lower (page_text pg)) = [] -> sold p = None)
    /\ (forall n, sold p = Some n ->
        exists m,
          In m (finditer re_sold (str_lower (page_text pg)))
          /\ parse_int_like
               (replace (u "vendido") [] (replace (u "vendidos") [] (m_text m)))
             = Ok (Some n))
    /\ (search re_rating (str_lower (page_text pg)) = None -> rating p = None)
    /\ (forall r, rating p = Some r ->
        exists m g,
          search re_rating (str_lower (page_text pg)) = Some m
          /\ group m 1 = Some g /\ PyFloat.of_str g = Ok r)
    /\ (finditer re_reviews (str_lower (page_text pg)) = [] -> reviews p = None)
    /\ (forall n, reviews p = Some n ->
        exists m,
          In m (finditer re_reviews (str_lower (page_text pg)))
          /\ parse_int_like
               (replace (u "avaliação") []
                  (replace (u "avaliações") [] (m_text m)))
             = Ok (Some n)).
Proof.
  destruct (product_of_page_fields link pg) as (p & Hp & _ & Hs & Hr & Hv).
  exists p. split; [exact Hp|].
  unfold product_of_page in Hp. unfold detect_sold, detect_reviews in *.
  rewrite Hs, Hr, Hv in Hp. cbn [rbind] in Hp. injection Hp as <-.
  cbn [title price sold rating reviews] in *.
  repeat split.
  - destruct (page_title pg) as [t|]; unfold from_option, id;
      [destruct (strip (sub re_title_suffix [] t))
      |destruct (strip (sub re_title_suffix [] []))]; reflexivity.
  - unfold detect_price. now intros ->.
  - unfold detect_price.
    destruct (search re_price (str_lower (page_text pg))) as [m|]; [|now left].
    destruct (group m 1) as [g|] eqn:G; [|now left].
    right. exists m, g. split; [reflexivity|]. split; [exact G | reflexivity].
  - intros E. rewrite E in Hs. cbn in Hs. congruence.
  - intros n E. rewrite E in Hs.
    apply first_quantity_from_match in Hs as [?|?];
      [discriminate | assumption].
  - intros E. unfold detect_rating in Hr. rewrite E in Hr. congruence.
  - intros r E. rewrite E in Hr. unfold detect_rating in Hr.
    destruct (search re_rating (str_lower (page_text pg))) as [m|];
      [|discriminate].
    destruct (group m 1) as [g|] eqn:G; cbn in Hr; [|discriminate].
    exists m, g. split; [reflexivity|]. split; [exact G|].
    destruct (PyFloat.of_str g); cbn in Hr; congruence.
  - intros E. rewrite E in Hv. cbn in Hv. congruence.
  - intros n E. rewrite E in Hv.
    apply first_quantity_from_match in Hv as [?|?];
      [discriminate | assumption].
Qed.

(** C7 as stated fails for the title: a page without a title tag gives a
    record whose title is "Produto Shopee", not an absent title. *)
Lemma missing_title_gets_placeholder :
  exists p,
    product_of_page (U := latin1) (u "https://shopee.com.br/product/1/2")
      {| page_title := None; page_text := u "sem dados" |} = Ok p
    /\ title p = u "Produto Shopee"
    /\ title p <> [].
Proof.
  exists {| title := u "Produto Shopee";
            url := u "https://shopee.com.br/product/1/2";
            price := u "R$ --";
            sold := None;
            rating := None;
            reviews := None |}.
  split; [vm_compute; reflexivity|]. split; [reflexivity | discriminate].
Qed.

(** C1 (code bug). On the page text "300 vendidos" the pattern matches
    "300 vendid"; taking "vendidos" and "vendido" out of that match changes
    nothing, the parser is given "300 vendid" and returns [None], so the
    sold field is absent although the parser gives 300 for "300".  The same
    happens for "78,7 mil vendidos". *)
Theorem sold_detector_loses_the_quantity :
  map m_text (finditer (re_sold (U := latin1))
                (str_lower (PyUnicode := latin1) (u "300 vendidos")))
  = [u "300 vendid"]
  /\ parse_int_like (U := latin1) (u "300 vendid") = Ok None
  /\ parse_int_like (U := latin1) (u "300") = Ok (Some 300)
  /\ detect_sold (U := latin1)
       (str_lower (PyUnicode := latin1) (u "300 vendidos")) = Ok None
  /\ detect_sold (U := latin1)
       (str_lower (PyUnicode := latin1) (u "78,7 mil vendidos")) = Ok None
  /\ exists p,
       product_of_page (U := latin1) (u "https://shopee.com.br/product/1/2")
         {| page_title := Some (u "Fone | Shopee Brasil");
            page_text := u "Fone R$ 59,90 300 vendidos" |} = Ok p
       /\ sold p = None.
Proof.
  repeat split; try (vm_compute; reflexivity).
  exists {| title := u "Fone";
            url := u "https://shopee.com.br/product/1/2";
            price := u "R$ 59,90";
            sold := None;
            rating := None;
            reviews := None |}.
  split; [vm_compute; reflexivity | reflexivity].
Qed.

(** ** The sold and review detectors never find a quantity

    The match of the pattern ends with the indicator word cut short
    ("vendid", "avalia"), the words taken out of it ("vendidos",
    "vendido", ...) are not in it, and no text of a float ends with the
    last letter of the cut word. *)

Section FloatText.

Import PyFloat.

Lemma take_digits_spec s ds r :
  take_digits s = (ds, r) -> s = ds ++ r /\ forallb is_digit ds = true.
Proof.
  revert ds r. induction s as [|c t IH]; intros ds r; cbn [take_digits].
  - now intros [= <- <-].
  - destruct (is_digit c) eqn:D.
    + destruct (take_digits t) as [ds' r'] eqn:E. intros [= <- <-].
      destruct (IH ds' r' eq_refl) as [-> F]. cbn [forallb app].
      now rewrite D, F.
    + now intros [= <- <-].
Qed.

Lemma last_digits ds :
  forallb is_digit ds = true -> ds <> [] ->
  exists y, last ds = Some y /\ float_end y = true.
Proof.
  induction ds as [|c [|d t] IH]; [congruence| |].
  - cbn. intros [D _]%andb_true_iff _. exists c. split; [reflexivity|].
    unfold float_end. now rewrite D.
  - intros [_ F]%andb_true_iff _. destruct (IH F) as (y & Hy & E);
      [discriminate|].
    exists y. split; [exact Hy | exact E].
Qed.

Lemma last_app_some {A} (l k : list A) y :
  last k = Some y -> last (l ++ k) = Some y.
Proof.
  intros H. rewrite last_app. now rewrite H.
Qed.

Lemma parse_sign_spec s neg s0 :
  parse_sign s = (neg, s0) -> exists w, s = w ++ s0.
Proof.
  unfold parse_sign. destruct s as [|c t]; [intros [= <- <-]; now exists []|].
  destruct (c =? 45); [intros [= <- <-]; now exists [c]|].
  destruct (c =? 43); intros [= <- <-]; [now exists [c] | now exists []].
Qed.

(** What the exponent part reads is empty or ends with a digit. *)
Lemma parse_exponent_spec s e s3 :
  parse_exponent s = (e, s3) ->
  s = s3 \/ exists w y, s = w ++ s3 /\ last w = Some y /\ float_end y = true.
Proof.
  unfold parse_exponent. destruct s as [|c t]; [intros [= <- <-]; now left|].
  destruct ((c =? 101) || (c =? 69)); [|intros [= <- <-]; now left].
  destruct (parse_sign t) as [eneg t1] eqn:Sg.
  destruct (take_digits t1) as [ds r] eqn:Td.
  destruct ds as [|d ds']; [intros [= <- <-]; now left|].
  intros [= <- <-]. right.
  apply parse_sign_spec in Sg as [w ->].
  apply take_digits_spec in Td as [-> F].
  destruct (last_digits (d :: ds') F) as (y & Hy & E); [discriminate|].
  exists (c :: w ++ d :: ds'), y. repeat split.
  - cbn [app]. now rewrite <- app_assoc.
  - change (c :: w ++ d :: ds') with ((c :: w) ++ d :: ds').
    now apply last_app_some.
  - exact E.
Qed.

Lemma parse_number_spec s x rest :
  parse_number s = Some (x, rest) ->
  exists w y, s = w ++ rest /\ last w = Some y /\ float_end y = true.
Proof.
  unfold parse_number.
  destruct (parse_sign s) as [neg s0] eqn:Sg.
  destruct (take_digits s0) as [ip s1] eqn:Ti.
  apply parse_sign_spec in Sg as [w0 ->].
  apply take_digits_spec in Ti as [-> Fi].
  assert (Dot : exists dot fp s2,
             (match s1 with
              | c :: t => if c =? 46 then take_digits t else ([], s1)
              | [] => ([], s1)
              end) = (fp, s2)
             /\ s1 = dot ++ fp ++ s2 /\ forallb is_digit fp = true
             /\ (dot = [] /\ fp = [] \/ dot = [46])).
  { destruct s1 as [|c t]; [exists [], [], []; repeat split; auto|].
    destruct (c =? 46) eqn:E.
    - apply Z.eqb_eq in E. subst c.
      destruct (take_digits t) as [fp s2] eqn:Tf.
      apply take_digits_spec in Tf as [-> Ff].
      exists [46], fp, s2. repeat split; auto.
    - exists [], [], (c :: t). repeat split; auto. }
  destruct Dot as (dot & fp & s2 & -> & -> & Ff & Hdot).
  destruct (ip ++ fp) as [|d ds] eqn:Ds; [discriminate|].
  destruct (parse_exponent s2) as [e s3] eqn:Pe. intros [= <- <-].
  assert (Body : exists y, last (ip ++ dot ++ fp) = Some y
                           /\ float_end y = true).
  { destruct fp as [|f fp'].
    - rewrite app_nil_r in *. destruct Hdot as [[-> _]| ->].
      + rewrite app_nil_r. apply last_digits; [exact Fi | congruence].
      + exists 46. split; [now apply last_app_some | reflexivity].
    - destruct (last_digits (f :: fp') Ff) as (y & Hy & E); [discriminate|].
      exists y. split; [|exact E]. now do 2 apply last_app_some. }
  destruct Body as (y & Hy & E).
  apply parse_exponent_spec in Pe as [->|(w & y' & -> & Hy' & E')].
  - exists (w0 ++ ip ++ dot ++ fp), y. repeat split.
    + now rewrite <- !app_assoc.
    + now apply last_app_some.
    + exact E.
  - exists (w0 ++ ip ++ dot ++ fp ++ w), y'. repeat split.
    + now rewrite <- !app_assoc.
    + rewrite !app_assoc. now apply last_app_some.
    + exact E'.
Qed.

Lemma starts_with_map_take (f : char -> char) pat s :
  starts_with pat (map f (take (length pat) s)) = true ->
  exists w, s = w ++ skipn (length pat) s /\ map f w = pat.
Proof.
  revert s. induction pat as [|c pat IH]; intros s.
  - intros _. now exists [].
  - destruct s as [|a t]; [discriminate|].
    cbn [length take firstn map starts_with skipn].
    intros [E H]%andb_true_iff. apply Z.eqb_eq in E.
    destruct (IH t H) as (w & Hw & Hm).
    exists (a :: w). cbn [app map]. split; [now f_equal | congruence].
Qed.

Lemma last_of_map (f : char -> char) w pat z :
  map f w = pat -> last pat = Some z ->
  exists y, last w = Some y /\ f y = z.
Proof.
  intros <-. change (map f w) with (f <$> w). rewrite fmap_last.
  destruct (last w) as [y|]; [|discriminate].
  intros [= <-]. now exists y.
Qed.

Lemma lowered_end y z :
  ascii_lower y = z -> (z = 102 \/ z = 121 \/ z = 110) ->
  float_end y = true.
Proof.
  intros <- H. unfold float_end.
  destruct H as [H|[H|H]]; rewrite H; cbn; now rewrite ?orb_true_r.
Qed.

Lemma parse_inf_or_nan_spec s x rest :
  parse_inf_or_nan s = Some (x, rest) ->
  exists w y, s = w ++ rest /\ last w = Some y /\ float_end y = true.
Proof.
  unfold parse_inf_or_nan.
  destruct (parse_sign s) as [neg s0] eqn:Sg.
  apply parse_sign_spec in Sg as [w0 ->].
  change 3%nat with (length (u "inf")). change 5%nat with (length (u "inity")).
  destruct (starts_with (u "inf") _) eqn:Inf.
  - apply starts_with_map_take in Inf as (w1 & H1 & M1).
    destruct (last_of_map _ _ _ 102 M1 eq_refl) as (y1 & L1 & F1).
    remember (skipn (length (u "inf")) s0) as s1 eqn:E1. subst s0.
    destruct (starts_with (u "inity") _) eqn:Inity.
    + apply starts_with_map_take in Inity as (w2 & H2 & M2).
      destruct (last_of_map _ _ _ 121 M2 eq_refl) as (y2 & L2 & F2).
      remember (skipn (length (u "inity")) s1) as s2 eqn:E2.
      intros [= <- <-]. exists (w0 ++ w1 ++ w2), y2. repeat split.
      * change (drop 5 s1) with (drop (length (u "inity")) s1).
        rewrite <- E2, H2. now rewrite <- !app_assoc.
      * now do 2 apply last_app_some.
      * eapply lowered_end; eauto.
    + intros [= <- <-]. exists (w0 ++ w1), y1. repeat split.
      * now rewrite <- !app_assoc.
      * now apply last_app_some.
      * eapply lowered_end; eauto.
  - change (length (u "inf")) with (length (u "nan")).
    destruct (starts_with (u "nan") _) eqn:Nan; [|discriminate].
    apply starts_with_map_take in Nan as (w1 & H1 & M1).
    destruct (last_of_map _ _ _ 110 M1 eq_refl) as (y1 & L1 & F1).
    remember (skipn (length (u "nan")) s0) as s1 eqn:E1.
    intros [= <- <-]. exists (w0 ++ w1), y1. repeat split.
    + rewrite H1 at 1. now rewrite <- !app_assoc.
    + now apply last_app_some.
    + eapply lowered_end; eauto.
Qed.

Lemma string_to_double_spec s x rest :
  string_to_double s = Some (x, rest) ->
  exists w y, s = w ++ rest /\ last w = Some y /\ float_end y = true.
Proof.
  unfold string_to_double.
  destruct (parse_number s) as [[x' rest']|] eqn:N.
  - intros [= <- <-]. now apply parse_number_spec in N.
  - apply parse_inf_or_nan_spec.
Qed.

Lemma strip_underscores_last s x : forall prev r,
  strip_underscores s prev = Some r ->
  last s = Some x -> x <> 95 -> last r = Some x.
Proof.
  induction s as [|c t IH]; intros prev r; [discriminate 2|].
  cbn [strip_underscores]. destruct (c =? 95) eqn:C.
  - apply Z.eqb_eq in C. subst c.
    destruct (is_digit prev); [|discriminate].
    intros H L N. destruct t as [|d t'].
    + cbn in L. congruence.
    + rewrite last_cons_cons in L. eapply IH; eauto.
  - destruct ((prev =? 95) && negb (is_digit c)); [discriminate|].
    destruct (strip_underscores t c) as [r'|] eqn:R; [|discriminate].
    intros [= <-] L N. destruct t as [|d t'].
    + cbn in R. destruct (c =? 95); [discriminate|].
      injection R as <-. exact L.
    + rewrite last_cons_cons in L.
      specialize (IH c r' R L N). rewrite last_cons. now rewrite IH.
Qed.

Lemma last_drop_while (p : char -> bool) s x :
  last s = Some x -> p x = false -> last (drop_while p s) = Some x.
Proof.
  induction s as [|c t IH]; [discriminate|]. cbn [drop_while].
  intros H Px. destruct (p c) eqn:Pc; [|exact H].
  destruct t as [|d t'].
  - cbn in H. congruence.
  - rewrite last_cons_cons in H. auto.
Qed.

Lemma rev_drop_while_last (p : char -> bool) s x :
  last s = Some x -> p x = false -> rev (drop_while p (rev s)) = s.
Proof.
  intros H Px. apply last_Some in H as [s' ->].
  rewrite rev_app_distr. cbn [rev app drop_while]. rewrite Px.
  change (x :: rev s') with (rev [x] ++ rev s').
  now rewrite <- rev_app_distr, rev_involutive.
Qed.

(** No text that ends with a character that a float cannot end with is
    the text of a float. *)
Lemma of_ascii_fails s x :
  last s = Some x -> float_end x = false -> is_blank x = false -> x <> 95 ->
  of_ascii s = Raise ValueError.
Proof.
  intros Ls E B N. unfold of_ascii.
  destruct (remove_underscores s) as [a|] eqn:R; [|reflexivity].
  assert (La : last a = Some x).
  { unfold remove_underscores in R. destruct (existsb (Z.eqb 95) s).
    - eapply strip_underscores_last; eauto.
    - now injection R as <-. }
  pose proof (last_drop_while is_blank a x La B) as Lb.
  rewrite (rev_drop_while_last is_blank _ x Lb B).
  destruct (drop_while is_blank a) as [|c0 b] eqn:Db; [reflexivity|].
  destruct (string_to_double (c0 :: b)) as [[f rest]|] eqn:P; [|reflexivity].
  destruct rest as [|? ?]; [|reflexivity].
  apply string_to_double_spec in P as (w & y & Hw & Ly & Ey).
  rewrite app_nil_r in Hw. rewrite Hw in Lb. congruence.
Qed.

End FloatText.

Lemma starts_with_nil_r p : starts_with p [] = true -> p = [].
Proof. now destruct p. Qed.

(** A replacement does not touch the last character of a text when the
    replaced word ends with another character. *)
Lemma replace_from_last old new a b :
  last old = Some b -> a <> b ->
  forall s skip pre rem,
    old = pre ++ rem -> length rem = skip -> starts_with rem s = true ->
    last s = Some a ->
    last (replace_from old new s skip) = Some a.
Proof.
  intros Lo Ne. induction s as [|c t IH]; intros skip pre rem Ho Hl Hs La;
    [discriminate|].
  cbn [replace_from]. destruct skip as [|n].
  - destruct rem; [|discriminate]. clear Hs Hl.
    destruct (starts_with old (c :: t)) eqn:S.
    + destruct old as [|o0 old']; [discriminate|].
      cbn [starts_with] in S. apply andb_true_iff in S as [E S].
      apply Z.eqb_eq in E. subst o0.
      destruct t as [|d t'].
      * apply starts_with_nil_r in S. subst old'. cbn in Lo, La. congruence.
      * rewrite last_cons_cons in La. apply last_app_some.
        apply (IH _ [c] old'); auto. cbn [length]. lia.
    + destruct t as [|d t']; [exact La|].
      rewrite last_cons_cons in La. rewrite last_cons.
      now rewrite (IH 0%nat old [] (eq_sym (app_nil_r old)) eq_refl eq_refl La).
  - destruct rem as [|r0 rem']; [discriminate|].
    cbn [starts_with] in Hs. apply andb_true_iff in Hs as [E S].
    apply Z.eqb_eq in E. subst r0. injection Hl as Hl.
    destruct t as [|d t'].
    + apply starts_with_nil_r in S. subst rem'.
      rewrite Ho, last_snoc in Lo. cbn in La. congruence.
    + rewrite last_cons_cons in La.
      apply (IH n (pre ++ [c]) rem'); auto.
      now rewrite <- app_assoc.
Qed.

Lemma replace_last old new s a b :
  last old = Some b -> a <> b -> last s = Some a ->
  last (replace old new s) = Some a.
Proof.
  intros Lo Ne La. unfold replace.
  destruct old as [|o old'] eqn:O; [discriminate|]. rewrite <- O in *.
  apply (replace_from_last old new a b Lo Ne s 0%nat old []); auto.
  now rewrite app_nil_r.
Qed.

Lemma forallb_replace_from (q : char -> bool) old new :
  forallb q new = true ->
  forall s skip, forallb q s = true ->
                 forallb q (replace_from old new s skip) = true.
Proof.
  intros Qn. induction s as [|c t IH]; intros skip; [reflexivity|].
  cbn [forallb replace_from]. intros [Qc Qt]%andb_true_iff.
  destruct skip; [|auto].
  destruct (starts_with old (c :: t)).
  - rewrite forallb_app, Qn. cbn [andb]. auto.
  - cbn [forallb]. rewrite Qc. cbn [andb]. auto.
Qed.

Lemma forallb_replace (q : char -> bool) old new s :
  old <> [] -> forallb q new = true -> forallb q s = true ->
  forallb q (replace old new s) = true.
Proof.
  intros O Qn Qs. unfold replace. destruct old; [congruence|].
  now apply forallb_replace_from.
Qed.

Section Absent.

Context `{U : PyUnicode} {L : PyUnicodeLaws U}.

Lemma transform_last s x :
  last s = Some x -> x <= 127 ->
  last (PyFloat.transform_decimal_and_space s) = Some x
  \/ last (PyFloat.transform_decimal_and_space s) = Some 63.
Proof.
  intros Ls Hx. induction s as [|c t IH]; [discriminate|].
  cbn [PyFloat.transform_decimal_and_space].
  destruct t as [|d t'].
  - injection Ls as ->. apply Z.leb_le in Hx. rewrite Hx. now left.
  - rewrite last_cons_cons in Ls. specialize (IH Ls).
    assert (K : forall y, last (y :: PyFloat.transform_decimal_and_space (d :: t'))
                          = last (PyFloat.transform_decimal_and_space (d :: t'))).
    { intros y. rewrite last_cons. now destruct IH as [-> | ->]. }
    destruct (c <=? 127); [now rewrite K|].
    destruct (isspace c); [now rewrite K|].
    destruct (todecimal c); [now rewrite K | now right].
Qed.

Lemma of_str_fails s x :
  last s = Some x -> x <= 127 ->
  float_end x = false -> PyFloat.is_blank x = false -> x <> 95 ->
  PyFloat.of_str s = Raise ValueError.
Proof.
  intros Ls Hx E B N. unfold PyFloat.of_str.
  destruct (transform_last s x Ls Hx) as [T|T].
  - now apply (of_ascii_fails _ x).
  - now apply (of_ascii_fails _ 63).
Qed.

(** The parser gives [None] for a lower-case text that ends with a letter
    that no float ends with and that none of the words it takes out ends
    with. *)
Lemma parse_int_like_letter_end g x :
  forallb lower_stable g = true ->
  last g = Some x ->
  x <= 127 -> float_end x = false -> PyFloat.is_blank x = false ->
  x <> 95 -> x <> 46 -> x <> 32 -> x <> 44 -> x <> 108 -> x <> 107 ->
  parse_int_like g = Ok None.
Proof.
  intros St Lg Hx E B N95 N46 N32 N44 N108 N107. unfold parse_int_like.
  rewrite (str_lower_fixed g St).
  assert (L1 : last (replace (u ",") (u ".")
                       (replace (u " ") [] (replace (u ".") [] g))) = Some x).
  { apply (replace_last _ _ _ x 44); [reflexivity | exact N44|].
    apply (replace_last _ _ _ x 32); [reflexivity | exact N32|].
    now apply (replace_last _ _ _ x 46). }
  set (s2 := replace (u ",") (u ".") _) in *.
  assert (F : forall s mult, last s = Some x ->
            try_except
              (rbind (PyFloat.of_str s) (fun y =>
               rbind (PyFloat.to_int (PyFloat.mul y (PyFloat.of_int mult)))
                     (fun n => Ok (Some n))))
              (Ok None) = Ok None).
  { intros s mult Ls. now rewrite (of_str_fails s x Ls Hx E B N95). }
  destruct (contains (u "mil") s2).
  - assert (L2 : last (replace (u "mil") [] s2) = Some x)
      by now apply (replace_last _ _ _ x 108).
    destruct (contains (u "k") (replace (u "mil") [] s2)).
    + apply F. now apply (replace_last _ _ _ x 107).
    + now apply F.
  - destruct (contains (u "k") s2).
    + apply F. now apply (replace_last _ _ _ x 107).
    + now apply F.
Qed.

Lemma Matches_lits w : forall s s' c c',
  Matches (lits w) s s' c c' -> s = w ++ s'.
Proof.
  induction w as [|a [|b w'] IH]; intros s s' c c' M.
  - now invert M.
  - invert M. match goal with H : (_ =? _) = true |- _ =>
                apply Z.eqb_eq in H; now subst end.
  - change (lits (a :: b :: w')) with (Seq (lit a) (lits (b :: w'))) in M.
    invert M.
    match goal with H : Matches (lit _) _ _ _ _ |- _ => invert H end.
    match goal with H : (_ =? _) = true |- _ => apply Z.eqb_eq in H; subst end.
    match goal with H : Matches _ _ _ _ _ |- _ => apply IH in H end.
    now subst.
Qed.

(** The text of a match of a quantity pattern is a piece of the subject
    that ends with the indicator word of the pattern. *)
Lemma quantity_match_text word text m :
  match_in (re_quantity_then word) text m ->
  exists pre w post,
    text = pre ++ (w ++ word) ++ post /\ m_text m = w ++ word.
Proof.
  intros (pre & s' & rest & c & -> & M & ->).
  unfold re_quantity_then in M.
  invert M. match goal with H : Matches (Seq _ _) _ _ _ _ |- _ => invert H end.
  match goal with H : Matches (Seq _ _) _ _ _ _ |- _ => invert H end.
  match goal with H : Matches (Seq _ _) _ _ _ _ |- _ => invert H end.
  repeat match goal with
         | H : Matches (lits _) _ _ _ _ |- _ => apply Matches_lits in H
         | H : Matches _ _ _ _ _ |- _ => apply Matches_suffix in H as [? ?]
         end.
  subst.
  match goal with
  | |- context [match_of (?w1 ++ ?w2 ++ ?w3 ++ ?w4 ++ word ++ rest) rest c] =>
      exists pre, (w1 ++ w2 ++ w3 ++ w4), rest
  end.
  split; [now rewrite <- !app_assoc|].
  cbn [m_text match_of].
  match goal with
  | |- take _ ?l = ?r =>
      replace l with (r ++ rest) by (now rewrite <- !app_assoc);
      generalize r; intros r'
  end.
  rewrite length_app.
  replace (length r' + length rest - length rest)%nat with (length r') by lia.
  apply take_app_length.
Qed.

Lemma forallb_middle (q : char -> bool) pre mid post :
  forallb q (pre ++ mid ++ post) = true -> forallb q mid = true.
Proof.
  rewrite !forallb_app. intros [_ [H _]%andb_true_iff]%andb_true_iff.
  exact H.
Qed.

Lemma first_quantity_none clean ms :
  (forall m, In m ms -> parse_int_like (clean (m_text m)) = Ok None) ->
  first_quantity clean ms None = Ok None.
Proof.
  induction ms as [|m ms IH]; intros H; cbn [first_quantity]; [reflexivity|].
  rewrite (H m) by now left. cbn [rbind truthy].
  apply IH. intros m' I. apply H. now right.
Qed.

Lemma detect_sold_none raw : detect_sold (str_lower raw) = Ok None.
Proof.
  unfold detect_sold. apply first_quantity_none. intros m I.
  apply finditer_sound, quantity_match_text in I as (pre & w & post & T & ->).
  pose proof (str_lower_stable raw) as St. rewrite T in St.
  apply forallb_middle in St.
  apply (parse_int_like_letter_end _ 100); try (reflexivity || discriminate).
  - apply forallb_replace; [discriminate | reflexivity|].
    now apply forallb_replace; [discriminate | reflexivity|].
  - apply (replace_last _ _ _ 100 111); [reflexivity | discriminate|].
    apply (replace_last _ _ _ 100 115); [reflexivity | discriminate|].
    now apply last_app_some.
Qed.

Lemma detect_reviews_none raw : detect_reviews (str_lower raw) = Ok None.
Proof.
  unfold detect_reviews. apply first_quantity_none. intros m I.
  apply finditer_sound, quantity_match_text in I as (pre & w & post & T & ->).
  pose proof (str_lower_stable raw) as St. rewrite T in St.
  apply forallb_middle in St.
  apply (parse_int_like_letter_end _ 97); try (reflexivity || discriminate).
  - apply forallb_replace; [discriminate | reflexivity|].
    now apply forallb_replace; [discriminate | reflexivity|].
  - apply (replace_last _ _ _ 97 111); [reflexivity | discriminate|].
    apply (replace_last _ _ _ 97 115); [reflexivity | discriminate|].
    now apply last_app_some.
Qed.

End Absent.

(** Whatever the page, the sold field and the reviews field of the record
    are absent. *)
Lemma sold_and_reviews_always_absent (U : PyUnicode) (L : PyUnicodeLaws U)
    (link : str) (pg : Page) (p : Product) :
  product_of_page link pg = Ok p -> sold p = None /\ reviews p = None.
Proof.
  intros H.
  destruct (product_of_page_fields link pg) as (p' & Hp & _ & Hs & _ & Hv).
  rewrite Hp in H. injection H as ->.
  rewrite detect_sold_none in Hs. rewrite detect_reviews_none in Hv.
  split; congruence.
Qed.

(** ** The candidate filter *)

Section Filter.

Context `{U : PyUnicode}.

Lemma make_candidate_inv cfg used_ids used_keys cat p c :
  make_candidate cfg used_ids used_keys cat p = Some c ->
  c_product c = p
  /\ c_category c = cat
  /\ c_product_id c = url p
  /\ c_similarity_key c = similarity_key cat (title p)
  /\ (exists s, sold p = Some s /\ s <> 0 /\ sold_min cfg <= s)
  /\ (forall r, rating p = Some r -> PyFloat.ltb r (rating_min cfg) = false)
  /\ (url p ∉ used_ids)
  /\ (similarity_key cat (title p) ∉ used_keys).
Proof.
  unfold make_candidate.
  destruct (sold p) as [s|]; cbn [truthy default from_option id negb orb];
    [|discriminate].
  destruct (s =? 0) eqn:Z0; cbn [negb orb]; [discriminate|].
  destruct (s <? sold_min cfg) eqn:Lt; [discriminate|].
  destruct (rating p) as [r|].
  - destruct (PyFloat.ltb r (rating_min cfg)) eqn:R; [discriminate|].
    destruct (decide (url p ∈ used_ids)); [discriminate|].
    destruct (decide (similarity_key cat (title p) ∈ used_keys));
      [discriminate|].
    intros [= <-]. cbn. repeat split; try assumption.
    + exists s. repeat split; lia.
    + now intros ? [= <-].
  - destruct (decide (url p ∈ used_ids)); [discriminate|].
    destruct (decide (similarity_key cat (title p) ∈ used_keys));
      [discriminate|].
    intros [= <-]. cbn. repeat split; try assumption.
    + exists s. repeat split; lia.
    + discriminate.
Qed.

End Filter.

(** C10. A candidate whose sold field is present and equal to 0 is
    rejected by the filter whatever [sold_min] is, [sold_min = 0]
    included: the field is tested by its truth value, and 0 is false as
    [None] is. *)
Theorem zero_sold_is_rejected (U : PyUnicode) (cfg : Config)
    (used_ids used_keys : gset (list Z)) (cat : str) (p : Product) :
  sold p = Some 0 ->
  make_candidate cfg used_ids used_keys cat p = None.
Proof. intros H. unfold make_candidate. rewrite H. reflexivity. Qed.

Lemma zero_sold_is_rejected_witness :
  make_candidate (U := latin1) (sample_config 1 0) ∅ ∅ (u "Pets")
    (sample_product "Coleira" "https://shopee.com.br/product/1/1" (Some 0) None)
  = None.
Proof.
  apply (zero_sold_is_rejected latin1 (sample_config 1 0) ∅ ∅ (u "Pets")
           (sample_product "Coleira" "https://shopee.com.br/product/1/1"
              (Some 0) None)).
  reflexivity.
Defined.

(** C2. The filter rejects a record whose sold field is absent or below
    [sold_min]; it rejects a record whose rating is present and below
    [rating_min]; it keeps a record with an absent rating that passes the
    other tests; and every record of the filtered output has a sold field
    that is present and at least [sold_min]. *)
Theorem filter_thresholds (U : PyUnicode) (cfg : Config)
    (used_ids used_keys : gset (list Z)) (cat : str) :
  (forall p, sold p = None ->
     make_candidate cfg used_ids used_keys cat p = None)
  /\ (forall p s, sold p = Some s -> s < sold_min cfg ->
        make_candidate cfg used_ids used_keys cat p = None)
  /\ (forall p r, rating p = Some r ->
        PyFloat.ltb r (rating_min cfg) = true ->
        make_candidate cfg used_ids used_keys cat p = None)
  /\ (forall p s, rating p = None ->
        sold p = Some s -> s <> 0 -> sold_min cfg <= s ->
        url p ∉ used_ids -> similarity_key cat (title p) ∉ used_keys ->
        make_candidate cfg used_ids used_keys cat p
        = Some {| c_product := p; c_category := cat; c_product_id := url p;
                  c_similarity_key := similarity_key cat (title p) |})
  /\ (forall results c,
        In c (omap (make_candidate cfg used_ids used_keys cat) results) ->
        In (c_product c) results
        /\ (exists s, sold (c_product c) = Some s /\ sold_min cfg <= s)
        /\ (forall r, rating (c_product c) = Some r ->
              PyFloat.ltb r (rating_min cfg) = false)).
Proof.
  repeat split.
  - intros p H. unfold make_candidate. now rewrite H.
  - intros p s H Lt. unfold make_candidate. rewrite H.
    cbn [truthy default from_option id].
    apply Z.ltb_lt in Lt. rewrite Lt. now rewrite orb_true_r.
  - intros p r H Lt. unfold make_candidate. rewrite H, Lt.
    now destruct (negb (truthy (sold p)) || (default 0 (sold p) <? sold_min cfg)).
  - intros p s Hr Hs Nz Ge Hu Hk. unfold make_candidate. rewrite Hs, Hr.
    cbn [truthy default from_option id].
    apply Z.eqb_neq in Nz. rewrite Nz.
    apply Z.ltb_ge in Ge. rewrite Ge. cbn [negb orb].
    destruct (decide (url p ∈ used_ids)); [contradiction|].
    destruct (decide (similarity_key cat (title p) ∈ used_keys));
      [contradiction | reflexivity].
  - apply list_elem_of_In, list_elem_of_omap in H as (p & Hp & Hc).
    apply make_candidate_inv in Hc as (-> & _). now apply list_elem_of_In.
  - apply list_elem_of_In, list_elem_of_omap in H as (p & Hp & Hc).
    apply make_candidate_inv in Hc as (-> & _ & _ & _ & (s & ? & ? & ?) & _).
    eauto.
  - apply list_elem_of_In, list_elem_of_omap in H as (p & Hp & Hc).
    apply make_candidate_inv in Hc as (-> & _ & _ & _ & _ & Hr & _).
    exact Hr.
Qed.

(** ** The daily selection *)

Section SelectionProofs.

Context `{U : PyUnicode} {X : Type}.
Variable search_products : str -> Z -> X -> pyresult (list Product) * X.
Variable generate_copy : Candidate -> X -> pyresult str * X.
Variable append_to_sheet : list Row -> X -> pyresult unit * X.
Variable write_output : Z -> list (Candidate * str) -> X -> pyresult unit * X.
Variable cta_line : str -> str.

Local Abbreviation scan_cats := (scan_categories search_products).
Local Abbreviation write := (write_picks generate_copy cta_line).
Local Abbreviation run :=
  (main search_products generate_copy append_to_sheet write_output cta_line).

Lemma insert_desc_In x c l : In x (insert_desc c l) <-> x = c \/ In x l.
Proof.
  induction l as [|d l IH]; cbn [insert_desc].
  - cbn. intuition.
  - destruct (sold_key c <? sold_key d); cbn [In]; [rewrite IH|]; intuition.
Qed.

Lemma sort_desc_In x l : In x (sort_desc l) <-> In x l.
Proof.
  induction l as [|c l IH]; cbn [sort_desc]; [tauto|].
  rewrite insert_desc_In, IH. cbn. intuition.
Qed.

Lemma take_picks_In n cands picks x :
  In x (take_picks n cands picks) -> In x picks \/ In x cands.
Proof.
  revert picks. induction cands as [|cand rest IH]; intros picks;
    cbn [take_picks]; [tauto|].
  destruct (n <=? Z.of_nat (length picks)); [tauto|].
  destruct (existsb _ picks).
  - intros H. apply IH in H. cbn. tauto.
  - intros H. apply IH in H. rewrite in_app_iff in H. cbn in *. tauto.
Qed.

Lemma existsb_same_key picks cand :
  existsb (fun c => str_eqb (c_similarity_key c) (c_similarity_key cand)) picks
  = false ->
  ~ In (c_similarity_key cand) (map c_similarity_key picks).
Proof.
  intros E I. apply in_map_iff in I as (c & K & I).
  assert (existsb (fun c => str_eqb (c_similarity_key c)
                              (c_similarity_key cand)) picks = true) as T.
  { apply existsb_exists. exists c. split; [exact I|].
    unfold str_eqb. now apply bool_decide_eq_true. }
  congruence.
Qed.

Lemma take_picks_distinct_keys n cands picks :
  List.NoDup (map c_similarity_key picks) ->
  List.NoDup (map c_similarity_key (take_picks n cands picks)).
Proof.
  revert picks. induction cands as [|cand rest IH]; intros picks N;
    cbn [take_picks]; [exact N|].
  destruct (n <=? Z.of_nat (length picks)); [exact N|].
  destruct (existsb _ picks) eqn:E; [now apply IH|].
  apply IH. rewrite map_app. cbn [map].
  apply existsb_same_key in E.
  apply NoDup_ListNoDup, NoDup_app. repeat split.
  - now apply NoDup_ListNoDup.
  - intros k Hk Hin. apply list_elem_of_singleton in Hin as ->.
    apply E. now apply list_elem_of_In.
  - apply NoDup_singleton.
Qed.

Lemma call_store {A} (f : X -> pyresult A * X) (e e' : Env) r :
  call f e = (r, e') -> store e' = store e.
Proof.
  unfold call. destruct (f (outside e)) as [r' x']. now intros [= <- <-].
Qed.

(** An invariant of the picks is kept by the loop over the categories,
    which leaves the state file alone. *)
Lemma scan_categories_inv (P : list Candidate -> Prop) cfg ids keys :
  (forall picks cat results,
     P picks ->
     P (take_picks (per_day cfg)
          (sort_desc (omap (make_candidate cfg ids keys cat) results)) picks)) ->
  forall cats picks e picks' e',
    P picks ->
    scan_cats cfg ids keys cats picks e = (Ok picks', e') ->
    P picks'.
Proof.
  intros Step cats. induction cats as [|cat rest IH]; intros picks e picks' e' HP;
    cbn [scan_categories].
  - unfold ret. now intros [= <- <-].
  - destruct (per_day cfg <=? Z.of_nat (length picks)).
    + unfold ret. now intros [= <- <-].
    + unfold bind, call.
      destruct (search_products (cat ++ u " shopee") 50 (outside e))
        as [[results|x] x']; [|discriminate].
      apply IH. now apply Step.
Qed.

Lemma scan_categories_store cfg ids keys cats :
  forall picks e r e',
    scan_cats cfg ids keys cats picks e = (r, e') -> store e' = store e.
Proof.
  induction cats as [|cat rest IH]; intros picks e r e'; cbn [scan_categories].
  - unfold ret. now intros [= <- <-].
  - destruct (per_day cfg <=? Z.of_nat (length picks)).
    + unfold ret. now intros [= <- <-].
    + unfold bind, call.
      destruct (search_products (cat ++ u " shopee") 50 (outside e))
        as [[results|x] x'].
      * intros H. apply IH in H. exact H.
      * now intros [= <- <-].
Qed.

Lemma scan_categories_filtered cfg ids keys cats picks e picks' e' :
  Forall (filtered cfg ids keys) picks ->
  scan_cats cfg ids keys cats picks e = (Ok picks', e') ->
  Forall (filtered cfg ids keys) picks'.
Proof.
  apply (scan_categories_inv (Forall (filtered cfg ids keys))).
  intros pk cat results F. apply Forall_forall. intros c Hc.
  apply list_elem_of_In, take_picks_In in Hc as [Hc|Hc].
  - rewrite Forall_forall in F. apply F. now apply list_elem_of_In.
  - apply sort_desc_In, list_elem_of_In, list_elem_of_omap in Hc
      as (p & _ & Hc).
    now exists cat, p.
Qed.

Lemma scan_categories_distinct_keys cfg ids keys cats picks e picks' e' :
  List.NoDup (map c_similarity_key picks) ->
  scan_cats cfg ids keys cats picks e = (Ok picks', e') ->
  List.NoDup (map c_similarity_key picks').
Proof.
  apply (scan_categories_inv
           (fun l => List.NoDup (map c_similarity_key l))).
  intros pk cat results N. now apply take_picks_distinct_keys.
Qed.

Lemma write_picks_store day cfg picks :
  forall rows outs ids keys e r e',
    write day cfg picks rows outs ids keys e = (r, e') -> store e' = store e.
Proof.
  induction picks as [|p rest IH]; intros rows outs ids keys e r e';
    cbn [write_picks].
  - unfold ret. now intros [= <- <-].
  - unfold bind, call.
    destruct (generate_copy p (outside e)) as [[content|x] x'].
    + intros H. apply IH in H. exact H.
    + now intros [= <- <-].
Qed.

Lemma write_picks_sets day cfg picks :
  forall rows outs ids keys e rows' outs' ids' keys' e',
    write day cfg picks rows outs ids keys e
    = (Ok (rows', outs', ids', keys'), e') ->
    ids' = list_to_set (map c_product_id picks) ∪ ids
    /\ keys' = list_to_set (map c_similarity_key picks) ∪ keys.
Proof.
  induction picks as [|p rest IH];
    intros rows outs ids keys e rows' outs' ids' keys' e'; cbn [write_picks].
  - unfold ret. intros [= <- <- <- <- <-]. cbn [map list_to_set].
    now rewrite !(left_id_L ∅ (∪)).
  - unfold bind, call.
    destruct (generate_copy p (outside e)) as [[content|x] x'];
      [|discriminate].
    intros H. apply IH in H as [-> ->]. cbn [map list_to_set].
    split; rewrite (assoc_L (∪)); f_equal; apply (comm_L (∪)).
Qed.

(** What a run that delivers has done. *)
Lemma main_delivered cfg e day picks e' :
  run cfg e = (Ok (Delivered day picks), e') ->
  exists st e1,
    store e = Some st
    /\ day = default 0 (day_index st) + 1
    /\ day <= total_days cfg
    /\ scan_cats cfg (ids_of (store e)) (keys_of (store e))
         (categories cfg) [] e = (Ok picks, e1)
    /\ per_day cfg <= Z.of_nat (length picks)
    /\ store e' =
       Some {| day_index := Some day;
               used_product_ids :=
                 Some (elements (list_to_set (map c_product_id picks)
                                 ∪ ids_of (store e)));
               used_similarity_keys :=
                 Some (elements (list_to_set (map c_similarity_key picks)
                                 ∪ keys_of (store e))) |}.
Proof.
  unfold main, bind at 1, load_state.
  destruct (store e) as [st|] eqn:S; [|discriminate].
  destruct (total_days cfg <? default 0 (day_index st) + 1) eqn:T;
    [discriminate|].
  apply Z.ltb_ge in T.
  unfold bind at 1.
  destruct (scan_categories _ _ _ _ _ _ e) as [[pk|x] e1] eqn:Sc;
    [|discriminate].
  destruct (Z.of_nat (length pk) <? per_day cfg) eqn:Lt; [discriminate|].
  apply Z.ltb_ge in Lt.
  unfold bind at 1.
  destruct (write_picks _ _ _ _ _ _ _ _ _ e1)
    as [[[[[rows outs] ids'] keys']|x] e2] eqn:W; [|discriminate].
  unfold bind at 1.
  destruct ((if USE_SHEETS cfg then call (append_to_sheet rows)
             else call (write_output (default 0 (day_index st) + 1) outs)) e2)
    as [[[]|x] e3] eqn:D; [|discriminate].
  unfold bind, save_state, ret. intros [= <- <- <-].
  apply write_picks_sets in W as [-> ->].
  exists st, e1. cbn [store ids_of keys_of]. repeat split; try assumption.
Qed.

(** A run that raises, or finds the project over, leaves the state file
    as it was. *)
Lemma main_store_kept cfg e r e' :
  run cfg e = (r, e') ->
  (forall day picks, r <> Ok (Delivered day picks)) ->
  store e' = store e.
Proof.
  unfold main, bind at 1, load_state.
  destruct (store e) as [st|] eqn:S; [|now intros [= <- <-]].
  destruct (total_days cfg <? default 0 (day_index st) + 1);
    [unfold ret; now intros [= <- <-]|].
  unfold bind at 1.
  destruct (scan_categories _ _ _ _ _ _ e) as [[pk|x] e1] eqn:Sc.
  2:{ intros [= <- <-] _. apply scan_categories_store in Sc. congruence. }
  apply scan_categories_store in Sc.
  destruct (Z.of_nat (length pk) <? per_day cfg).
  { unfold raise. intros [= <- <-] _. congruence. }
  unfold bind at 1.
  destruct (write_picks _ _ _ _ _ _ _ _ _ e1)
    as [[[[[rows outs] ids'] keys']|x] e2] eqn:W.
  2:{ intros [= <- <-] _. apply write_picks_store in W. congruence. }
  apply write_picks_store in W.
  unfold bind at 1.
  destruct ((if USE_SHEETS cfg then call (append_to_sheet rows)
             else call (write_output (default 0 (day_index st) + 1) outs)) e2)
    as [[[]|x] e3] eqn:D.
  - unfold bind, save_state, ret. intros [= <- <-] N.
    exfalso. eapply N. reflexivity.
  - intros [= <- <-] _.
    destruct (USE_SHEETS cfg); apply call_store in D; congruence.
Qed.

Lemma main_delivered_fresh cfg e day picks e' :
  run cfg e = (Ok (Delivered day picks), e') ->
  forall c, In c picks ->
    c_product_id c = url (c_product c)
    /\ (url (c_product c) ∉ ids_of (store e))
    /\ (url (c_product c) ∈ ids_of (store e')).
Proof.
  intros H c I.
  apply main_delivered in H as (st & e1 & S & _ & _ & Sc & _ & S').
  apply scan_categories_filtered in Sc; [|constructor].
  rewrite Forall_forall in Sc.
  destruct (Sc c) as (cat & p & Hc); [now apply list_elem_of_In|].
  apply make_candidate_inv in Hc as (-> & _ & Hid & _ & _ & _ & Hu & _).
  split; [exact Hid|]. split; [exact Hu|].
  rewrite S'. cbn [ids_of used_product_ids default from_option id].
  rewrite list_to_set_elements_L. apply elem_of_union_l.
  apply elem_of_list_to_set, list_elem_of_In, in_map_iff.
  exists c. split; [exact Hid | exact I].
Qed.

Lemma main_ids_grow cfg e r e' :
  run cfg e = (r, e') -> ids_of (store e) ⊆ ids_of (store e').
Proof.
  intros H. destruct r as [[|day picks]|x].
  - apply main_store_kept in H; [|discriminate]. now rewrite H.
  - apply main_delivered in H as (st & e1 & S & _ & _ & _ & _ & S').
    rewrite S'. cbn [ids_of used_product_ids default from_option id].
    rewrite list_to_set_elements_L. apply union_subseteq_r.
  - apply main_store_kept in H; [|discriminate]. now rewrite H.
Qed.

Lemma store_follows_ids s s' :
  store_follows search_products generate_copy append_to_sheet write_output
    cta_line s s' ->
  ids_of s ⊆ ids_of s'.
Proof.
  induction 1 as [|cfg e r e' _ IH H]; [reflexivity|].
  etransitivity; [exact IH|]. eapply main_ids_grow. exact H.
Qed.

(** The picks of a run that delivers passed the thresholds. *)
Lemma picks_pass_thresholds cfg e day picks e' :
  run cfg e = (Ok (Delivered day picks), e') ->
  forall c, In c picks ->
    (exists s, sold (c_product c) = Some s /\ s <> 0 /\ sold_min cfg <= s)
    /\ (forall r, rating (c_product c) = Some r ->
          PyFloat.ltb r (rating_min cfg) = false).
Proof.
  intros H c I.
  apply main_delivered in H as (st & e1 & _ & _ & _ & Sc & _).
  apply scan_categories_filtered in Sc; [|constructor].
  rewrite Forall_forall in Sc.
  destruct (Sc c) as (cat & p & Hc); [now apply list_elem_of_In|].
  apply make_candidate_inv in Hc as (-> & _ & _ & _ & Hs & Hr & _).
  now split.
Qed.

End SelectionProofs.

(** C6. The picks that a run delivers have pairwise different similarity
    keys: a candidate that the walk over the sorted candidates adds to the
    picks has a key that none of the picks accepted before it has. *)
Theorem picks_have_distinct_keys (U : PyUnicode) (X : Type)
    (search_products : str -> Z -> X -> pyresult (list Product) * X)
    (generate_copy : Candidate -> X -> pyresult str * X)
    (append_to_sheet : list Row -> X -> pyresult unit * X)
    (write_output : Z -> list (Candidate * str) -> X -> pyresult unit * X)
    (cta_line : str -> str)
    (cfg : Config) (e e' : Env) (day : Z) (picks : list Candidate) :
  main search_products generate_copy append_to_sheet write_output cta_line
    cfg e = (Ok (Delivered day picks), e') ->
  List.NoDup (map c_similarity_key picks)
  /\ forall (cands accepted : list Candidate) (c : Candidate),
       In c (take_picks (per_day cfg) cands accepted) ->
       In c accepted
       \/ ~ In (c_similarity_key c) (map c_similarity_key accepted).
Proof.
  intros H. split.
  - apply main_delivered in H as (st & e1 & _ & _ & _ & Sc & _).
    eapply scan_categories_distinct_keys; [|exact Sc]. constructor.
  - clear H. intros cands. induction cands as [|cand rest IH];
      intros accepted c; cbn [take_picks]; [now left|].
    destruct (per_day cfg <=? Z.of_nat (length accepted)); [now left|].
    destruct (existsb _ accepted) eqn:E; [apply IH|].
    intros I. apply IH in I as [I|I].
    + apply in_app_iff in I as [I|[<-|[]]]; [now left|].
      right. now apply existsb_same_key.
    + right. intros K. apply I. rewrite map_app, in_app_iff. now left.
Qed.

Lemma picks_have_distinct_keys_witness :
  List.NoDup
    (map c_similarity_key (picks_of (sample_run (sample_config 2 100) first_day)))
  /\ forall (cands accepted : list Candidate) (c : Candidate),
       In c (take_picks (per_day (sample_config 2 100)) cands accepted) ->
       In c accepted
       \/ ~ In (c_similarity_key c) (map c_similarity_key accepted).
Proof.
  apply (picks_have_distinct_keys latin1 (list (list Product)) queue_search
           fixed_copy quiet_sheet quiet_output no_cta (sample_config 2 100)
           first_day (snd (sample_run (sample_config 2 100) first_day)) 1
           (picks_of (sample_run (sample_config 2 100) first_day))).
  vm_compute. reflexivity.
Defined.

(** C3. When the loop over the categories ends with fewer picks than
    [per_day], the run raises an error whose message gives the number of
    picks found, and the state file is as it was before the run. *)
Theorem insufficient_inventory_fails (U : PyUnicode) (X : Type)
    (search_products : str -> Z -> X -> pyresult (list Product) * X)
    (generate_copy : Candidate -> X -> pyresult str * X)
    (append_to_sheet : list Row -> X -> pyresult unit * X)
    (write_output : Z -> list (Candidate * str) -> X -> pyresult unit * X)
    (cta_line : str -> str)
    (cfg : Config) (e e1 : Env) (st : State) (picks : list Candidate) :
  store e = Some st ->
  default 0 (day_index st) + 1 <= total_days cfg ->
  scan_categories search_products cfg (ids_of (store e)) (keys_of (store e))
    (categories cfg) [] e = (Ok picks, e1) ->
  Z.of_nat (length picks) < per_day cfg ->
  main search_products generate_copy append_to_sheet write_output cta_line
    cfg e
  = (Raise (RuntimeError
       (u "Não consegui achar " ++ str_of_int (per_day cfg)
        ++ u " produtos válidos hoje. Achou "
        ++ str_of_int (Z.of_nat (length picks))
        ++ u ". Ajuste categorias ou filtros.")), e1)
  /\ store e1 = store e.
Proof.
  intros S D Sc Lt. split.
  - unfold main, bind at 1, load_state. rewrite S.
    apply Z.ltb_ge in D. rewrite D.
    rewrite S in Sc. cbn [ids_of keys_of] in Sc.
    unfold bind. rewrite Sc.
    apply Z.ltb_lt in Lt. rewrite Lt. reflexivity.
  - eapply scan_categories_store. exact Sc.
Qed.

Lemma insufficient_inventory_fails_witness :
  sample_run (sample_config 3 100) first_day
  = (Raise (RuntimeError
       (u "Não consegui achar " ++ str_of_int 3
        ++ u " produtos válidos hoje. Achou " ++ str_of_int 2
        ++ u ". Ajuste categorias ou filtros.")),
     {| store := Some empty_state; outside := [] |})
  /\ store {| store := Some empty_state;
              outside := @nil (list Product) |} = store first_day.
Proof.
  apply (insufficient_inventory_fails latin1 (list (list Product)) queue_search
           fixed_copy quiet_sheet quiet_output no_cta (sample_config 3 100)
           first_day {| store := Some empty_state; outside := [] |} empty_state
           (picks_of (sample_run (sample_config 2 100) first_day))).
  - reflexivity.
  - vm_compute. discriminate.
  - vm_compute. reflexivity.
  - vm_compute. reflexivity.
Defined.

(** C5. The urls of the picks of a run that delivers are in
    [used_product_ids] of the state file it writes; the filter rejects
    every record whose url is in [used_product_ids] of the state file the
    run read; so, the state file being shared, no url is among the picks
    of two different runs that deliver. *)
Theorem no_url_picked_twice (U : PyUnicode) (X : Type)
    (search_products : str -> Z -> X -> pyresult (list Product) * X)
    (generate_copy : Candidate -> X -> pyresult str * X)
    (append_to_sheet : list Row -> X -> pyresult unit * X)
    (write_output : Z -> list (Candidate * str) -> X -> pyresult unit * X)
    (cta_line : str -> str)
    (cfg1 cfg2 : Config) (e0 e1 e2 e3 : Env) (d1 d2 : Z)
    (picks1 picks2 : list Candidate) :
  main search_products generate_copy append_to_sheet write_output cta_line
    cfg1 e0 = (Ok (Delivered d1 picks1), e1) ->
  store_follows search_products generate_copy append_to_sheet write_output
    cta_line (store e1) (store e2) ->
  main search_products generate_copy append_to_sheet write_output cta_line
    cfg2 e2 = (Ok (Delivered d2 picks2), e3) ->
  (forall c, In c picks1 -> url (c_product c) ∈ ids_of (store e1))
  /\ (forall cat p, url p ∈ ids_of (store e2) ->
        make_candidate cfg2 (ids_of (store e2)) (keys_of (store e2)) cat p
        = None)
  /\ (forall c1 c2, In c1 picks1 -> In c2 picks2 ->
        url (c_product c1) <> url (c_product c2)).
Proof.
  intros R1 F R2. repeat split.
  - intros c I. eapply main_delivered_fresh in R1 as (_ & _ & ?); eauto.
  - intros cat p I.
    destruct (make_candidate cfg2 (ids_of (store e2)) (keys_of (store e2))
                cat p) as [c|] eqn:M; [|reflexivity].
    apply make_candidate_inv in M as (_ & _ & _ & _ & _ & _ & N & _).
    contradiction.
  - intros c1 c2 I1 I2 E.
    eapply main_delivered_fresh in R1 as (_ & _ & In1); [|exact I1].
    eapply main_delivered_fresh in R2 as (_ & Out2 & _); [|exact I2].
    apply Out2. rewrite <- E.
    eapply store_follows_ids; [exact F | exact In1].
Qed.

Lemma no_url_picked_twice_witness :
  (forall c, In c (picks_of (sample_run (sample_config 1 100) first_day)) ->
     url (c_product c)
     ∈ ids_of (store (snd (sample_run (sample_config 1 100) first_day))))
  /\ (forall cat p,
        url p ∈ ids_of (store (next_day (sample_run (sample_config 1 100)
                                           first_day))) ->
        make_candidate (U := latin1) (sample_config 1 100)
          (ids_of (store (next_day (sample_run (sample_config 1 100)
                                      first_day))))
          (keys_of (store (next_day (sample_run (sample_config 1 100)
                                       first_day)))) cat p
        = None)
  /\ (forall c1 c2,
        In c1 (picks_of (sample_run (sample_config 1 100) first_day)) ->
        In c2 (picks_of (sample_run (sample_config 1 100)
                           (next_day (sample_run (sample_config 1 100)
                                        first_day)))) ->
        url (c_product c1) <> url (c_product c2)).
Proof.
  apply (no_url_picked_twice latin1 (list (list Product)) queue_search
           fixed_copy quiet_sheet quiet_output no_cta
           (sample_config 1 100) (sample_config 1 100)
           first_day
           (snd (sample_run (sample_config 1 100) first_day))
           (next_day (sample_run (sample_config 1 100) first_day))
           (snd (sample_run (sample_config 1 100)
                   (next_day (sample_run (sample_config 1 100) first_day))))
           1 2).
  - vm_compute. reflexivity.
  - apply follows_now.
  - vm_compute. reflexivity.
Defined.

(** The scenario of the specification: one category, one pick a day, a
    minimum of 100 sold and of 4.5 for the rating; of the records with 50,
    150 and 300 sold and ratings 4.9, 4.0 and 4.8, the pick is the one
    with 300 sold. *)
Example pets_scenario :
  map (fun c => sold (c_product c))
    (picks_of (sample_run (sample_config 1 100)
                 {| store := Some empty_state;
                    outside := [[bebedouro; arranhador; coleira]] |}))
  = [Some 300].
Proof. vm_compute. reflexivity. Qed.

(** ** The run with the harvester of the program

    Every record that [shopee_search] returns comes from
    [product_of_page], so its sold field is absent; the filter rejects
    it, and a run finds no pick at all. *)

Section HarvesterRun.

Context `{U : PyUnicode} {L : PyUnicodeLaws U} {X : Type}.
Variable get_search_anchors : str -> X -> pyresult (list (str * str)) * X.
Variable get_page : str -> X -> pyresult Page * X.
Variable sleep : X -> pyresult unit * X.
Variable generate_copy : Candidate -> X -> pyresult str * X.
Variable append_to_sheet : list Row -> X -> pyresult unit * X.
Variable write_output : Z -> list (Candidate * str) -> X -> pyresult unit * X.
Variable cta_line : str -> str.

Lemma fetch_details_sold urls : forall out x ps x',
  Forall (fun p => sold p = None) out ->
  fetch_details get_page sleep urls out x = (Ok ps, x') ->
  Forall (fun p => sold p = None) ps.
Proof.
  induction urls as [|a rest IH]; intros out x ps x' F; cbn [fetch_details].
  - now intros [= <- <-].
  - unfold shopee_product_details.
    destruct (get_page a x) as [[pg|e] x1].
    + destruct (product_of_page a pg) as [p|e] eqn:P.
      * destruct (sleep x1) as [[[] |e] x2]; [|discriminate].
        apply IH. apply Forall_app. split; [exact F|].
        constructor; [|constructor].
        now apply (sold_and_reviews_always_absent U L a pg p).
      * destruct (is_Exception e); [now apply IH | discriminate].
    + destruct (is_Exception e); [now apply IH | discriminate].
Qed.

Lemma shopee_search_sold query limit x ps x' :
  shopee_search get_search_anchors get_page sleep query limit x = (Ok ps, x') ->
  Forall (fun p => sold p = None) ps.
Proof.
  unfold shopee_search.
  destruct (get_search_anchors query x) as [[anchors|e] x1]; [|discriminate].
  intros H. apply fetch_details_sold in H; [exact H | constructor].
Qed.

Lemma omap_make_candidate_nil cfg ids keys cat results :
  Forall (fun p => sold p = None) results ->
  omap (make_candidate cfg ids keys cat) results = [].
Proof.
  intros F.
  destruct (omap (make_candidate cfg ids keys cat) results) as [|c l] eqn:E;
    [reflexivity|].
  assert (I : c ∈ omap (make_candidate cfg ids keys cat) results)
    by (rewrite E; left).
  apply list_elem_of_omap in I as (p & Ip & Hc).
  apply make_candidate_inv in Hc as (_ & _ & _ & _ & (s & Hs & _) & _).
  rewrite Forall_forall in F. rewrite (F p Ip) in Hs. discriminate.
Qed.

Lemma scan_with_harvester_empty cfg ids keys cats : forall e picks e',
  scan_categories (shopee_search get_search_anchors get_page sleep) cfg ids keys
    cats [] e = (Ok picks, e') ->
  picks = [].
Proof.
  induction cats as [|cat rest IH]; intros e picks e'; cbn [scan_categories].
  - unfold ret. now intros [= <- <-].
  - destruct (per_day cfg <=? Z.of_nat (length (A := Candidate) [])).
    + unfold ret. now intros [= <- <-].
    + unfold bind, call.
      destruct (shopee_search get_search_anchors get_page sleep
                  (cat ++ u " shopee") 50 (outside e))
        as [[results|x] x1] eqn:S; [|discriminate].
      apply shopee_search_sold in S.
      rewrite (omap_make_candidate_nil _ _ _ _ _ S). cbn [sort_desc take_picks].
      apply IH.
Qed.

(** With the harvester of the program, a run that delivers delivers
    nothing: it has no pick, and [per_day] is not positive. *)
Corollary harvester_run_delivers_nothing cfg e day picks e' :
  main (shopee_search get_search_anchors get_page sleep) generate_copy
    append_to_sheet write_output cta_line cfg e
  = (Ok (Delivered day picks), e') ->
  picks = [] /\ per_day cfg <= 0.
Proof.
  intros H. apply main_delivered in H as (st & e1 & _ & _ & _ & Sc & P & _).
  apply scan_with_harvester_empty in Sc. subst picks. split; [reflexivity|].
  exact P.
Qed.

End HarvesterRun.

(** ** The text normalizer *)

Section Normalize.

Context `{U : PyUnicode} {L : PyUnicodeLaws U}.

(** A repeated class before a continuation that accepts everything takes
    all the characters of the class. *)
Lemma rmatch_star_cls {A} (p : char -> bool) (k : str -> caps -> option A) :
  (forall s' c', k s' c' <> None) ->
  forall s c, rmatch (Star (Cls p)) s c k = k (drop_while p s) c.
Proof.
  intros K s c. cbn [rmatch].
  assert (G : forall n s c, (length s <= n)%nat ->
    (fix loop (n : nat) (s : str) (c : caps) {struct n} : option A :=
       match n with
       | O => k s c
       | S n' =>
           match
             match s with
             | a :: t =>
                 if p a
                 then (fun s1 c1 =>
                         if (length s1 <? length s)%nat then loop n' s1 c1
                         else None) t c
                 else None
             | [] => None
             end
           with
           | Some x => Some x
           | None => k s c
           end
       end) n s c = k (drop_while p s) c).
  { clear s c. induction n as [|n IH]; intros s c Len.
    - destruct s; [reflexivity | cbn in Len; lia].
    - destruct s as [|a t]; [reflexivity|].
      cbn [drop_while]. destruct (p a) eqn:Pa; [|reflexivity].
      replace (length t <? length (a :: t))%nat with true
        by (symmetry; apply Nat.ltb_lt; cbn; lia).
      rewrite IH by (cbn in Len; lia).
      destruct (k (drop_while p t) c) eqn:E; [reflexivity|].
      now apply K in E. }
  apply G. lia.
Qed.

Lemma length_take_drop_while (p : char -> bool) s :
  length s = (length (take_while p s) + length (drop_while p s))%nat.
Proof.
  induction s as [|a t IH]; [reflexivity|].
  cbn [take_while drop_while]. destruct (p a); cbn [length]; lia.
Qed.

Lemma match_at_spaces s :
  match_at re_spaces s false
  = match s with
    | a :: t => if isspace a then Some (drop_while isspace t, []) else None
    | [] => None
    end.
Proof.
  unfold match_at, re_spaces, plus. cbn [rmatch].
  destruct s as [|a t]; [reflexivity|].
  destruct (isspace a); [|reflexivity].
  change (rmatch (Star (Cls isspace)) t []
            (fun s' c => if false && (length s' =? length (a :: t))%nat
                         then None else Some (s', c))
          = Some (drop_while isspace t, [])).
  now rewrite rmatch_star_cls.
Qed.

(** The second substitution of [normalize_text] collapses the runs of
    blanks. *)
Lemma scan_spaces s :
  scan re_spaces cons (fun _ acc => u " " ++ acc) [] s 0
  = collapse_from s false
  /\ scan re_spaces cons (fun _ acc => u " " ++ acc) [] s
       (length (take_while isspace s))
     = collapse_from s true.
Proof.
  induction s as [|a t [IH0 IH1]].
  - cbn [scan collapse_from take_while length]. rewrite match_at_spaces.
    now split.
  - assert (H0 : scan re_spaces cons (fun _ acc => u " " ++ acc) [] (a :: t) 0
                 = collapse_from (a :: t) false).
    { cbn [scan collapse_from]. rewrite match_at_spaces.
      destruct (isspace a) eqn:Sa.
      - replace (length (a :: t) - length (drop_while isspace t))%nat
          with (S (length (take_while isspace t)))
          by (cbn [length]; rewrite (length_take_drop_while isspace t); lia).
        rewrite IH1. reflexivity.
      - now rewrite IH0. }
    split; [exact H0|].
    cbn [take_while]. destruct (isspace a) eqn:Sa.
    + cbn [length scan collapse_from]. rewrite Sa. exact IH1.
    + cbn [length]. rewrite H0. cbn [collapse_from]. now rewrite Sa.
Qed.

Lemma sub_spaces s : sub re_spaces (u " ") s = collapse_from s false.
Proof. apply scan_spaces. Qed.

(** The first substitution of [normalize_text] puts a space for every
    character that is neither a word character nor a blank. *)
Lemma sub_not_word_nor_space s :
  sub re_not_word_nor_space (u " ") s = blank_out s.
Proof.
  unfold sub, blank_out. induction s as [|a t IH].
  - reflexivity.
  - cbn [scan map]. unfold match_at at 1, re_not_word_nor_space at 1.
    cbn [rmatch]. destruct (negb (isword a || isspace a)).
    + cbn [andb]. replace (length (a :: t) - length t)%nat with 1%nat
        by (cbn [length]; lia).
      rewrite IH. reflexivity.
    + now rewrite IH.
Qed.

Lemma normalize_text_steps s :
  normalize_text s = strip (collapse_from (blank_out (str_lower s)) false).
Proof.
  unfold normalize_text. now rewrite sub_not_word_nor_space, sub_spaces.
Qed.

Lemma spaced_weaken s : spaced s true = true -> spaced s false = true.
Proof.
  destruct s as [|a t]; [reflexivity|]. cbn [spaced].
  destruct (isspace a); [discriminate | auto].
Qed.

Lemma collapse_spaced s : forall r, spaced (collapse_from s r) r = true.
Proof.
  induction s as [|a t IH]; intros r; cbn [collapse_from]; [reflexivity|].
  destruct (isspace a) eqn:Sa.
  - destruct r; [apply IH|].
    cbn [spaced]. rewrite isspace_space. cbn. apply IH.
  - cbn [spaced]. rewrite Sa. apply IH.
Qed.

Lemma spaced_head s : spaced s true = true -> drop_while isspace s = s.
Proof.
  destruct s as [|a t]; [reflexivity|]. cbn [spaced drop_while].
  destruct (isspace a); [discriminate | reflexivity].
Qed.

Lemma drop_while_spaced s :
  spaced s false = true -> spaced (drop_while isspace s) true = true.
Proof.
  destruct s as [|a t]; [reflexivity|]. cbn [spaced drop_while].
  destruct (isspace a) eqn:Sa.
  - cbn [negb andb]. intros [_ H]%andb_true_iff.
    now rewrite (spaced_head t H).
  - intros H. cbn [spaced]. now rewrite Sa.
Qed.

Lemma rstrip_norm_form s : forall p,
  spaced s p = true -> norm_form (rstrip s) p = true.
Proof.
  induction s as [|a t IH]; intros p; [reflexivity|].
  cbn [spaced rstrip]. destruct (isspace a) eqn:Sa.
  - intros [[Hp Ha]%andb_true_iff Ht]%andb_true_iff.
    specialize (IH true Ht).
    destruct (rstrip t) as [|b t'] eqn:R; [reflexivity|].
    cbn [norm_form]. rewrite Sa, Hp, Ha. exact IH.
  - intros Ht. specialize (IH false Ht).
    destruct (rstrip t) as [|b t'] eqn:R.
    + cbn [norm_form]. now rewrite Sa.
    + cbn [norm_form]. rewrite Sa. exact IH.
Qed.

Lemma forallb_drop_while (q p : char -> bool) s :
  forallb q s = true -> forallb q (drop_while p s) = true.
Proof.
  induction s as [|a t IH]; [reflexivity|]. cbn [drop_while].
  destruct (p a); [|auto]. cbn [forallb].
  intros [_ H]%andb_true_iff. auto.
Qed.

Lemma forallb_rstrip (q : char -> bool) s :
  forallb q s = true -> forallb q (rstrip s) = true.
Proof.
  induction s as [|a t IH]; [reflexivity|]. cbn [rstrip forallb].
  intros [Ha Ht]%andb_true_iff. specialize (IH Ht).
  destruct (rstrip t) as [|b t'].
  - destruct (isspace a); cbn [forallb]; [reflexivity|]. now rewrite Ha.
  - cbn [forallb] in *. now rewrite Ha.
Qed.

Lemma forallb_collapse (q : char -> bool) s :
  q 32 = true -> forallb q s = true ->
  forall r, forallb q (collapse_from s r) = true.
Proof.
  intros Q. induction s as [|a t IH]; [reflexivity|].
  cbn [forallb collapse_from]. intros [Ha Ht]%andb_true_iff r.
  destruct (isspace a); [destruct r|]; cbn [forallb];
    rewrite ?Q, ?Ha; cbn [andb]; apply IH; exact Ht.
Qed.

Lemma good_space : good_char 32 = true.
Proof.
  unfold good_char. rewrite space_stable, isspace_space.
  now rewrite orb_true_r.
Qed.

Lemma forallb_good_blank_out s :
  forallb lower_stable s = true -> forallb good_char (blank_out s) = true.
Proof.
  unfold blank_out.
  induction s as [|a t IH]; [reflexivity|]. cbn [forallb map].
  intros [Ha Ht]%andb_true_iff. rewrite (IH Ht), andb_true_r.
  destruct (isword a || isspace a) eqn:W; cbn [negb].
  - unfold good_char. now rewrite Ha, W.
  - apply good_space.
Qed.

(** The normal form of the result. *)
Lemma normalize_text_form s :
  forallb good_char (normalize_text s) = true
  /\ norm_form (normalize_text s) true = true.
Proof.
  rewrite normalize_text_steps. unfold strip. split.
  - apply forallb_rstrip, forallb_drop_while, forallb_collapse.
    + apply good_space.
    + apply forallb_good_blank_out, str_lower_stable.
  - apply rstrip_norm_form, drop_while_spaced, collapse_spaced.
Qed.

Lemma norm_form_weaken s : norm_form s true = true -> norm_form s false = true.
Proof.
  destruct s as [|a t]; [reflexivity|]. cbn [norm_form].
  destruct (isspace a); [discriminate | auto].
Qed.

Lemma norm_form_collapse s : forall p,
  norm_form s p = true -> collapse_from s p = s.
Proof.
  induction s as [|a t IH]; intros p; [reflexivity|].
  cbn [norm_form collapse_from]. destruct (isspace a).
  - intros [[[Hp Ha]%andb_true_iff _]%andb_true_iff Ht]%andb_true_iff.
    apply negb_true_iff in Hp. subst p. apply Z.eqb_eq in Ha. subst a.
    now rewrite (IH true Ht).
  - intros Ht. now rewrite (IH false Ht).
Qed.

Lemma norm_form_rstrip s : forall p, norm_form s p = true -> rstrip s = s.
Proof.
  induction s as [|a t IH]; intros p; [reflexivity|].
  cbn [norm_form rstrip]. destruct (isspace a).
  - intros [[_ Hne]%andb_true_iff Ht]%andb_true_iff.
    rewrite (IH true Ht). now destruct t.
  - intros Ht. rewrite (IH false Ht). now destruct t.
Qed.

Lemma norm_form_head s a t :
  norm_form s true = true -> s = a :: t -> isspace a = false.
Proof.
  intros H ->. cbn [norm_form] in H. now destruct (isspace a).
Qed.

Lemma norm_form_last pre a : forall p,
  norm_form (pre ++ [a]) p = true -> isspace a = false.
Proof.
  induction pre as [|b pre IH]; intros p; cbn [app norm_form].
  - destruct (isspace a); [|reflexivity].
    now rewrite andb_false_r.
  - destruct (isspace b).
    + intros [_ H]%andb_true_iff. now apply IH in H.
    + apply IH.
Qed.

Lemma norm_form_adjacent pre a b post : forall p,
  norm_form (pre ++ a :: b :: post) p = true ->
  isspace a = true -> isspace b = false.
Proof.
  induction pre as [|c pre IH]; intros p; cbn [app norm_form].
  - intros H Sa. rewrite Sa in H.
    apply andb_true_iff in H as [_ H].
    destruct (isspace b); [|reflexivity]. discriminate.
  - destruct (isspace c).
    + intros [_ H]%andb_true_iff. exact (IH true H).
    + apply IH.
Qed.

Lemma norm_form_blank s c : forall p,
  norm_form s p = true -> In c s -> isspace c = true -> c = 32.
Proof.
  induction s as [|a t IH]; intros p; cbn [norm_form In]; [contradiction|].
  destruct (isspace a) eqn:Sa.
  - intros [[[_ Ha]%andb_true_iff _]%andb_true_iff Ht]%andb_true_iff [<-|I] Sc.
    + now apply Z.eqb_eq in Ha.
    + now apply (IH true Ht).
  - intros Ht [<-|I] Sc; [congruence|]. now apply (IH false Ht).
Qed.

Lemma blank_out_id s :
  forallb good_char s = true -> blank_out s = s.
Proof.
  unfold blank_out.
  induction s as [|a t IH]; [reflexivity|]. cbn [forallb map].
  intros [Ha Ht]%andb_true_iff. rewrite (IH Ht).
  unfold good_char in Ha. apply andb_true_iff in Ha as [_ ->]. reflexivity.
Qed.

Lemma forallb_good_stable s :
  forallb good_char s = true -> forallb lower_stable s = true.
Proof.
  induction s as [|a t IH]; [reflexivity|]. cbn [forallb].
  intros [Ha Ht]%andb_true_iff. rewrite (IH Ht), andb_true_r.
  unfold good_char in Ha. now apply andb_true_iff in Ha.
Qed.

(** A text in normal form is left as it is. *)
Lemma normalize_text_fixed s :
  forallb good_char s = true -> norm_form s true = true ->
  normalize_text s = s.
Proof.
  intros G N. rewrite normalize_text_steps.
  rewrite (str_lower_fixed s) by now apply forallb_good_stable.
  rewrite (blank_out_id s G).
  rewrite (norm_form_collapse s false) by now apply norm_form_weaken.
  unfold strip.
  assert (drop_while isspace s = s) as ->.
  { destruct s as [|a t]; [reflexivity|]. cbn [drop_while].
    now rewrite (norm_form_head _ a t N eq_refl). }
  now apply (norm_form_rstrip s true).
Qed.

End Normalize.


(** * More of the selection loop

    What a run of [main] does to the state file, how many picks a batch
    has, and the order of the picks of a category. *)

Section SelectionMore.

Context `{U : PyUnicode} {X : Type}.
Variable search_products : str -> Z -> X -> pyresult (list Product) * X.
Variable generate_copy : Candidate -> X -> pyresult str * X.
Variable append_to_sheet : list Row -> X -> pyresult unit * X.
Variable write_output : Z -> list (Candidate * str) -> X -> pyresult unit * X.
Variable cta_line : str -> str.

Local Abbreviation scan_cats := (scan_categories search_products).
Local Abbreviation run :=
  (main search_products generate_copy append_to_sheet write_output cta_line).

Lemma take_picks_length n cands : forall picks,
  Z.of_nat (length picks) <= Z.max 0 n ->
  Z.of_nat (length (take_picks n cands picks)) <= Z.max 0 n.
Proof.
  induction cands as [|cand rest IH]; intros picks H; cbn [take_picks];
    [exact H|].
  destruct (n <=? Z.of_nat (length picks)) eqn:E; [exact H|].
  destruct (existsb _ picks); [now apply IH|].
  apply IH. rewrite length_app. cbn [length]. apply Z.leb_gt in E. lia.
Qed.

Lemma scan_categories_length cfg ids keys cats picks e picks' e' :
  Z.of_nat (length picks) <= Z.max 0 (per_day cfg) ->
  scan_cats cfg ids keys cats picks e = (Ok picks', e') ->
  Z.of_nat (length picks') <= Z.max 0 (per_day cfg).
Proof.
  apply (scan_categories_inv search_products
           (fun l => Z.of_nat (length l) <= Z.max 0 (per_day cfg))).
  intros pk cat results H. now apply take_picks_length.
Qed.

Lemma main_delivered_keys cfg e day picks e' :
  run cfg e = (Ok (Delivered day picks), e') ->
  forall c, In c picks ->
    (c_similarity_key c ∉ keys_of (store e))
    /\ (c_similarity_key c ∈ keys_of (store e')).
Proof.
  intros H c I.
  apply main_delivered in H as (st & e1 & S & _ & _ & Sc & _ & S').
  pose proof (scan_categories_filtered search_products generate_copy
                write_output cfg _ _ _ [] e picks e1 (List.Forall_nil _) Sc)
    as F.
  rewrite Forall_forall in F.
  destruct (F c) as (cat & p & Hc); [now apply list_elem_of_In|].
  apply make_candidate_inv in Hc as (_ & _ & _ & Hk & _ & _ & _ & Hn).
  rewrite Hk. split; [exact Hn|].
  rewrite S'. cbn [keys_of used_similarity_keys default from_option id].
  rewrite list_to_set_elements_L. apply elem_of_union_l.
  apply elem_of_list_to_set, list_elem_of_In, in_map_iff.
  exists c. split; [exact Hk | exact I].
Qed.

Lemma main_keys_grow cfg e r e' :
  run cfg e = (r, e') -> keys_of (store e) ⊆ keys_of (store e').
Proof.
  intros H. destruct r as [[|day picks]|x].
  - apply main_store_kept in H; [|discriminate]. now rewrite H.
  - apply main_delivered in H as (st & e1 & S & _ & _ & _ & _ & S').
    rewrite S'. cbn [keys_of used_similarity_keys default from_option id].
    rewrite list_to_set_elements_L. apply union_subseteq_r.
  - apply main_store_kept in H; [|discriminate]. now rewrite H.
Qed.

Lemma store_follows_keys s s' :
  store_follows search_products generate_copy append_to_sheet write_output
    cta_line s s' ->
  keys_of s ⊆ keys_of s'.
Proof.
  induction 1 as [|cfg e r e' _ IH H]; [reflexivity|].
  etransitivity; [exact IH|]. eapply main_keys_grow. exact H.
Qed.

End SelectionMore.

(** X1. A run of [main] that does not deliver a batch leaves the state
    file as it found it: whether the project is finished, too few products
    were found, or the harvester, the copy generator or the sink raised,
    nothing is recorded. *)
Theorem state_file_kept_unless_delivered (U : PyUnicode) (X : Type)
    (search_products : str -> Z -> X -> pyresult (list Product) * X)
    (generate_copy : Candidate -> X -> pyresult str * X)
    (append_to_sheet : list Row -> X -> pyresult unit * X)
    (write_output : Z -> list (Candidate * str) -> X -> pyresult unit * X)
    (cta_line : str -> str)
    (cfg : Config) (e e' : Env) (r : pyresult Report) :
  main search_products generate_copy append_to_sheet write_output cta_line
    cfg e = (r, e') ->
  (forall day picks, r <> Ok (Delivered day picks)) ->
  store e' = store e.
Proof. apply main_store_kept. Qed.

Lemma state_file_kept_unless_delivered_witness :
  store (snd (main (U := latin1) queue_search failing_copy quiet_sheet
                quiet_output no_cta (sample_config 1 100) first_day))
  = store first_day.
Proof.
  apply (state_file_kept_unless_delivered latin1 (list (list Product))
           queue_search failing_copy quiet_sheet quiet_output no_cta
           (sample_config 1 100) first_day
           (snd (main (U := latin1) queue_search failing_copy quiet_sheet
                   quiet_output no_cta (sample_config 1 100) first_day))
           (fst (main (U := latin1) queue_search failing_copy quiet_sheet
                   quiet_output no_cta (sample_config 1 100) first_day))).
  - apply surjective_pairing.
  - intros day picks. vm_compute. discriminate.
Defined.

(** X2. A run of [main] that delivers a batch read a state file, and
    rewrites it: the day is the day of the old file plus one and is not
    beyond [total_days]; the recorded identities are, without repeats, the
    old ones and the urls of the picks, and the recorded similarity keys
    are, without repeats, the old ones and the keys of the picks. *)
Theorem delivered_run_updates_state (U : PyUnicode) (X : Type)
    (search_products : str -> Z -> X -> pyresult (list Product) * X)
    (generate_copy : Candidate -> X -> pyresult str * X)
    (append_to_sheet : list Row -> X -> pyresult unit * X)
    (write_output : Z -> list (Candidate * str) -> X -> pyresult unit * X)
    (cta_line : str -> str)
    (cfg : Config) (e e' : Env) (day : Z) (picks : list Candidate) :
  main search_products generate_copy append_to_sheet write_output cta_line
    cfg e = (Ok (Delivered day picks), e') ->
  exists st ids keys,
    store e = Some st
    /\ store e' = Some {| day_index := Some day;
                          used_product_ids := Some ids;
                          used_similarity_keys := Some keys |}
    /\ day = default 0 (day_index st) + 1
    /\ day <= total_days cfg
    /\ List.NoDup ids /\ List.NoDup keys
    /\ (forall i, In i ids <->
          In i (default [] (used_product_ids st))
          \/ exists c, In c picks /\ i = url (c_product c))
    /\ (forall k, In k keys <->
          In k (default [] (used_similarity_keys st))
          \/ exists c, In c picks /\ k = c_similarity_key c).
Proof.
  intros H.
  pose proof (main_delivered_fresh _ _ _ _ _ _ _ _ _ _ H) as Fr.
  apply main_delivered in H as (st & e1 & S & D & T & _ & _ & S').
  rewrite S in S'. cbn [ids_of keys_of] in S'.
  eexists st, _, _. split; [exact S|]. split; [exact S'|].
  split; [exact D|]. split; [exact T|].
  split; [apply NoDup_ListNoDup, NoDup_elements|].
  split; [apply NoDup_ListNoDup, NoDup_elements|].
  split.
  - intros i. rewrite <- !list_elem_of_In, elem_of_elements, elem_of_union,
      !elem_of_list_to_set, !list_elem_of_In, in_map_iff.
    split.
    + intros [(c & <- & I)|O]; [right | now left].
      exists c. split; [exact I|]. now destruct (Fr c I) as [-> _].
    + intros [O|(c & I & ->)]; [now right | left].
      exists c. split; [|exact I]. now destruct (Fr c I) as [-> _].
  - intros k. rewrite <- !list_elem_of_In, elem_of_elements, elem_of_union,
      !elem_of_list_to_set, !list_elem_of_In, in_map_iff.
    split.
    + intros [(c & <- & I)|O]; [right | now left]. now exists c.
    + intros [O|(c & I & ->)]; [now right | left]. now exists c.
Qed.

(** X3. A delivered batch has exactly [per_day] picks, none when
    [per_day] is not positive. *)
Theorem delivered_batch_has_per_day_picks (U : PyUnicode) (X : Type)
    (search_products : str -> Z -> X -> pyresult (list Product) * X)
    (generate_copy : Candidate -> X -> pyresult str * X)
    (append_to_sheet : list Row -> X -> pyresult unit * X)
    (write_output : Z -> list (Candidate * str) -> X -> pyresult unit * X)
    (cta_line : str -> str)
    (cfg : Config) (e e' : Env) (day : Z) (picks : list Candidate) :
  main search_products generate_copy append_to_sheet write_output cta_line
    cfg e = (Ok (Delivered day picks), e') ->
  Z.of_nat (length picks) = Z.max 0 (per_day cfg).
Proof.
  intros H. apply main_delivered in H as (st & e1 & _ & _ & _ & Sc & P & _).
  apply scan_categories_length in Sc; [|cbn; lia]. lia.
Qed.

Lemma delivered_run_updates_state_witness :
  exists st ids keys,
    store first_day = Some st
    /\ store (snd (sample_run (sample_config 2 100) first_day))
       = Some {| day_index := Some 1;
                 used_product_ids := Some ids;
                 used_similarity_keys := Some keys |}
    /\ 1 = default 0 (day_index st) + 1
    /\ 1 <= total_days (sample_config 2 100)
    /\ List.NoDup ids /\ List.NoDup keys
    /\ (forall i, In i ids <->
          In i (default [] (used_product_ids st))
          \/ exists c,
               In c (picks_of (sample_run (sample_config 2 100) first_day))
               /\ i = url (c_product c))
    /\ (forall k, In k keys <->
          In k (default [] (used_similarity_keys st))
          \/ exists c,
               In c (picks_of (sample_run (sample_config 2 100) first_day))
               /\ k = c_similarity_key c).
Proof.
  apply (delivered_run_updates_state latin1 (list (list Product)) queue_search
           fixed_copy quiet_sheet quiet_output no_cta (sample_config 2 100)
           first_day (snd (sample_run (sample_config 2 100) first_day)) 1
           (picks_of (sample_run (sample_config 2 100) first_day))).
  vm_compute. reflexivity.
Defined.

Lemma delivered_batch_has_per_day_picks_witness :
  Z.of_nat (length (picks_of (sample_run (sample_config 2 100) first_day)))
  = Z.max 0 (per_day (sample_config 2 100)).
Proof.
  apply (delivered_batch_has_per_day_picks latin1 (list (list Product))
           queue_search fixed_copy quiet_sheet quiet_output no_cta
           (sample_config 2 100) first_day
           (snd (sample_run (sample_config 2 100) first_day)) 1
           (picks_of (sample_run (sample_config 2 100) first_day))).
  vm_compute. reflexivity.
Defined.

(** X4. Across runs that follow one another on the same state file, no
    similarity key is picked twice: the keys of a delivered batch are in
    the state file it leaves, and a later delivered batch has none of
    them. *)
Theorem no_key_picked_twice (U : PyUnicode) (X : Type)
    (search_products : str -> Z -> X -> pyresult (list Product) * X)
    (generate_copy : Candidate -> X -> pyresult str * X)
    (append_to_sheet : list Row -> X -> pyresult unit * X)
    (write_output : Z -> list (Candidate * str) -> X -> pyresult unit * X)
    (cta_line : str -> str)
    (cfg1 cfg2 : Config) (e0 e1 e2 e3 : Env) (d1 d2 : Z)
    (picks1 picks2 : list Candidate) :
  main search_products generate_copy append_to_sheet write_output cta_line
    cfg1 e0 = (Ok (Delivered d1 picks1), e1) ->
  store_follows search_products generate_copy append_to_sheet write_output
    cta_line (store e1) (store e2) ->
  main search_products generate_copy append_to_sheet write_output cta_line
    cfg2 e2 = (Ok (Delivered d2 picks2), e3) ->
  (forall c, In c picks1 -> c_similarity_key c ∈ keys_of (store e1))
  /\ (forall c1 c2, In c1 picks1 -> In c2 picks2 ->
        c_similarity_key c1 <> c_similarity_key c2).
Proof.
  intros R1 F R2. split.
  - intros c I. now eapply main_delivered_keys in R1 as (_ & In1); [|exact I].
  - intros c1 c2 I1 I2 E.
    eapply main_delivered_keys in R1 as (_ & In1); [|exact I1].
    eapply main_delivered_keys in R2 as (Out2 & _); [|exact I2].
    apply Out2. rewrite <- E.
    eapply store_follows_keys; [exact F | exact In1].
Qed.

Lemma no_key_picked_twice_witness :
  (forall c, In c (picks_of (sample_run (sample_config 1 100) first_day)) ->
     c_similarity_key c
     ∈ keys_of (store (snd (sample_run (sample_config 1 100) first_day))))
  /\ (forall c1 c2,
        In c1 (picks_of (sample_run (sample_config 1 100) first_day)) ->
        In c2 (picks_of (sample_run (sample_config 1 100)
                           (next_day (sample_run (sample_config 1 100)
                                        first_day)))) ->
        c_similarity_key c1 <> c_similarity_key c2).
Proof.
  apply (no_key_picked_twice latin1 (list (list Product)) queue_search
           fixed_copy quiet_sheet quiet_output no_cta
           (sample_config 1 100) (sample_config 1 100)
           first_day
           (snd (sample_run (sample_config 1 100) first_day))
           (next_day (sample_run (sample_config 1 100) first_day))
           (snd (sample_run (sample_config 1 100)
                   (next_day (sample_run (sample_config 1 100) first_day))))
           1 2).
  - vm_compute. reflexivity.
  - apply follows_now.
  - vm_compute. reflexivity.
Defined.

(** X5. When the day after the one of the state file is beyond
    [total_days], [main] reports the project finished and touches nothing:
    neither the state file nor the world outside; and it reports the
    project finished in this case only. *)
Theorem finished_project_does_nothing (U : PyUnicode) (X : Type)
    (search_products : str -> Z -> X -> pyresult (list Product) * X)
    (generate_copy : Candidate -> X -> pyresult str * X)
    (append_to_sheet : list Row -> X -> pyresult unit * X)
    (write_output : Z -> list (Candidate * str) -> X -> pyresult unit * X)
    (cta_line : str -> str) (cfg : Config) (e : Env) :
  (forall st, store e = Some st ->
     total_days cfg < default 0 (day_index st) + 1 ->
     main search_products generate_copy append_to_sheet write_output cta_line
       cfg e = (Ok ProjectFinished, e))
  /\ (forall e',
        main search_products generate_copy append_to_sheet write_output
          cta_line cfg e = (Ok ProjectFinished, e') ->
        e' = e
        /\ exists st, store e = Some st
                      /\ total_days cfg < default 0 (day_index st) + 1).
Proof.
  split.
  - intros st S T. unfold main, bind, load_state. rewrite S.
    apply Z.ltb_lt in T. now rewrite T.
  - intros e'. unfold main, bind at 1, load_state.
    destruct (store e) as [st|] eqn:S; [|discriminate].
    destruct (total_days cfg <? default 0 (day_index st) + 1) eqn:T.
    + unfold ret. intros [= <-]. split; [reflexivity|].
      exists st. split; [reflexivity | now apply Z.ltb_lt].
    + unfold bind at 1.
      destruct (scan_categories _ _ _ _ _ _ e) as [[pk|x] e1]; [|discriminate].
      destruct (Z.of_nat (length pk) <? per_day cfg); [discriminate|].
      unfold bind at 1.
      destruct (write_picks _ _ _ _ _ _ _ _ _ e1)
        as [[[[[rows outs] ids'] keys']|x] e2]; [|discriminate].
      unfold bind at 1.
      destruct ((if USE_SHEETS cfg then call (append_to_sheet rows)
                 else call (write_output (default 0 (day_index st) + 1) outs))
                  e2) as [[[]|x] e3]; [|discriminate].
      unfold bind, save_state, ret. discriminate.
Qed.

Lemma insert_desc_elem x c l :
  In x (insert_desc c l) <-> x = c \/ In x l.
Proof.
  induction l as [|d l IH]; cbn [insert_desc].
  - cbn. intuition.
  - destruct (sold_key c <? sold_key d); cbn [In]; [rewrite IH|];
      intuition.
Qed.

Lemma sort_desc_elem x l : In x (sort_desc l) <-> In x l.
Proof.
  induction l as [|c l IH]; cbn [sort_desc]; [reflexivity|].
  rewrite insert_desc_elem, IH. cbn. intuition.
Qed.

Lemma insert_desc_sorted c l :
  StronglySorted (fun a b => sold_key b <= sold_key a) l ->
  StronglySorted (fun a b => sold_key b <= sold_key a) (insert_desc c l).
Proof.
  induction 1 as [|d l S IH F]; cbn [insert_desc].
  - repeat constructor.
  - destruct (sold_key c <? sold_key d) eqn:E.
    + apply Z.ltb_lt in E. constructor; [exact IH|].
      apply Forall_forall. intros x Hx.
      apply list_elem_of_In, insert_desc_elem in Hx as [->|Hx]; [lia|].
      rewrite Forall_forall in F. apply F. now apply list_elem_of_In.
    + apply Z.ltb_ge in E. constructor; [now constructor|].
      constructor; [exact E|].
      eapply Forall_impl; [exact F|]. cbn. intros x Hx. lia.
Qed.

Lemma sort_desc_sorted l :
  StronglySorted (fun a b => sold_key b <= sold_key a) (sort_desc l).
Proof.
  induction l as [|c l IH]; cbn [sort_desc]; [constructor|].
  now apply insert_desc_sorted.
Qed.

Lemma take_picks_sorted n cands : forall picks,
  StronglySorted (fun a b => sold_key b <= sold_key a) (picks ++ cands) ->
  StronglySorted (fun a b => sold_key b <= sold_key a)
    (take_picks n cands picks).
Proof.
  induction cands as [|cand rest IH]; intros picks S; cbn [take_picks].
  - now rewrite app_nil_r in S.
  - destruct (n <=? Z.of_nat (length picks)).
    + now apply StronglySorted_app in S as (_ & S1 & _).
    + destruct (existsb _ picks).
      * apply IH. apply StronglySorted_app in S as (H & S1 & S2).
        apply StronglySorted_app. split; [|split].
        -- intros x1 x2 H1 H2. apply H; [exact H1 | now right].
        -- exact S1.
        -- now inversion S2.
      * apply IH. now rewrite <- app_assoc.
Qed.

(** X6. The picks taken from the candidates of one category into an
    empty batch are in decreasing order of their sold count; when at
    least one pick is wanted and there is a candidate, the first pick is a
    candidate that no candidate outsells. *)
Theorem picks_of_a_category_are_ranked (n : Z) (cands : list Candidate) :
  StronglySorted (fun a b => sold_key b <= sold_key a)
    (take_picks n (sort_desc cands) [])
  /\ (1 <= n -> cands <> [] ->
      exists c rest,
        take_picks n (sort_desc cands) [] = c :: rest
        /\ In c cands
        /\ forall d, In d cands -> sold_key d <= sold_key c).
Proof.
  split; [apply take_picks_sorted, sort_desc_sorted|].
  intros N Ne. pose proof (sort_desc_sorted cands) as S.
  destruct (sort_desc cands) as [|c l] eqn:E.
  - destruct cands as [|d ds]; [congruence|].
    assert (In d (sort_desc (d :: ds))) as I by (apply sort_desc_elem; now left).
    rewrite E in I. contradiction.
  - cbn [take_picks length existsb].
    replace (n <=? Z.of_nat 0) with false by (symmetry; apply Z.leb_gt; lia).
    cbn [app].
    assert (P : forall l0 picks, exists more,
               take_picks n l0 picks = picks ++ more).
    { induction l0 as [|a l0 IH]; intros picks; cbn [take_picks].
      - exists []. now rewrite app_nil_r.
      - destruct (n <=? Z.of_nat (length picks));
          [exists []; now rewrite app_nil_r|].
        destruct (existsb _ picks); [apply IH|].
        destruct (IH (picks ++ [a])) as [more ->].
        exists (a :: more). now rewrite <- app_assoc. }
    destruct (P l [c]) as [more ->]. exists c, more.
    split; [reflexivity|]. split.
    + apply sort_desc_elem. rewrite E. now left.
    + intros d Hd. apply sort_desc_elem in Hd. rewrite E in Hd.
      destruct Hd as [->|Hd]; [lia|].
      inversion S as [|? ? _ F]; subst. rewrite Forall_forall in F.
      apply F. now apply list_elem_of_In.
Qed.

(** X20. One batch can hold the same url twice.  The identities in the
    state file are not extended while a run selects, and the similarity
    key of a candidate starts with its category: when the searches of two
    different categories both find one product that passes the filter, and
    two products are wanted, a delivered batch is that product twice, once
    for each category. *)
Theorem one_batch_can_repeat_a_url (U : PyUnicode) (X : Type)
    (search_products : str -> Z -> X -> pyresult (list Product) * X)
    (generate_copy : Candidate -> X -> pyresult str * X)
    (append_to_sheet : list Row -> X -> pyresult unit * X)
    (write_output : Z -> list (Candidate * str) -> X -> pyresult unit * X)
    (cta_line : str -> str)
    (cfg : Config) (e e' : Env) (cat1 cat2 : str) (p : Product)
    (c1 c2 : Candidate) (x1 x2 : X) (day : Z) (picks : list Candidate) :
  categories cfg = [cat1; cat2] -> cat1 <> cat2 -> per_day cfg = 2 ->
  search_products (cat1 ++ u " shopee") 50 (outside e) = (Ok [p], x1) ->
  search_products (cat2 ++ u " shopee") 50 x1 = (Ok [p], x2) ->
  make_candidate cfg (ids_of (store e)) (keys_of (store e)) cat1 p = Some c1 ->
  make_candidate cfg (ids_of (store e)) (keys_of (store e)) cat2 p = Some c2 ->
  main search_products generate_copy append_to_sheet write_output cta_line
    cfg e = (Ok (Delivered day picks), e') ->
  picks = [c1; c2]
  /\ url (c_product c1) = url p /\ url (c_product c2) = url p
  /\ c_category c1 = cat1 /\ c_category c2 = cat2.
Proof.
  intros Cs Ne Pd S1 S2 M1 M2 H.
  apply main_delivered in H as (st & e1 & _ & _ & _ & Sc & _ & _).
  pose proof (make_candidate_inv _ _ _ _ _ _ M1) as (P1 & C1 & _ & K1 & _).
  pose proof (make_candidate_inv _ _ _ _ _ _ M2) as (P2 & C2 & _ & K2 & _).
  assert (Kd : c_similarity_key c1 <> c_similarity_key c2).
  { rewrite K1, K2. unfold similarity_key. intros E.
    apply app_inv_tail in E. contradiction. }
  rewrite P1, P2. split; [|auto].
  assert (T2 : take_picks 2 [c2] [c1] = [c1; c2]).
  { cbn [take_picks length existsb orb].
    change (2 <=? Z.of_nat 1) with false. cbv iota.
    unfold str_eqb. rewrite bool_decide_eq_false_2 by exact Kd.
    reflexivity. }
  assert (F : scan_categories search_products cfg (ids_of (store e))
                (keys_of (store e)) [cat1; cat2] [] e
              = (Ok [c1; c2], {| store := store e; outside := x2 |})).
  { cbn [scan_categories]. rewrite Pd.
    change (2 <=? Z.of_nat (length (@nil Candidate))) with false. cbv iota.
    unfold bind at 1, call at 1. rewrite S1.
    change (omap (make_candidate cfg (ids_of (store e)) (keys_of (store e))
                    cat1) [p])
      with (match make_candidate cfg (ids_of (store e)) (keys_of (store e))
                    cat1 p with
            | Some c => [c]
            | None => []
            end).
    rewrite M1.
    change (take_picks 2 (sort_desc [c1]) []) with [c1].
    change (2 <=? Z.of_nat (length [c1])) with false. cbv iota.
    unfold bind at 1, call at 1. cbn [outside store]. rewrite S2.
    change (omap (make_candidate cfg (ids_of (store e)) (keys_of (store e))
                    cat2) [p])
      with (match make_candidate cfg (ids_of (store e)) (keys_of (store e))
                    cat2 p with
            | Some c => [c]
            | None => []
            end).
    rewrite M2. change (sort_desc [c2]) with [c2]. rewrite T2.
    reflexivity. }
  rewrite Cs, F in Sc. congruence.
Qed.

Lemma one_batch_can_repeat_a_url_witness :
  picks_of same_product_run = [coleira_in (u "Pets"); coleira_in (u "Casa")]
  /\ url (c_product (coleira_in (u "Pets"))) = url coleira
  /\ url (c_product (coleira_in (u "Casa"))) = url coleira
  /\ c_category (coleira_in (u "Pets")) = u "Pets"
  /\ c_category (coleira_in (u "Casa")) = u "Casa".
Proof.
  apply (one_batch_can_repeat_a_url latin1 (list (list Product)) queue_search
           fixed_copy quiet_sheet quiet_output no_cta two_category_config
           same_product_day (snd same_product_run) (u "Pets") (u "Casa")
           coleira (coleira_in (u "Pets")) (coleira_in (u "Casa"))
           [[coleira]] [] 1 (picks_of same_product_run));
    [reflexivity | discriminate | reflexivity | reflexivity | reflexivity
    | vm_compute; reflexivity | vm_compute; reflexivity
    | vm_compute; reflexivity].
Defined.

(** * More of the matcher: it finds every match *)

Lemma rmatch_star {A} r s c (k : str -> caps -> option A) :
  rmatch (Star r) s c k = star_loop r k (length s) s c.
Proof. reflexivity. Qed.

Lemma rmatch_eol {A} s c (k : str -> caps -> option A) :
  rmatch Eol s c k = if bool_decide (s = [] \/ s = [10]) then k s c else None.
Proof.
  cbn [rmatch]. destruct s as [|x [|y t]].
  - rewrite bool_decide_eq_true_2; [reflexivity | now left].
  - destruct (decide (x = 10)) as [->|N].
    + rewrite bool_decide_eq_true_2; [reflexivity | now right].
    + rewrite bool_decide_eq_false_2 by (intros [?|?]; congruence).
      destruct x as [|p|p]; try reflexivity.
      do 4 (destruct p as [p|p|]; try reflexivity). congruence.
  - rewrite bool_decide_eq_false_2 by (intros [?|?]; congruence).
    destruct x as [|p|p]; try reflexivity.
    do 4 (destruct p as [p|p|]; try reflexivity).
Qed.

Lemma rmatch_ext {A} r : forall s c (k1 k2 : str -> caps -> option A),
  (forall s' c', k1 s' c' = k2 s' c') -> rmatch r s c k1 = rmatch r s c k2.
Proof.
  induction r as [|p|r1 IH1 r2 IH2|r1 IH1 r2 IH2|r IH|i r IH|];
    intros s c k1 k2 E.
  - apply E.
  - cbn [rmatch]. destruct s as [|a t]; [reflexivity|].
    destruct (p a); [apply E | reflexivity].
  - cbn [rmatch]. apply IH1. intros s1 c1. now apply IH2.
  - cbn [rmatch]. rewrite (IH1 s c k1 k2 E), (IH2 s c k1 k2 E). reflexivity.
  - rewrite !rmatch_star. generalize (length s). intros n. revert s c.
    induction n as [|n IHn]; intros s c; cbn [star_loop]; [apply E|].
    rewrite E.
    rewrite (IH s c _ (fun s1 c1 =>
               if (length s1 <? length s)%nat then star_loop r k2 n s1 c1
               else None)); [reflexivity|].
    intros s1 c1. destruct (length s1 <? length s)%nat; [apply IHn | reflexivity].
  - cbn [rmatch]. apply IH. intros s1 c1. apply E.
  - rewrite !rmatch_eol. destruct (bool_decide _); [apply E | reflexivity].
Qed.

Lemma rmatch_none {A} r : forall s c (k : str -> caps -> option A),
  (forall s' c', k s' c' = None) -> rmatch r s c k = None.
Proof.
  induction r as [|p|r1 IH1 r2 IH2|r1 IH1 r2 IH2|r IH|i r IH|];
    intros s c k E.
  - apply E.
  - cbn [rmatch]. destruct s as [|a t]; [reflexivity|].
    destruct (p a); [apply E | reflexivity].
  - cbn [rmatch]. apply IH1. intros s1 c1. now apply IH2.
  - cbn [rmatch]. now rewrite IH1, IH2.
  - rewrite rmatch_star. generalize (length s). intros n. revert s c.
    induction n as [|n IHn]; intros s c; cbn [star_loop]; [apply E|].
    rewrite IH; [apply E|].
    intros s1 c1. destruct (length s1 <? length s)%nat; [apply IHn | reflexivity].
  - cbn [rmatch]. apply IH. intros s1 c1. apply E.
  - rewrite rmatch_eol. destruct (bool_decide _); [apply E | reflexivity].
Qed.

(** More fuel than the length of the subject changes nothing. *)
Lemma star_loop_fuel {A} r (k : str -> caps -> option A) : forall n m s c,
  (length s <= n)%nat -> (length s <= m)%nat ->
  star_loop r k n s c = star_loop r k m s c.
Proof.
  induction n as [|n IHn]; intros m s c Hn Hm.
  - destruct s; [|cbn in Hn; lia].
    destruct m as [|m]; [reflexivity|]. cbn [star_loop].
    rewrite rmatch_none; [reflexivity|].
    intros s1 c1. cbn [length].
    now destruct (length s1 <? 0)%nat eqn:E; [apply Nat.ltb_lt in E; lia|].
  - destruct m as [|m].
    + destruct s; [|cbn in Hm; lia]. cbn [star_loop].
      rewrite rmatch_none; [reflexivity|].
      intros s1 c1. cbn [length].
      now destruct (length s1 <? 0)%nat eqn:E; [apply Nat.ltb_lt in E; lia|].
    + cbn [star_loop].
      rewrite (rmatch_ext r s c _
                 (fun s1 c1 =>
                    if (length s1 <? length s)%nat then star_loop r k m s1 c1
                    else None)); [reflexivity|].
      intros s1 c1. destruct (length s1 <? length s)%nat eqn:E; [|reflexivity].
      apply Nat.ltb_lt in E. apply IHn; lia.
Qed.

(** The matcher finds a match whenever there is one that the continuation
    accepts. *)
Lemma rmatch_complete {A} r s s' c c' :
  Matches r s s' c c' ->
  forall k : str -> caps -> option A,
    k s' c' <> None -> rmatch r s c k <> None.
Proof.
  induction 1 as [s c|p a t c Pa|r1 r2 s s1 s2 c c1 c2 _ IH1 _ IH2
                 |r1 r2 s s' c c' _ IH|r1 r2 s s' c c' _ IH|r s c
                 |r s s1 s2 c c1 c2 _ IH1 Len _ IH2|i r s s' c c' _ IH
                 |s c E]; intros k K.
  - exact K.
  - cbn [rmatch]. now rewrite Pa.
  - cbn [rmatch]. apply IH1. now apply IH2.
  - cbn [rmatch]. specialize (IH k K).
    now destruct (rmatch r1 s c k).
  - cbn [rmatch]. destruct (rmatch r1 s c k); [discriminate|]. now apply IH.
  - rewrite rmatch_star. destruct (length s); cbn [star_loop]; [exact K|].
    now destruct (rmatch r s c _).
  - rewrite rmatch_star.
    destruct (length s) as [|n] eqn:E; [lia|]. cbn [star_loop].
    match goal with
    | |- match ?e with _ => _ end <> None =>
        assert (N : e <> None); [|now destruct e]
    end.
    apply IH1. rewrite E.
    replace (length s1 <? S n)%nat with true
      by (symmetry; apply Nat.ltb_lt; lia).
    rewrite (star_loop_fuel r k n (length s1) s1 c1) by lia.
    rewrite <- rmatch_star. now apply IH2.
  - cbn [rmatch]. now apply IH.
  - rewrite rmatch_eol. now rewrite bool_decide_eq_true_2.
Qed.

Lemma match_at_complete r s rest c :
  Matches r s rest [] c -> match_at r s false <> None.
Proof.
  intros M. unfold match_at. apply (rmatch_complete r s rest [] c M).
  discriminate.
Qed.

Lemma finditer_complete r pre s rest c :
  Matches r s rest [] c -> finditer r (pre ++ s) <> [].
Proof.
  intros M. unfold finditer. induction pre as [|a pre IH].
  - cbn [app]. pose proof (match_at_complete r s rest c M) as N.
    destruct s as [|a t]; cbn [scan];
      destruct (match_at r _ false) as [[rest' c']|]; try congruence;
      destruct (_ - _)%nat; discriminate.
  - cbn [app scan].
    destruct (match_at r (a :: pre ++ s) false) as [[rest' c']|];
      [destruct (_ - _)%nat; discriminate | exact IH].
Qed.

Lemma search_complete r pre s rest c :
  Matches r s rest [] c -> exists m, search r (pre ++ s) = Some m.
Proof.
  intros M. unfold search.
  pose proof (finditer_complete r pre s rest c M).
  destruct (finditer r (pre ++ s)) as [|m l]; [congruence|]. now exists m.
Qed.

Lemma Matches_star_run (p : char -> bool) w s c :
  forallb p w = true -> Matches (Star (Cls p)) (w ++ s) s c c.
Proof.
  induction w as [|a w IH]; cbn [forallb app]; [constructor|].
  intros [Pa Pw]%andb_true_iff.
  apply (M_star_S (Cls p) (a :: w ++ s) (w ++ s) s c c c).
  - now constructor.
  - cbn [length]. lia.
  - now apply IH.
Qed.

Lemma Matches_lits_text w s c : Matches (lits w) (w ++ s) s c c.
Proof.
  induction w as [|a [|b w'] IH].
  - constructor.
  - cbn [lits app]. constructor. apply Z.eqb_refl.
  - change (lits (a :: b :: w')) with (Seq (lit a) (lits (b :: w'))).
    apply (M_seq _ _ _ ((b :: w') ++ s) _ _ c); [|exact IH].
    constructor. apply Z.eqb_refl.
Qed.

(** * More of the harvester and of the field extractor *)

Section HarvesterMore.

Context `{U : PyUnicode} {X : Type}.
Variable get_search_anchors : str -> X -> pyresult (list (str * str)) * X.
Variable get_page : str -> X -> pyresult Page * X.
Variable sleep : X -> pyresult unit * X.

Lemma details_result link x :
  match get_page link x with
  | (Ok pg, x') =>
      exists p, shopee_product_details get_page link x = (Ok p, x')
                /\ product_of_page link pg = Ok p /\ url p = link
  | (Raise e, x') => shopee_product_details get_page link x = (Raise e, x')
  end.
Proof.
  unfold shopee_product_details.
  destruct (get_page link x) as [[pg|e] x']; [|reflexivity].
  destruct (product_of_page_fields link pg) as (p & -> & Hu & _).
  now exists p.
Qed.

Lemma fetch_details_urls urls : forall out x r x',
  fetch_details get_page sleep urls out x = (Ok r, x') ->
  exists ps, r = out ++ ps /\ sublist (map url ps) urls.
Proof.
  induction urls as [|a rest IH]; intros out x r x'; cbn [fetch_details].
  - intros [= <- <-]. exists []. rewrite app_nil_r. split; [reflexivity|].
    constructor.
  - pose proof (details_result a x) as D.
    destruct (get_page a x) as [[pg|e] x1].
    + destruct D as (p & -> & _ & Hu).
      destruct (sleep x1) as [[[]|e] x2]; [|discriminate]. intros H.
      apply IH in H as (ps & -> & S). exists (p :: ps).
      rewrite <- app_assoc. split; [reflexivity|].
      cbn [map]. rewrite Hu. now apply sublist_skip.
    + rewrite D. destruct (is_Exception e); [|discriminate]. intros H.
      apply IH in H as (ps & -> & S).
      exists ps. split; [reflexivity|]. now apply sublist_cons.
Qed.

(** The loop over the urls raises only what a request raised, and then
    only outside [Exception], or what a pause raised. *)
Lemma fetch_details_raises urls : forall out x e x',
  fetch_details get_page sleep urls out x = (Raise e, x') ->
  (is_Exception e = false
   /\ exists link x0, In link urls /\ get_page link x0 = (Raise e, x'))
  \/ exists x0, sleep x0 = (Raise e, x').
Proof.
  induction urls as [|a rest IH]; intros out x e x'; cbn [fetch_details];
    [discriminate|].
  pose proof (details_result a x) as D.
  destruct (get_page a x) as [[pg|e1] x1] eqn:G.
  - destruct D as (p & -> & _).
    destruct (sleep x1) as [[[]|e2] x2] eqn:P.
    + intros H. apply IH in H as [(N & link & x0 & I & R)|H]; [left|now right].
      split; [exact N|]. exists link, x0. split; [now right | exact R].
    + intros [= <- <-]. right. now exists x1.
  - rewrite D. destruct (is_Exception e1) eqn:E.
    + intros H. apply IH in H as [(N & link & x0 & I & R)|H]; [left|now right].
      split; [exact N|]. exists link, x0. split; [now right | exact R].
    + intros [= <- <-]. left. split; [exact E|]. exists a, x.
      split; [now left | exact G].
Qed.

Lemma dedup_urls_inv limit items : forall seen urls,
  NoDup urls -> (forall a, a ∈ urls -> a ∈ seen) ->
  Z.of_nat (length urls) < Z.max limit 1 ->
  NoDup (dedup_urls limit items seen urls)
  /\ (forall a, a ∈ dedup_urls limit items seen urls ->
        a ∈ urls \/ a ∈ items)
  /\ Z.of_nat (length (dedup_urls limit items seen urls)) <= Z.max limit 1.
Proof.
  induction items as [|it rest IH]; intros seen urls N S B;
    cbn [dedup_urls].
  - split; [exact N|]. split; [auto | lia].
  - destruct (decide (it ∈ seen)) as [I|I].
    + destruct (IH seen urls N S B) as (N' & M' & B').
      split; [exact N'|]. split; [|exact B'].
      intros a Ha. destruct (M' a Ha); [now left | right; now right].
    + assert (N1 : NoDup (urls ++ [it])).
      { apply NoDup_app. split; [exact N|]. split; [|apply NoDup_singleton].
        intros a Ha ->%list_elem_of_singleton. apply I, S, Ha. }
      assert (L1 : Z.of_nat (length (urls ++ [it]))
                   = Z.of_nat (length urls) + 1)
        by (rewrite length_app; cbn [length]; lia).
      destruct (limit <=? Z.of_nat (length (urls ++ [it]))) eqn:E.
      * split; [exact N1|]. split; [|lia].
        intros a [Ha| ->%list_elem_of_singleton]%elem_of_app;
          [now left | right; left].
      * apply Z.leb_gt in E.
        destruct (IH ({[it]} ∪ seen) (urls ++ [it]) N1) as (N' & M' & B').
        { intros a [Ha| ->%list_elem_of_singleton]%elem_of_app.
          - apply elem_of_union. right. now apply S.
          - apply elem_of_union. left. now apply elem_of_singleton. }
        { lia. }
        split; [exact N'|]. split; [|exact B'].
        intros a Ha.
        destruct (M' a Ha) as [[H| ->%list_elem_of_singleton]%elem_of_app|H];
          [now left | right; left | right; now right].
Qed.

Lemma before_first_without sep s : ~ In sep (before_first sep s).
Proof.
  induction s as [|a t IH]; cbn [before_first]; [tauto|].
  destruct (a =? sep) eqn:E; [cbn; tauto|].
  apply Z.eqb_neq in E. cbn [In]. tauto.
Qed.

(** X7. [shopee_search] raises what the request for the result page
    raises. Once the result page is there, the requests for the product
    pages run under [except Exception] and the pauses outside it: what
    [shopee_search] raises then was raised by the request for one of the
    product pages and is no [Exception] (a [KeyboardInterrupt], a
    [SystemExit]), or was raised by a pause. It returns a list when every
    exception of those requests is an [Exception] and no pause raises. An
    exception of the request for the first product page that is no
    [Exception] is raised by [shopee_search], and so is an exception of the
    pause after the first product page. *)
Theorem search_raises_only_what_its_calls_raise (query : str) (limit : Z)
    (x : X) :
  match get_search_anchors query x with
  | (Raise e, x') =>
      shopee_search get_search_anchors get_page sleep query limit x
      = (Raise e, x')
  | (Ok anchors, x1) =>
      (forall e x',
         shopee_search get_search_anchors get_page sleep query limit x
         = (Raise e, x') ->
         (is_Exception e = false
          /\ exists link x0,
               In link (dedup_urls limit (omap product_link anchors) ∅ [])
               /\ get_page link x0 = (Raise e, x'))
         \/ exists x0, sleep x0 = (Raise e, x'))
      /\ ((forall link x0 e x0',
             In link (dedup_urls limit (omap product_link anchors) ∅ []) ->
             get_page link x0 = (Raise e, x0') -> is_Exception e = true) ->
          (forall x0, exists x0', sleep x0 = (Ok tt, x0')) ->
          exists ps x',
            shopee_search get_search_anchors get_page sleep query limit x
            = (Ok ps, x'))
      /\ (forall link rest e x2,
            dedup_urls limit (omap product_link anchors) ∅ [] = link :: rest ->
            get_page link x1 = (Raise e, x2) -> is_Exception e = false ->
            shopee_search get_search_anchors get_page sleep query limit x
            = (Raise e, x2))
      /\ (forall link rest pg x2 e x3,
            dedup_urls limit (omap product_link anchors) ∅ [] = link :: rest ->
            get_page link x1 = (Ok pg, x2) -> sleep x2 = (Raise e, x3) ->
            shopee_search get_search_anchors get_page sleep query limit x
            = (Raise e, x3))
  end.
Proof.
  unfold shopee_search.
  destruct (get_search_anchors query x) as [[anchors|e] x1]; [|reflexivity].
  split; [|split; [|split]].
  - intros e x'. apply fetch_details_raises.
  - intros A P.
    destruct (fetch_details get_page sleep
                (dedup_urls limit (omap product_link anchors) ∅ []) [] x1)
      as [[ps|e] x2] eqn:F; [now exists ps, x2|].
    apply fetch_details_raises in F as [(N & link & x0 & I & R)|[x0 R]].
    + rewrite (A link x0 e x2 I R) in N. discriminate.
    + destruct (P x0) as [x0' E]. rewrite E in R. discriminate.
  - intros link rest e x2 -> G N. cbn [fetch_details].
    unfold shopee_product_details. rewrite G, N. reflexivity.
  - intros link rest pg x2 e x3 -> G P. cbn [fetch_details].
    pose proof (details_result link x1) as D. rewrite G in D.
    destruct D as (p & -> & _). rewrite P. reflexivity.
Qed.

(** X8. The records that [shopee_search] returns have pairwise different
    urls, they are at most [limit] (one when [limit] is not positive), and
    the url of each has no question mark and is "https://shopee.com.br"
    followed by the [href], up to its query string, of an anchor of the
    result page whose [href] contains "/product/" and not "shopee.com.br"
    and whose normalized text has at least 20 characters. *)
Theorem search_results_are_distinct_product_links (query : str) (limit : Z)
    (x x1 x2 : X) (anchors : list (str * str)) (ps : list Product) :
  get_search_anchors query x = (Ok anchors, x1) ->
  shopee_search get_search_anchors get_page sleep query limit x = (Ok ps, x2) ->
  List.NoDup (map url ps)
  /\ Z.of_nat (length ps) <= Z.max limit 1
  /\ forall p, In p ps ->
       ~ In 63 (url p)
       /\ exists href text,
            In (href, text) anchors
            /\ contains (u "/product/") href = true
            /\ contains (u "shopee.com.br") href = false
            /\ (20 <= length (normalize_text text))%nat
            /\ url p = u "https://shopee.com.br" ++ before_first 63 href.
Proof.
  intros A. unfold shopee_search. rewrite A. intros F.
  apply fetch_details_urls in F as (ps' & -> & S). cbn [app] in *.
  destruct (dedup_urls_inv limit (omap product_link anchors) ∅ [])
    as (N & M & B).
  { constructor. }
  { intros a Ha. inversion Ha. }
  { cbn [length]. lia. }
  split; [|split].
  - apply NoDup_ListNoDup. exact (sublist_NoDup _ _ N S).
  - apply sublist_length in S. rewrite length_map in S. lia.
  - intros p Ip.
    assert (Iu : url p ∈ dedup_urls limit (omap product_link anchors) ∅ []).
    { apply (sublist_subseteq _ _ S).
      apply list_elem_of_In, in_map, Ip. }
    apply M in Iu as [Iu|Iu]; [inversion Iu|].
    apply list_elem_of_omap in Iu as ([href text] & Ia & Hl).
    unfold product_link in Hl.
    destruct (contains (u "/product/") href) eqn:C1; [|discriminate].
    destruct (contains (u "shopee.com.br") href) eqn:C2; [discriminate|].
    cbn [andb negb] in Hl.
    destruct (length (normalize_text text) <? 20)%nat eqn:Ln; [discriminate|].
    injection Hl as Hl. apply Nat.ltb_ge in Ln. split.
    + rewrite <- Hl. intros I.
      change (In 63 (u "https://shopee.com.br" ++ before_first 63 href)) in I.
      apply in_app_or in I as [I|I].
      * revert I. vm_compute. intuition discriminate.
      * exact (before_first_without 63 href I).
    + exists href, text. split; [now apply list_elem_of_In|]. auto.
Qed.

End HarvesterMore.

Lemma search_raises_only_what_its_calls_raise_witness :
  shopee_search (U := latin1) shop_anchors interrupted_page no_pause
    (u "Pets shopee") 50 tt = (Raise KeyboardInterrupt, tt)
  /\ shopee_search (U := latin1) shop_anchors shop_page interrupted_pause
       (u "Pets shopee") 50 tt = (Raise KeyboardInterrupt, tt)
  /\ exists ps x',
       shopee_search (U := latin1) shop_anchors failing_page no_pause
         (u "Pets shopee") 50 tt = (Ok ps, x').
Proof.
  split; [|split].
  - pose proof (search_raises_only_what_its_calls_raise (U := latin1)
                  shop_anchors interrupted_page no_pause (u "Pets shopee")
                  50 tt) as (_ & _ & H & _).
    apply (H (u "https://shopee.com.br/product/1/2") [] KeyboardInterrupt tt);
      [vm_compute; reflexivity | reflexivity | reflexivity].
  - pose proof (search_raises_only_what_its_calls_raise (U := latin1)
                  shop_anchors shop_page interrupted_pause (u "Pets shopee")
                  50 tt) as (_ & _ & _ & H).
    apply (H (u "https://shopee.com.br/product/1/2") [] shop_content tt
             KeyboardInterrupt tt);
      [vm_compute; reflexivity | reflexivity | reflexivity].
  - pose proof (search_raises_only_what_its_calls_raise (U := latin1)
                  shop_anchors failing_page no_pause (u "Pets shopee") 50 tt)
      as (_ & H & _).
    apply H.
    + intros link x0 e x0' _ [= <- <-]. reflexivity.
    + intros x0. now exists x0.
Defined.

Lemma search_results_are_distinct_product_links_witness :
  List.NoDup
    (map url (found_by (shopee_search (U := latin1) shop_anchors shop_page
                          no_pause (u "Pets shopee") 50 tt)))
  /\ Z.of_nat
       (length (found_by (shopee_search (U := latin1) shop_anchors shop_page
                            no_pause (u "Pets shopee") 50 tt)))
     <= Z.max 50 1
  /\ forall p,
       In p (found_by (shopee_search (U := latin1) shop_anchors shop_page
                         no_pause (u "Pets shopee") 50 tt)) ->
       ~ In 63 (url p)
       /\ exists href text,
            In (href, text) (found_by (shop_anchors (u "Pets shopee") tt))
            /\ contains (u "/product/") href = true
            /\ contains (u "shopee.com.br") href = false
            /\ (20 <= length (normalize_text (U := latin1) text))%nat
            /\ url p = u "https://shopee.com.br" ++ before_first 63 href.
Proof.
  apply (search_results_are_distinct_product_links (U := latin1)
           shop_anchors shop_page no_pause (u "Pets shopee") 50 tt tt tt).
  - reflexivity.
  - vm_compute. reflexivity.
Defined.

(** X9. With the harvester of the program and at least one product
    wanted a day, [main] never delivers a batch: a run reports the project
    finished or raises, and the state file stays as it was. *)
Theorem program_never_delivers_a_batch (U : PyUnicode) (L : PyUnicodeLaws U)
    (X : Type)
    (get_search_anchors : str -> X -> pyresult (list (str * str)) * X)
    (get_page : str -> X -> pyresult Page * X)
    (sleep : X -> pyresult unit * X)
    (generate_copy : Candidate -> X -> pyresult str * X)
    (append_to_sheet : list Row -> X -> pyresult unit * X)
    (write_output : Z -> list (Candidate * str) -> X -> pyresult unit * X)
    (cta_line : str -> str) (cfg : Config) (e e' : Env)
    (r : pyresult Report) :
  1 <= per_day cfg ->
  main (shopee_search get_search_anchors get_page sleep) generate_copy
    append_to_sheet write_output cta_line cfg e = (r, e') ->
  (r = Ok ProjectFinished \/ exists x, r = Raise x)
  /\ store e' = store e.
Proof.
  intros P H.
  assert (N : forall day picks, r <> Ok (Delivered day picks)).
  { intros day picks ->.
    apply harvester_run_delivers_nothing in H as [_ H]; try exact L. lia. }
  split.
  - destruct r as [[|day picks]|x]; [now left | | right; now exists x].
    now destruct (N day picks).
  - exact (main_store_kept _ _ _ _ _ _ _ _ _ H N).
Qed.

Lemma program_never_delivers_a_batch_witness :
  (fst (shop_run (sample_config 1 100) first_day) = Ok ProjectFinished
   \/ exists x, fst (shop_run (sample_config 1 100) first_day) = Raise x)
  /\ store (snd (shop_run (sample_config 1 100) first_day))
     = store first_day.
Proof.
  apply (program_never_delivers_a_batch latin1 latin1_laws
           (list (list Product)) shop_anchors shop_page no_pause fixed_copy
           quiet_sheet quiet_output no_cta (sample_config 1 100) first_day).
  - cbn. lia.
  - apply surjective_pairing.
Defined.

Section ExtractorMore.

Context `{U : PyUnicode}.

Lemma rstrip_prefix s : exists w, s = rstrip s ++ w.
Proof.
  induction s as [|a t [w IH]]; [now exists []|]. cbn [rstrip].
  destruct (rstrip t) as [|b t'].
  - destruct (isspace a); [now exists (a :: t)|].
    exists t. reflexivity.
  - exists w. cbn [app] in *. now rewrite <- IH.
Qed.

Lemma rstrip_last s pre a : rstrip s = pre ++ [a] -> isspace a = false.
Proof.
  revert pre. induction s as [|b t IH]; intros pre; cbn [rstrip].
  - now destruct pre.
  - destruct (rstrip t) as [|c t'] eqn:R.
    + destruct (isspace b) eqn:Sb; [now destruct pre|].
      destruct pre as [|? [|? ?]]; cbn; intros [= ]; congruence.
    + destruct pre as [|d pre']; [discriminate|].
      cbn [app]. intros [= -> E]. exact (IH _ E).
Qed.

Lemma drop_while_head (q : char -> bool) s a t :
  drop_while q s = a :: t -> q a = false.
Proof.
  induction s as [|b s IH]; cbn [drop_while]; [discriminate|].
  destruct (q b) eqn:Qb; [exact IH|]. now intros [= <- _].
Qed.

Lemma strip_ends s :
  (forall a t, strip s = a :: t -> isspace a = false)
  /\ (forall pre a, strip s = pre ++ [a] -> isspace a = false).
Proof.
  unfold strip. split.
  - intros a t E.
    destruct (rstrip_prefix (drop_while isspace s)) as [w Hw].
    rewrite E in Hw. exact (drop_while_head _ _ _ _ Hw).
  - intros pre a. apply rstrip_last.
Qed.

Lemma product_of_page_title_price link pg p :
  product_of_page link pg = Ok p ->
  title p
  = match strip (sub re_title_suffix [] (default [] (page_title pg))) with
    | [] => u "Produto Shopee"
    | t => t
    end
  /\ price p
     = match detect_price (str_lower (page_text pg)) with
       | Some ((_ :: _) as pr) => pr
       | _ => u "R$ --"
       end.
Proof.
  intros Hp.
  destruct (product_of_page_fields link pg) as (p' & Hp' & _ & Hs & Hr & Hv).
  rewrite Hp in Hp'. injection Hp' as <-.
  unfold product_of_page in Hp. rewrite Hs, Hr, Hv in Hp. cbn [rbind] in Hp.
  injection Hp as <-. cbn [title price]. split; [|reflexivity].
  destruct (page_title pg) as [t|]; unfold from_option, id;
    [destruct (strip (sub re_title_suffix [] t))
    |destruct (strip (sub re_title_suffix [] []))]; reflexivity.
Qed.

(** X10. [shopee_product_details] raises exactly when the request for
    the page raises, and then with the same exception; otherwise it
    returns a record with the url it was given and a title that is not
    empty: the placeholder "Produto Shopee", or a text with no blank at
    either end. *)
Theorem details_fail_only_with_the_fetch {X : Type}
    (get_page : str -> X -> pyresult Page * X) (link : str) (x : X) :
  match get_page link x with
  | (Raise e, x') => shopee_product_details get_page link x = (Raise e, x')
  | (Ok pg, x') =>
      exists p,
        shopee_product_details get_page link x = (Ok p, x')
        /\ url p = link
        /\ title p <> []
        /\ (title p = u "Produto Shopee"
            \/ (forall a t, title p = a :: t -> isspace a = false)
               /\ (forall pre a, title p = pre ++ [a] -> isspace a = false))
  end.
Proof.
  pose proof (details_result get_page link x) as D.
  destruct (get_page link x) as [[pg|e] x']; [|exact D].
  destruct D as (p & D & P & Hu). exists p.
  split; [exact D|]. split; [exact Hu|].
  apply product_of_page_title_price in P as [T _].
  destruct (strip_ends (sub re_title_suffix [] (default [] (page_title pg))))
    as [Hh Hl].
  destruct (strip (sub re_title_suffix [] (default [] (page_title pg))))
    as [|b t'] eqn:E; rewrite T.
  - split; [discriminate | now left].
  - split; [discriminate | right; now split].
Qed.

End ExtractorMore.

(** X11. No record of [shopee_product_details] has a sold count or a
    number of reviews, whatever the page shows. *)
Theorem sold_and_reviews_are_never_extracted (U : PyUnicode)
    (L : PyUnicodeLaws U) (X : Type)
    (get_page : str -> X -> pyresult Page * X) (link : str) (x x' : X)
    (p : Product) :
  shopee_product_details get_page link x = (Ok p, x') ->
  sold p = None /\ reviews p = None.
Proof.
  intros H. pose proof (details_result get_page link x) as D.
  destruct (get_page link x) as [[pg|e] x1].
  - destruct D as (q & D & P & _). rewrite D in H. injection H as -> _.
    exact (sold_and_reviews_always_absent U L link pg p P).
  - rewrite D in H. discriminate.
Qed.

Lemma sold_and_reviews_are_never_extracted_witness :
  exists p,
    shop_details = (Ok p, tt)
    /\ title p = u "Fone Bluetooth"
    /\ price p = u "R$ 1299,90"
    /\ sold p = None /\ reviews p = None.
Proof.
  exists {| title := u "Fone Bluetooth";
            url := u "https://shopee.com.br/product/1/2";
            price := u "R$ 1299,90";
            sold := None;
            rating := Some (PyFloat.of_decimal false 48 (-1));
            reviews := None |}.
  assert (E : shop_details
              = (Ok {| title := u "Fone Bluetooth";
                       url := u "https://shopee.com.br/product/1/2";
                       price := u "R$ 1299,90";
                       sold := None;
                       rating := Some (PyFloat.of_decimal false 48 (-1));
                       reviews := None |}, tt))
    by (vm_compute; reflexivity).
  split; [exact E|]. split; [reflexivity|]. split; [reflexivity|].
  exact (sold_and_reviews_are_never_extracted latin1 latin1_laws unit
           shop_page _ tt tt _ E).
Defined.

Lemma Matches_star_cls (q : char -> bool) r s s' c c' :
  Matches r s s' c c' -> r = Star (Cls q) ->
  c' = c /\ exists body, s = body ++ s' /\ forallb q body = true.
Proof.
  induction 1; intros E; try discriminate.
  - split; [reflexivity|]. now exists [].
  - injection E as ->.
    destruct (IHMatches2 eq_refl) as (-> & body & -> & Hb).
    match goal with H : Matches (Cls _) _ _ _ _ |- _ => invert H end.
    split; [reflexivity|]. exists (a :: body). split; [reflexivity|].
    cbn [forallb]. now apply andb_true_iff.
Qed.

Lemma replace_char_app c l k :
  replace [c] [] (l ++ k) = replace [c] [] l ++ replace [c] [] k.
Proof.
  unfold replace. induction l as [|a l IH]; [reflexivity|].
  cbn [app replace_from starts_with length Nat.sub].
  destruct (c =? a); cbn [andb app]; now rewrite IH.
Qed.

Lemma replace_char_without c s : ~ In c (replace [c] [] s).
Proof.
  unfold replace. induction s as [|a s IH]; cbn [replace_from]; [tauto|].
  cbn [starts_with length Nat.sub].
  destruct (c =? a) eqn:E; cbn [andb app]; [exact IH|].
  apply Z.eqb_neq in E. cbn [In]. intros [->|H]; [congruence | tauto].
Qed.

Lemma replace_char_absent c s : ~ In c s -> replace [c] [] s = s.
Proof.
  unfold replace. induction s as [|a s IH]; [reflexivity|].
  cbn [replace_from starts_with length Nat.sub In]. intros N.
  destruct (c =? a) eqn:E.
  - apply Z.eqb_eq in E. subst. tauto.
  - cbn [andb]. rewrite IH; [reflexivity | tauto].
Qed.

Section PriceFormat.

Context `{U : PyUnicode} {L : PyUnicodeLaws U}.

Lemma dot_is_no_digit : isdecimal 46 = false.
Proof.
  unfold isdecimal. rewrite todecimal_ascii by lia. reflexivity.
Qed.

Lemma price_match_shape text m :
  match_in re_price text m ->
  exists body a b,
    group m 1 = Some (body ++ [44; a; b])
    /\ body <> []
    /\ forallb (fun c => isdecimal c || (c =? 46)) body = true
    /\ isdecimal a = true /\ isdecimal b = true.
Proof.
  intros (pre & s' & rest & c & -> & M & ->).
  unfold re_price in M.
  invert M. match goal with H : Matches (Seq _ _) _ _ _ _ |- _ => invert H end.
  match goal with H : Matches (Seq _ _) _ _ _ _ |- _ => invert H end.
  match goal with H : Matches (Grp _ _) _ _ _ _ |- _ => invert H end.
  match goal with H : Matches (Seq (plus _) _) _ _ _ _ |- _ => invert H end.
  match goal with H : Matches (plus _) _ _ _ _ |- _ =>
    unfold plus in H; invert H end.
  match goal with H : Matches (Star (Cls ?q)) _ _ _ _ |- _ =>
    apply (Matches_star_cls q) in H as (-> & body & -> & Hb);
      [|reflexivity] end.
  match goal with H : Matches (Seq (lit _) _) _ _ _ _ |- _ => invert H end.
  match goal with H : Matches (Seq re_digit _) _ _ _ _ |- _ => invert H end.
  repeat match goal with
         | H : Matches (lit _) _ _ _ _ |- _ => invert H
         | H : Matches re_digit _ _ _ _ |- _ => invert H
         | H : Matches (Cls _) _ _ _ _ |- _ => invert H
         | H : Matches (Star re_space) _ _ _ _ |- _ =>
             apply Matches_groupless in H; [subst | reflexivity]
         end.
  repeat match goal with
         | H : (_ =? _) = true |- _ => apply Z.eqb_eq in H; subst
         end.
  match goal with
  | |- context [(1%nat, take _ (?h :: body ++ 44 :: ?a :: ?b :: _))] =>
      exists (h :: body), a, b
  end.
  split.
  { cbn [group match_of m_groups lookup_group Nat.eqb]. f_equal.
    match goal with
    | |- take _ ?l = ?r =>
        replace l with (r ++ rest)
          by (cbn [app]; rewrite <- app_assoc; reflexivity);
        generalize r; intros r'
    end.
    rewrite length_app.
    replace (length r' + length rest - length rest)%nat with (length r')
      by lia.
    apply take_app_length. }
  split; [discriminate|]. split.
  { cbn [forallb]. apply andb_true_iff. split; assumption. }
  split; assumption.
Qed.

Lemma detect_price_of_match text m :
  search re_price text = Some m ->
  exists ds a b,
    detect_price text = Some (u "R$ " ++ ds ++ [44; a; b])
    /\ forallb isdecimal (ds ++ [a; b]) = true.
Proof.
  intros S. unfold detect_price. rewrite S.
  apply search_sound, price_match_shape in S
    as (body & a & b & -> & _ & Hb & Da & Db).
  exists (replace (u ".") [] body), a, b.
  assert (Na : a <> 46) by (intros ->; rewrite dot_is_no_digit in Da;
                            discriminate).
  assert (Nb : b <> 46) by (intros ->; rewrite dot_is_no_digit in Db;
                            discriminate).
  change (u ".") with [46]. rewrite replace_char_app.
  rewrite (replace_char_absent 46 [44; a; b])
    by (cbn [In]; intros [?|[?|[?|[]]]]; congruence).
  split; [reflexivity|].
  rewrite forallb_app. cbn [forallb]. rewrite Da, Db, andb_true_r.
  apply forallb_forall. intros c Hc.
  assert (Q : (isdecimal c || (c =? 46)) = true).
  { assert (F : forallb (fun c => isdecimal c || (c =? 46))
                       (replace [46] [] body) = true)
      by (apply forallb_replace; [discriminate | reflexivity | exact Hb]).
    rewrite forallb_forall in F. exact (F c Hc). }
  apply orb_true_iff in Q as [Q|Q%Z.eqb_eq]; [exact Q|]. subst c.
  now apply replace_char_without in Hc.
Qed.

End PriceFormat.



(** * More of the field extractor: what it finds *)

Lemma take_match_text (w rest : str) :
  take (length (w ++ rest) - length rest) (w ++ rest) = w.
Proof.
  rewrite length_app.
  replace (length w + length rest - length rest)%nat with (length w) by lia.
  apply take_app_length.
Qed.

Section Detection.

Context `{U : PyUnicode} {L : PyUnicodeLaws U}.
Hypothesis digits_not_blank : forall c, isdecimal c = true -> isspace c = false.

Lemma transform_digit c t :
  isdecimal c = true ->
  exists x, In x [48; 49; 50; 51; 52; 53; 54; 55; 56; 57]
            /\ PyFloat.transform_decimal_and_space (c :: t)
               = x :: PyFloat.transform_decimal_and_space t.
Proof.
  intros D. destruct (transform_decimal c t D) as (x & Hx & E).
  exists x. split; [|exact E].
  unfold digit_pool in Hx. destruct Hx as [Hx|Hx]; [|exact Hx].
  exfalso. subst x. cbn [PyFloat.transform_decimal_and_space] in E.
  destruct (c <=? 127) eqn:A.
  - injection E as E. subst c. unfold isdecimal in D.
    rewrite todecimal_ascii in D by lia. discriminate.
  - rewrite (digits_not_blank c D) in E. unfold isdecimal in D.
    destruct (todecimal c) as [d|] eqn:T; [|discriminate].
    apply todecimal_range in T. injection E as E.
    unfold digit_char in E. lia.
Qed.

Lemma tenth_texts_parse :
  forallb
    (fun x =>
       forallb
         (fun y =>
            match PyFloat.of_ascii [x; 46; y] with
            | Ok _ => true
            | Raise _ => false
            end)
         [48; 49; 50; 51; 52; 53; 54; 55; 56; 57])
    [48; 49; 50; 51; 52; 53; 54; 55; 56; 57] = true.
Proof. vm_compute. reflexivity. Qed.

Lemma rating_text_parses a b :
  isdecimal a = true -> isdecimal b = true ->
  exists r, PyFloat.of_str [a; 46; b] = Ok r.
Proof.
  intros Da Db. unfold PyFloat.of_str.
  destruct (transform_digit a [46; b] Da) as (x & Hx & ->).
  change (PyFloat.transform_decimal_and_space [46; b])
    with (46 :: PyFloat.transform_decimal_and_space [b]).
  destruct (transform_digit b [] Db) as (y & Hy & ->).
  change (PyFloat.transform_decimal_and_space []) with (@nil Z).
  pose proof tenth_texts_parse as P.
  rewrite forallb_forall in P. specialize (P x Hx).
  rewrite forallb_forall in P. specialize (P y Hy).
  destruct (PyFloat.of_ascii [x; 46; y]) as [r|]; [now exists r | discriminate].
Qed.

Lemma detect_rating_found text pre a b ws1 ws2 post :
  text = pre ++ [a; 46; b] ++ ws1 ++ u "de" ++ ws2 ++ u "5" ++ post ->
  isdecimal a = true -> isdecimal b = true ->
  forallb isspace ws1 = true -> forallb isspace ws2 = true ->
  exists r, detect_rating text = Ok (Some r).
Proof.
  intros -> Da Db W1 W2.
  assert (M : Matches re_rating
                ([a; 46; b] ++ ws1 ++ u "de" ++ ws2 ++ u "5" ++ post) post []
                [(1%nat, [a; 46; b])]).
  { unfold re_rating.
    apply (M_seq _ _ _ (ws1 ++ u "de" ++ ws2 ++ u "5" ++ post) _ _
             [(1%nat, [a; 46; b])]).
    - pose proof (M_grp 1 (Seq re_digit (Seq (lit 46) re_digit))
                    ([a; 46; b] ++ ws1 ++ u "de" ++ ws2 ++ u "5" ++ post)
                    (ws1 ++ u "de" ++ ws2 ++ u "5" ++ post) [] []) as G.
      rewrite take_match_text in G. apply G.
      apply (M_seq _ _ _ ([46; b] ++ ws1 ++ u "de" ++ ws2 ++ u "5" ++ post)
               _ _ []); [now constructor|].
      apply (M_seq _ _ _ ([b] ++ ws1 ++ u "de" ++ ws2 ++ u "5" ++ post)
               _ _ []); [constructor; reflexivity | now constructor].
    - apply (M_seq _ _ _ (u "de" ++ ws2 ++ u "5" ++ post) _ _
               [(1%nat, [a; 46; b])]);
        [now apply Matches_star_run|].
      apply (M_seq _ _ _ (ws2 ++ u "5" ++ post) _ _ [(1%nat, [a; 46; b])]);
        [apply Matches_lits_text|].
      apply (M_seq _ _ _ (u "5" ++ post) _ _ [(1%nat, [a; 46; b])]);
        [now apply Matches_star_run|].
      constructor. reflexivity. }
  destruct (search_complete re_rating pre _ _ _ M) as [m S].
  unfold detect_rating. rewrite S.
  apply search_sound, rating_match_shape in S as (a' & b' & -> & Da' & Db').
  destruct (rating_text_parses a' b' Da' Db') as [r ->].
  now exists r.
Qed.

Lemma search_price_found text pre ws body a b post :
  text = pre ++ u "r$" ++ ws ++ body ++ [44; a; b] ++ post ->
  forallb isspace ws = true -> body <> [] ->
  forallb (fun c => isdecimal c || (c =? 46)) body = true ->
  isdecimal a = true -> isdecimal b = true ->
  exists m, search re_price text = Some m.
Proof.
  intros -> W N B Da Db.
  destruct body as [|h body]; [congruence|].
  cbn [forallb] in B. apply andb_true_iff in B as [Bh Bb].
  set (amount := (h :: body) ++ [44; a; b]).
  apply (search_complete re_price pre _ post [(1%nat, amount)]).
  unfold re_price.
  apply (M_seq _ _ _ (u "$" ++ ws ++ (h :: body) ++ [44; a; b] ++ post)
           _ _ []); [constructor; reflexivity|].
  apply (M_seq _ _ _ (ws ++ (h :: body) ++ [44; a; b] ++ post) _ _ []);
    [constructor; reflexivity|].
  apply (M_seq _ _ _ ((h :: body) ++ [44; a; b] ++ post) _ _ []);
    [now apply Matches_star_run|].
  pose proof (M_grp 1
                (Seq (plus (Cls (fun c => isdecimal c || (c =? 46))))
                   (Seq (lit 44) (Seq re_digit re_digit)))
                (amount ++ post) post [] []) as G.
  rewrite take_match_text in G.
  replace ((h :: body) ++ [44; a; b] ++ post) with (amount ++ post)
    by (unfold amount; now rewrite <- app_assoc).
  apply G. unfold amount. rewrite <- app_assoc.
  apply (M_seq _ _ _ ([44; a; b] ++ post) _ _ []).
  - unfold plus.
    apply (M_seq _ _ _ (body ++ [44; a; b] ++ post) _ _ []);
      [now constructor | now apply Matches_star_run].
  - apply (M_seq _ _ _ ([a; b] ++ post) _ _ []);
      [constructor; reflexivity|].
    apply (M_seq _ _ _ ([b] ++ post) _ _ []); now constructor.
Qed.

End Detection.

(** X19. The rating and the price are found whenever the page shows
    them.  With tables in which no decimal digit is a blank: if the
    lower-cased page text holds a digit, a dot, a digit, blanks, "de",
    blanks and "5", the record has a rating; if it holds "r$", blanks, a
    run of digits and dots, a comma and two digits, the price of the
    record is not the sentinel "R$ --". *)
Theorem rating_and_price_are_found (U : PyUnicode) (L : PyUnicodeLaws U)
    (link : str) (pg : Page) (p : Product) :
  (forall c, isdecimal c = true -> isspace c = false) ->
  product_of_page link pg = Ok p ->
  (forall pre a b ws1 ws2 post,
     str_lower (page_text pg)
     = pre ++ [a; 46; b] ++ ws1 ++ u "de" ++ ws2 ++ u "5" ++ post ->
     isdecimal a = true -> isdecimal b = true ->
     forallb isspace ws1 = true -> forallb isspace ws2 = true ->
     exists r, rating p = Some r)
  /\ (forall pre ws body a b post,
        str_lower (page_text pg)
        = pre ++ u "r$" ++ ws ++ body ++ [44; a; b] ++ post ->
        forallb isspace ws = true -> body <> [] ->
        forallb (fun c => isdecimal c || (c =? 46)) body = true ->
        isdecimal a = true -> isdecimal b = true ->
        price p <> u "R$ --").
Proof.
  intros NB H. split.
  - intros pre a b ws1 ws2 post E Da Db W1 W2.
    destruct (detect_rating_found NB _ pre a b ws1 ws2 post E Da Db W1 W2)
      as [r R].
    destruct (product_of_page_fields link pg) as (p' & Hp & _ & _ & Hr & _).
    rewrite H in Hp. injection Hp as <-. exists r. congruence.
  - intros pre ws body a b post E W N B Da Db.
    destruct (search_price_found _ pre ws body a b post E W N B Da Db)
      as [m S].
    destruct (detect_price_of_match _ m S) as (ds & a' & b' & P & _).
    apply product_of_page_title_price in H as [_ ->]. rewrite P.
    intros C. apply (f_equal (@length _)) in C.
    change (u "R$ " ++ ds ++ [44; a'; b']) with (82 :: 36 :: 32 :: ds ++ [44; a'; b']) in C.
    cbn [length] in C. rewrite length_app in C. cbn [length] in C.
    change (length (u "R$ --")) with 5%nat in C. lia.
Qed.

Lemma rating_and_price_are_found_witness :
  product_of_page (U := latin1) (u "https://shopee.com.br/product/1/2")
    shop_content = Ok shop_record
  /\ rating shop_record = Some (PyFloat.of_decimal false 48 (-1))
  /\ price shop_record = u "R$ 1299,90"
  /\ (forall pre a b ws1 ws2 post,
        str_lower (PyUnicode := latin1) (page_text shop_content)
        = pre ++ [a; 46; b] ++ ws1 ++ u "de" ++ ws2 ++ u "5" ++ post ->
        isdecimal (U := latin1) a = true ->
        isdecimal (U := latin1) b = true ->
        forallb (isspace (PyUnicode := latin1)) ws1 = true ->
        forallb (isspace (PyUnicode := latin1)) ws2 = true ->
        exists r, rating shop_record = Some r)
  /\ (forall pre ws body a b post,
        str_lower (PyUnicode := latin1) (page_text shop_content)
        = pre ++ u "r$" ++ ws ++ body ++ [44; a; b] ++ post ->
        forallb (isspace (PyUnicode := latin1)) ws = true -> body <> [] ->
        forallb (fun c => isdecimal (U := latin1) c || (c =? 46)) body
        = true ->
        isdecimal (U := latin1) a = true ->
        isdecimal (U := latin1) b = true ->
        price shop_record <> u "R$ --").
Proof.
  split; [vm_compute; reflexivity|]. split; [reflexivity|].
  split; [reflexivity|].
  apply (rating_and_price_are_found latin1 latin1_laws
           (u "https://shopee.com.br/product/1/2") shop_content shop_record).
  - intros c. unfold isdecimal. cbn [todecimal latin1].
    unfold ascii_decimal. intros D.
    destruct ((48 <=? c) && (c <=? 57)) eqn:R; [|discriminate].
    apply andb_true_iff in R as [R1%Z.leb_le R2%Z.leb_le].
    assert (c = 48 \/ c = 49 \/ c = 50 \/ c = 51 \/ c = 52 \/ c = 53
            \/ c = 54 \/ c = 55 \/ c = 56 \/ c = 57) as H by lia.
    repeat (destruct H as [->|H]; [reflexivity|]). subst c. reflexivity.
  - vm_compute. reflexivity.
Defined.

(** ** The title of a product page *)

Lemma first_split (q : char -> bool) l1 : forall l2 a b r1 r2,
  forallb q l1 = true -> forallb q l2 = true -> q a = false -> q b = false ->
  l1 ++ a :: r1 = l2 ++ b :: r2 -> l1 = l2 /\ a = b /\ r1 = r2.
Proof.
  induction l1 as [|x l1 IH]; intros [|y l2] a b r1 r2 Q1 Q2 Qa Qb E;
    cbn [app forallb] in *.
  - now injection E as -> ->.
  - injection E as -> _. apply andb_true_iff in Q2 as [Q2 _]. congruence.
  - injection E as -> _. apply andb_true_iff in Q1 as [Q1 _]. congruence.
  - injection E as -> E.
    apply andb_true_iff in Q1 as [_ Q1]. apply andb_true_iff in Q2 as [_ Q2].
    destruct (IH l2 a b r1 r2 Q1 Q2 Qa Qb E) as (-> & -> & ->). auto.
Qed.

Lemma Matches_seq_inv r1 r2 s s2 c c2 :
  Matches (Seq r1 r2) s s2 c c2 ->
  exists s1 c1, Matches r1 s s1 c c1 /\ Matches r2 s1 s2 c1 c2.
Proof. intros M. invert M. eauto. Qed.

Lemma scan_skip_all {B : Type} r (on_char : char -> B -> B)
    (on_match : Match -> B -> B) (done : B) t :
  match_at r [] false = None ->
  scan r on_char on_match done t (length t) = done.
Proof.
  intros N. induction t as [|a t IH]; cbn [length scan]; [|exact IH].
  now rewrite N.
Qed.

Section Title.

Context `{U : PyUnicode}.
Hypothesis bar_not_blank : isspace 124 = false.
Hypothesis S_not_blank : isspace 83 = false.

Lemma rstrip_blank x : forallb isspace x = true -> rstrip x = [].
Proof.
  induction x as [|a t IH]; [reflexivity|]. cbn [forallb rstrip].
  intros [Sa St]%andb_true_iff. now rewrite (IH St), Sa.
Qed.

Lemma rstrip_nil x : rstrip x = [] -> forallb isspace x = true.
Proof.
  induction x as [|a t IH]; [reflexivity|]. cbn [forallb rstrip].
  destruct (rstrip t) as [|b t'] eqn:R; [|discriminate].
  destruct (isspace a); [|discriminate]. intros _. now apply IH.
Qed.

Lemma rstrip_twice x : rstrip (rstrip x) = rstrip x.
Proof.
  induction x as [|a t IH]; [reflexivity|]. cbn [rstrip].
  destruct (rstrip t) as [|b t'] eqn:R.
  - destruct (isspace a) eqn:Sa; [reflexivity|]. cbn [rstrip]. now rewrite Sa.
  - change (rstrip (a :: b :: t'))
      with (match rstrip (b :: t') with
            | [] => if isspace a then [] else [a]
            | t'' => a :: t''
            end).
    now rewrite IH.
Qed.

Lemma drop_while_rstrip x :
  drop_while isspace (rstrip x) = rstrip (drop_while isspace x).
Proof.
  induction x as [|a t IH]; [reflexivity|]. cbn [drop_while].
  destruct (isspace a) eqn:Sa.
  - rewrite <- IH. cbn [rstrip].
    destruct (rstrip t) as [|b t'] eqn:R.
    + now rewrite Sa.
    + cbn [drop_while]. now rewrite Sa.
  - cbn [rstrip]. destruct (rstrip t) as [|b t'].
    + rewrite Sa. cbn [drop_while]. now rewrite Sa.
    + cbn [drop_while]. now rewrite Sa.
Qed.

Lemma strip_rstrip x : strip (rstrip x) = strip x.
Proof. unfold strip. now rewrite drop_while_rstrip, rstrip_twice. Qed.

(** A match of the suffix pattern: blanks, the bar, blanks, "Shopee",
    a stretch without a line break, and the end of the text. *)
Lemma title_match_shape s s' c c' :
  Matches re_title_suffix s s' c c' ->
  c' = c
  /\ exists w1 w2 w3,
       s = w1 ++ 124 :: w2 ++ u "Shopee" ++ w3 ++ s'
       /\ forallb isspace w1 = true /\ forallb isspace w2 = true
       /\ forallb (fun x => negb (x =? 10)) w3 = true
       /\ (s' = [] \/ s' = [10]).
Proof.
  intros M. split; [exact (Matches_groupless _ _ _ _ _ M eq_refl)|].
  unfold re_title_suffix in M.
  apply Matches_seq_inv in M as (s1 & c1 & M1 & M).
  apply Matches_seq_inv in M as (s2 & c2 & M2 & M).
  apply Matches_seq_inv in M as (s3 & c3 & M3 & M).
  apply Matches_seq_inv in M as (s4 & c4 & M4 & M).
  apply Matches_seq_inv in M as (s5 & c5 & M5 & M6).
  apply (Matches_star_cls isspace) in M1 as (_ & w1 & -> & H1);
    [|reflexivity].
  invert M2.
  match goal with H : (124 =? _) = true |- _ => apply Z.eqb_eq in H; subst end.
  apply (Matches_star_cls isspace) in M3 as (_ & w2 & -> & H2);
    [|reflexivity].
  apply Matches_lits in M4. subst s3.
  apply (Matches_star_cls (fun x => negb (x =? 10))) in M5
    as (_ & w3 & -> & H3); [|reflexivity].
  invert M6.
  exists w1, w2, w3. repeat split; assumption.
Qed.

Lemma title_match_at x ws rest :
  ~ In 124 x -> forallb isspace ws = true -> ~ In 10 rest ->
  match_at re_title_suffix (x ++ 124 :: ws ++ u "Shopee" ++ rest) false
  = if forallb isspace x then Some ([], []) else None.
Proof.
  intros Nx W Nr.
  assert (B : forall l, forallb isspace l = true ->
                        forallb (fun c => negb (c =? 124)) l = true).
  { intros l Hl. apply forallb_forall. intros c Hc.
    rewrite forallb_forall in Hl. specialize (Hl c Hc).
    destruct (Z.eqb_spec c 124) as [->|?]; [congruence | reflexivity]. }
  assert (Bx : forallb (fun c => negb (c =? 124)) x = true).
  { apply forallb_forall. intros c Hc.
    destruct (Z.eqb_spec c 124) as [->|?]; [contradiction | reflexivity]. }
  destruct (match_at re_title_suffix _ false) as [[rest' c']|] eqn:E.
  - apply match_at_sound, title_match_shape in E
      as (-> & w1 & w2 & w3 & E & H1 & H2 & H3 & H5).
    apply (first_split (fun c => negb (c =? 124))) in E
      as (-> & _ & E); [|exact Bx | exact (B w1 H1) | reflexivity..].
    rewrite H1.
    change (u "Shopee" ++ rest) with (83 :: u "hopee" ++ rest) in E.
    change (u "Shopee" ++ w3 ++ rest') with (83 :: u "hopee" ++ w3 ++ rest')
      in E.
    apply (first_split isspace) in E as (_ & _ & E);
      [|exact W | exact H2 | exact S_not_blank..].
    apply app_inv_head in E. subst rest.
    destruct H5 as [->| ->]; [reflexivity|].
    exfalso. apply Nr. apply in_or_app. right. now left.
  - destruct (forallb isspace x) eqn:Sx; [|reflexivity].
    exfalso. revert E.
    apply (match_at_complete re_title_suffix _ [] []).
    unfold re_title_suffix.
    apply (M_seq _ _ _ (124 :: ws ++ u "Shopee" ++ rest) _ _ []);
      [now apply Matches_star_run|].
    apply (M_seq _ _ _ (ws ++ u "Shopee" ++ rest) _ _ []);
      [constructor; reflexivity|].
    apply (M_seq _ _ _ (u "Shopee" ++ rest) _ _ []);
      [now apply Matches_star_run|].
    apply (M_seq _ _ _ rest _ _ []); [apply Matches_lits_text|].
    apply (M_seq _ _ _ [] _ _ []).
    + rewrite <- (app_nil_r rest) at 1. apply Matches_star_run.
      apply forallb_forall. intros c Hc.
      destruct (Z.eqb_spec c 10) as [->|?]; [contradiction | reflexivity].
    + constructor. now left.
Qed.

Lemma title_match_empty : match_at re_title_suffix [] false = None.
Proof.
  destruct (match_at re_title_suffix [] false) as [[rest c]|] eqn:E;
    [|reflexivity].
  apply match_at_sound, title_match_shape in E as (_ & w1 & w2 & w3 & E & _).
  now destruct w1.
Qed.

Lemma sub_title_suffix name ws rest :
  ~ In 124 name -> forallb isspace ws = true -> ~ In 10 rest ->
  sub re_title_suffix [] (name ++ 124 :: ws ++ u "Shopee" ++ rest)
  = rstrip name.
Proof.
  intros Nn W Nr. unfold sub. induction name as [|a name IH].
  - pose proof (title_match_at [] ws rest Nn W Nr) as E.
    change ([] ++ 124 :: ws ++ u "Shopee" ++ rest)
      with (124 :: ws ++ u "Shopee" ++ rest) in *.
    cbn [forallb] in E. cbn [scan]. rewrite E.
    cbn [length Nat.sub].
    now rewrite scan_skip_all by exact title_match_empty.
  - assert (Nn' : ~ In 124 name) by (intros I; apply Nn; now right).
    specialize (IH Nn').
    pose proof (title_match_at (a :: name) ws rest Nn W Nr) as E.
    change ((a :: name) ++ 124 :: ws ++ u "Shopee" ++ rest)
      with (a :: name ++ 124 :: ws ++ u "Shopee" ++ rest) in *.
    cbn [scan]. rewrite E.
    destruct (forallb isspace (a :: name)) eqn:Sx.
    + cbn [length Nat.sub].
      rewrite scan_skip_all by exact title_match_empty.
      now rewrite rstrip_blank.
    + rewrite IH. cbn [rstrip].
      destruct (rstrip name) as [|b t] eqn:R; [|reflexivity].
      apply rstrip_nil in R. cbn [forallb] in Sx. rewrite R, andb_true_r in Sx.
      now rewrite Sx.
Qed.

End Title.

(** X18. The Shopee suffix of a title is cut.  With tables in which
    the bar and the letter S are no blanks: when the text of the title
    tag is a name without a bar, then a bar, blanks, "Shopee" and more
    text without a line break, the title of the record is the name
    without the blanks at its ends, or the placeholder "Produto Shopee"
    when nothing is left of the name. *)
Theorem shopee_suffix_is_cut (U : PyUnicode) (link : str) (pg : Page)
    (p : Product) (name ws rest : str) :
  isspace 124 = false -> isspace 83 = false ->
  page_title pg = Some (name ++ u "|" ++ ws ++ u "Shopee" ++ rest) ->
  ~ In 124 name -> forallb isspace ws = true -> ~ In 10 rest ->
  product_of_page link pg = Ok p ->
  title p = match strip name with
            | [] => u "Produto Shopee"
            | t => t
            end.
Proof.
  intros B S T Nn W Nr H.
  apply product_of_page_title_price in H as [-> _]. rewrite T.
  unfold from_option, id.
  change (name ++ u "|" ++ ws ++ u "Shopee" ++ rest)
    with (name ++ 124 :: ws ++ u "Shopee" ++ rest).
  rewrite (sub_title_suffix B S name ws rest Nn W Nr), strip_rstrip.
  now destruct (strip name).
Qed.

Lemma shopee_suffix_is_cut_witness :
  title shop_record
  = match strip (U := latin1) (u "Fone Bluetooth ") with
    | [] => u "Produto Shopee"
    | t => t
    end
  /\ title shop_record = u "Fone Bluetooth".
Proof.
  split; [|reflexivity].
  apply (shopee_suffix_is_cut latin1 (u "https://shopee.com.br/product/1/2")
           shop_content shop_record (u "Fone Bluetooth ") (u " ")
           (u " Brasil")).
  - reflexivity.
  - reflexivity.
  - reflexivity.
  - vm_compute. intuition discriminate.
  - reflexivity.
  - vm_compute. intuition discriminate.
  - vm_compute. reflexivity.
Defined.

(** * More of the text helpers *)

Section Words.

Context `{U : PyUnicode} {L : PyUnicodeLaws U}.

Lemma split_from_nonempty s : forall cur,
  cur <> [] -> split_from s cur <> [].
Proof.
  induction s as [|a t IH]; intros cur N; cbn [split_from].
  - now destruct cur.
  - destruct (isspace a); [now destruct cur|].
    apply IH. discriminate.
Qed.

Lemma join_split_from s : forall cur,
  norm_form s (match cur with [] => true | _ => false end) = true ->
  join [32] (split_from s cur) = rev cur ++ s.
Proof.
  induction s as [|a t IH]; intros cur N; cbn [split_from].
  - destruct cur; cbn [join]; now rewrite app_nil_r.
  - cbn [norm_form] in N. destruct (isspace a) eqn:Sa.
    + apply andb_true_iff in N as [[[Hc Ha]%andb_true_iff Ht]%andb_true_iff N].
      apply Z.eqb_eq in Ha. subst a.
      destruct cur as [|c cur]; [discriminate|].
      specialize (IH [] N). cbn [rev app] in IH.
      destruct t as [|b t']; [discriminate|].
      assert (Sb : isspace b = false) by exact (norm_form_head _ b t' N eq_refl).
      destruct (split_from (b :: t') []) as [|w ws] eqn:E.
      * exfalso. cbn [split_from] in E. rewrite Sb in E.
        now apply (split_from_nonempty t' [b]) in E.
      * change (join [32] (rev (c :: cur) :: w :: ws))
          with (rev (c :: cur) ++ [32] ++ join [32] (w :: ws)).
        now rewrite IH.
    + rewrite (IH (a :: cur) N). cbn [rev]. now rewrite <- app_assoc.
Qed.

Lemma split_from_words s : forall cur w,
  In w (split_from s cur) ->
  w <> [] /\ forall c, In c w -> In c cur \/ (In c s /\ isspace c = false).
Proof.
  induction s as [|a t IH]; intros cur w; cbn [split_from].
  - destruct cur as [|c cur]; [contradiction|].
    intros [<-|[]]. split.
    + intros E. apply (f_equal (@length _)) in E.
      rewrite length_rev in E. discriminate.
    + intros d Hd. left. now apply in_rev.
  - destruct (isspace a) eqn:Sa.
    + destruct cur as [|c cur].
      * intros H. apply IH in H as [N H]. split; [exact N|].
        intros d Hd. destruct (H d Hd) as [[]|[I S]].
        right. split; [now right | exact S].
      * intros [<-|H].
        -- split.
           ++ intros E. apply (f_equal (@length _)) in E.
              rewrite length_rev in E. discriminate.
           ++ intros d Hd. left. now apply in_rev.
        -- apply IH in H as [N H]. split; [exact N|].
           intros d Hd. destruct (H d Hd) as [[]|[I S]].
           right. split; [now right | exact S].
    + intros H. apply IH in H as [N H]. split; [exact N|].
      intros d Hd. destruct (H d Hd) as [[<-|I]|[I S]].
      * right. split; [now left | exact Sa].
      * now left.
      * right. split; [now right | exact S].
Qed.

Lemma normalized_word_chars x w c :
  In w (split (normalize_text x)) -> In c w ->
  isspace c = false /\ isword c = true.
Proof.
  intros Hw Hc. apply split_from_words in Hw as [_ H].
  destruct (H c Hc) as [[]|[I S]]. split; [exact S|].
  destruct (normalize_text_form x) as [G _].
  rewrite forallb_forall in G. specialize (G c I).
  unfold good_char in G. rewrite S, orb_false_r in G.
  now apply andb_true_iff in G as [_ G].
Qed.

Lemma In_join sep ws c :
  In c (join sep ws) -> In c sep \/ exists w, In w ws /\ In c w.
Proof.
  induction ws as [|w [|w' ws] IH]; cbn [join].
  - contradiction.
  - intros H. right. exists w. split; [now left | exact H].
  - intros [H|[H|H]%in_app_or]%in_app_or.
    + right. exists w. split; [now left | exact H].
    + now left.
    + destruct (IH H) as [?|(v & Iv & Hv)]; [now left|].
      right. exists v. split; [now right | exact Hv].
Qed.

Lemma normalize_text_twice x :
  normalize_text (normalize_text x) = normalize_text x.
Proof.
  destruct (normalize_text_form x) as [G N]. now apply normalize_text_fixed.
Qed.

End Words.

(** X13. The words of a normalized text, joined by single spaces, are
    the normalized text again; each word is not empty and holds word
    characters only, none of them a blank. *)
Theorem normalized_text_is_its_words_joined (U : PyUnicode)
    (L : PyUnicodeLaws U) (x : str) :
  join (u " ") (split (normalize_text x)) = normalize_text x
  /\ forall w, In w (split (normalize_text x)) ->
       w <> [] /\ forall c, In c w -> isspace c = false /\ isword c = true.
Proof.
  split.
  - destruct (normalize_text_form x) as [_ N].
    exact (join_split_from (normalize_text x) [] N).
  - intros w Hw. split.
    + now apply split_from_words in Hw as [N _].
    + intros c Hc. exact (normalized_word_chars x w c Hw Hc).
Qed.

Lemma normalized_text_is_its_words_joined_witness :
  join (u " ")
    (split (U := latin1) (normalize_text (U := latin1) (u "  Kit: Fone-Bluetooth  5.0!! ")))
  = normalize_text (U := latin1) (u "  Kit: Fone-Bluetooth  5.0!! ")
  /\ forall w,
       In w (split (U := latin1)
               (normalize_text (U := latin1) (u "  Kit: Fone-Bluetooth  5.0!! "))) ->
       w <> []
       /\ forall c, In c w ->
            isspace (PyUnicode := latin1) c = false
            /\ isword (U := latin1) c = true.
Proof.
  exact (normalized_text_is_its_words_joined latin1 latin1_laws
           (u "  Kit: Fone-Bluetooth  5.0!! ")).
Defined.

(** X14. [top_keywords] and [similarity_key] give for a title what they
    give for its normalized text.  The keywords hold only word
    characters, hyphens and spaces; they are the first 40 characters of
    the normalized title, or at most [k] words of the normalized title
    joined by hyphens, none of them a stop word and each longer than two
    characters. *)
Theorem keywords_of_a_title (U : PyUnicode) (L : PyUnicodeLaws U)
    (category t : str) (k : nat) :
  top_keywords (normalize_text t) k = top_keywords t k
  /\ similarity_key category (normalize_text t) = similarity_key category t
  /\ (forall c, In c (top_keywords t k) ->
        c = 45 \/ c = 32 \/ (isspace c = false /\ isword c = true))
  /\ (top_keywords t k = take 40 (normalize_text t)
      \/ exists ws,
           ws <> [] /\ (length ws <= k)%nat
           /\ top_keywords t k = join (u "-") ws
           /\ forall w, In w ws ->
                In w (split (normalize_text t))
                /\ ~ In w STOPWORDS /\ (2 < length w)%nat).
Proof.
  assert (K : forall n, top_keywords (normalize_text t) n = top_keywords t n)
    by (intros n; unfold top_keywords; now rewrite normalize_text_twice).
  split; [apply K|].
  split; [unfold similarity_key; now rewrite K|].
  assert (W : forall w,
             In w (take k (filter (fun w => (w ∉ STOPWORDS) ∧ (2 < length w)%nat)
                             (split (normalize_text t)))) ->
             In w (split (normalize_text t))
             /\ ~ In w STOPWORDS /\ (2 < length w)%nat).
  { intros w Hw. apply list_elem_of_In in Hw.
    apply (subseteq_take k) in Hw.
    apply list_elem_of_filter in Hw as [[S Ln] Hw].
    split; [now apply list_elem_of_In|]. split; [|exact Ln].
    intros I. apply S. now apply list_elem_of_In. }
  unfold top_keywords.
  destruct (take k (filter (fun w => (w ∉ STOPWORDS) ∧ (2 < length w)%nat)
                      (split (normalize_text t)))) as [|w ws] eqn:E.
  - split; [|now left].
    intros c Hc. apply list_elem_of_In, (subseteq_take 40) in Hc.
    apply list_elem_of_In in Hc.
    destruct (isspace c) eqn:Sc.
    + right. left.
      destruct (normalize_text_form t) as [_ N].
      exact (norm_form_blank _ c true N Hc Sc).
    + right. right. split; [reflexivity|].
      destruct (normalize_text_form t) as [G _].
      rewrite forallb_forall in G. specialize (G c Hc).
      unfold good_char in G. rewrite Sc, orb_false_r in G.
      now apply andb_true_iff in G as [_ G].
  - split.
    + intros c Hc. apply In_join in Hc as [[<-|[]]|(v & Iv & Hv)];
        [now left|].
      right. right. apply W in Iv as [Iv _].
      exact (normalized_word_chars t v c Iv Hv).
    + right. exists (w :: ws). split; [discriminate|]. split.
      * rewrite <- E, length_take. lia.
      * split; [reflexivity | exact W].
Qed.

Lemma keywords_of_a_title_witness :
  top_keywords (U := latin1)
    (normalize_text (U := latin1) (u "Kit 2 Fones de Ouvido Bluetooth - Sem Fio!")) 6
  = top_keywords (U := latin1) (u "Kit 2 Fones de Ouvido Bluetooth - Sem Fio!") 6
  /\ top_keywords (U := latin1) (u "Kit 2 Fones de Ouvido Bluetooth - Sem Fio!") 6
     = u "fones-ouvido-bluetooth-fio".
Proof.
  split; [|vm_compute; reflexivity].
  exact (proj1 (keywords_of_a_title latin1 latin1_laws []
                  (u "Kit 2 Fones de Ouvido Bluetooth - Sem Fio!") 6)).
Defined.
(** ** The normalizer and its argument *)

Section NormalizeInput.

Context `{U : PyUnicode} {L : PyUnicodeLaws U}.

Lemma spaced_out_blank_out s : spaced_out s = blank_out s.
Proof.
  unfold spaced_out, blank_out, isword. apply map_ext. intros c.
  now destruct (isalnum c || (c =? 95) || isspace c).
Qed.

Lemma normalize_text_of_input x :
  normalize_text x = strip (collapse_from (spaced_out (str_lower x)) false).
Proof. rewrite spaced_out_blank_out. apply normalize_text_steps. Qed.

(** Splitting does not see what collapsing and trimming change. *)
Lemma split_from_collapse s : forall r cur,
  (r = true -> cur = []) ->
  split_from (collapse_from s r) cur = split_from s cur.
Proof.
  induction s as [|a t IH]; intros r cur R; [reflexivity|].
  cbn [collapse_from split_from]. destruct (isspace a) eqn:Sa.
  - destruct r.
    + rewrite (R eq_refl). now apply IH.
    + cbn [split_from]. rewrite isspace_space.
      now rewrite (IH true []).
  - cbn [split_from]. rewrite Sa. apply IH. discriminate.
Qed.

Lemma split_drop_while s : split (drop_while isspace s) = split s.
Proof.
  unfold split. induction s as [|a t IH]; [reflexivity|].
  cbn [drop_while split_from]. destruct (isspace a) eqn:Sa; [exact IH|].
  cbn [split_from]. now rewrite Sa.
Qed.

Lemma split_from_rstrip s : forall cur,
  split_from (rstrip s) cur = split_from s cur.
Proof.
  induction s as [|a t IH]; intros cur; [reflexivity|].
  cbn [rstrip]. destruct (rstrip t) as [|b t'] eqn:R.
  - destruct (isspace a) eqn:Sa.
    + cbn [split_from]. rewrite Sa, <- (IH []). now destruct cur.
    + cbn [split_from]. rewrite Sa, <- (IH (a :: cur)). reflexivity.
  - cbn [split_from]. destruct (isspace a).
    + now rewrite <- (IH []).
    + now rewrite <- (IH (a :: cur)).
Qed.

Lemma split_strip s : split (strip s) = split s.
Proof.
  unfold strip, split at 1. rewrite split_from_rstrip.
  apply split_drop_while.
Qed.

Lemma split_normalize_text x :
  split (normalize_text x) = split (spaced_out (str_lower x)).
Proof.
  rewrite normalize_text_of_input, split_strip. unfold split.
  apply split_from_collapse. discriminate.
Qed.

Lemma normalize_text_joined x :
  normalize_text x = join (u " ") (split (spaced_out (str_lower x))).
Proof.
  rewrite <- split_normalize_text.
  destruct (normalize_text_form x) as [_ N].
  symmetry. exact (join_split_from (normalize_text x) [] N).
Qed.

(** A character that is no blank goes through collapsing and trimming. *)
Lemma In_collapse c s : forall r,
  isspace c = false -> In c s -> In c (collapse_from s r).
Proof.
  induction s as [|a t IH]; intros r Sc; [contradiction|].
  cbn [In collapse_from]. intros [->|I].
  - rewrite Sc. now left.
  - destruct (isspace a); [destruct r|]; cbn [In]; auto.
Qed.

Lemma In_drop_while c s :
  isspace c = false -> In c s -> In c (drop_while isspace s).
Proof.
  intros Sc. induction s as [|a t IH]; [contradiction|].
  cbn [In drop_while]. destruct (isspace a) eqn:Sa.
  - intros [->|I]; [congruence | auto].
  - auto.
Qed.

Lemma In_rstrip c s : isspace c = false -> In c s -> In c (rstrip s).
Proof.
  intros Sc. induction s as [|a t IH]; [contradiction|].
  cbn [In rstrip]. intros [->|I].
  - destruct (rstrip t); [rewrite Sc|]; now left.
  - specialize (IH I). destruct (rstrip t); [contradiction | now right].
Qed.

Lemma In_spaced_out c s :
  isalnum c = true \/ c = 95 -> In c s -> In c (spaced_out s).
Proof.
  intros W I. unfold spaced_out. apply in_map_iff. exists c.
  split; [|exact I].
  assert (isalnum c || (c =? 95) = true) as ->; [|reflexivity].
  destruct W as [->| ->]; [reflexivity | apply orb_true_r].
Qed.

Lemma normalize_text_keeps x c :
  In c (str_lower x) -> isspace c = false -> isalnum c = true \/ c = 95 ->
  In c (normalize_text x).
Proof.
  intros I Sc W. rewrite normalize_text_of_input. unfold strip.
  now apply In_rstrip, In_drop_while, In_collapse, In_spaced_out.
Qed.

(** What collapsing and trimming leave was there, or is a space. *)
Lemma collapse_In c s : forall r,
  In c (collapse_from s r) -> c = 32 \/ In c s.
Proof.
  induction s as [|a t IH]; intros r; [contradiction|].
  cbn [collapse_from]. destruct (isspace a); [destruct r|]; cbn [In].
  - intros I. destruct (IH _ I); auto.
  - intros [<-|I]; [now left|]. destruct (IH _ I); auto.
  - intros [<-|I]; [auto|]. destruct (IH _ I); auto.
Qed.

Lemma drop_while_In (p : char -> bool) c s :
  In c (drop_while p s) -> In c s.
Proof.
  induction s as [|a t IH]; [contradiction|]. cbn [drop_while].
  destruct (p a); [right; auto | auto].
Qed.

Lemma rstrip_In c s : In c (rstrip s) -> In c s.
Proof.
  intros I. destruct (rstrip_prefix s) as [w E]. rewrite E.
  apply in_or_app. now left.
Qed.

Lemma spaced_out_In c s : In c (spaced_out s) -> c = 32 \/ In c s.
Proof.
  unfold spaced_out. intros (a & E & I)%in_map_iff.
  destruct (isalnum a || (a =? 95) || isspace a); [|now left].
  subst a. now right.
Qed.

Lemma normalize_text_from x c :
  In c (normalize_text x) -> c = 32 \/ In c (str_lower x).
Proof.
  rewrite normalize_text_of_input. unfold strip.
  intros I%rstrip_In%drop_while_In%collapse_In.
  destruct I as [I|I%spaced_out_In]; tauto.
Qed.

Lemma str_lower_ascii_underscore x :
  forallb (in_range 0 127) x = true -> In 95 x -> In 95 (str_lower x).
Proof.
  intros A I. rewrite (str_lower_ascii x A).
  apply in_map_iff. exists 95. split; [reflexivity | exact I].
Qed.

End NormalizeInput.

(** C9 (amended). [normalize_text] is a function of its argument alone,
    defined on every string. Its result is the lower-cased argument in
    which every character that is neither alphanumeric, nor the
    underscore, nor a blank is replaced by a space, every run of blanks
    by one space, and the blanks at both ends are taken away; said with
    words, it is the words of that text joined by single spaces. So every
    character of the lower-cased argument that is alphanumeric or the
    underscore, and no blank, is kept - the underscore of an ASCII text
    among them - and the result holds nothing but such characters and
    spaces. The result is lower-case, has no blank other than the space,
    no two blanks side by side, no blank at either end, and is left as it
    is by [normalize_text]. *)
Theorem normalize_text_normal_form (U : PyUnicode) (L : PyUnicodeLaws U)
    (x : str) :
  str_lower (normalize_text x) = normalize_text x
  /\ (forall c, In c (normalize_text x) ->
        c = 32 \/ (isspace c = false /\ (isalnum c = true \/ c = 95)))
  /\ (forall pre a b post, normalize_text x = pre ++ a :: b :: post ->
        isspace a = true -> isspace b = false)
  /\ (forall a t, normalize_text x = a :: t -> isspace a = false)
  /\ (forall pre a, normalize_text x = pre ++ [a] -> isspace a = false)
  /\ normalize_text (normalize_text x) = normalize_text x
  /\ normalize_text x = strip (collapse_from (spaced_out (str_lower x)) false)
  /\ normalize_text x = join (u " ") (split (spaced_out (str_lower x)))
  /\ (forall c, In c (str_lower x) -> isspace c = false ->
        isalnum c = true \/ c = 95 -> In c (normalize_text x))
  /\ (forall c, In c (normalize_text x) -> c = 32 \/ In c (str_lower x))
  /\ (forallb (in_range 0 127) x = true -> isspace 95 = false ->
      In 95 x -> In 95 (normalize_text x)).
Proof.
  destruct (normalize_text_form x) as [G N].
  split; [|split; [|split; [|split; [|split; [|split; [|split; [|split;
    [|split; [|split]]]]]]]]].
  - apply str_lower_fixed. now apply forallb_good_stable.
  - intros c I. destruct (isspace c) eqn:Sc.
    + left. exact (norm_form_blank _ c true N I Sc).
    + right. split; [reflexivity|].
      rewrite forallb_forall in G. specialize (G c I).
      unfold good_char, isword in G. rewrite Sc, orb_false_r in G.
      apply andb_true_iff in G as [_ [?|?%Z.eqb_eq]%orb_true_iff]; auto.
  - intros pre a b post E. rewrite E in N.
    exact (norm_form_adjacent pre a b post true N).
  - intros a t E. exact (norm_form_head _ a t N E).
  - intros pre a E. rewrite E in N. exact (norm_form_last pre a true N).
  - now apply normalize_text_fixed.
  - apply normalize_text_of_input.
  - apply normalize_text_joined.
  - intros c. apply normalize_text_keeps.
  - intros c. apply normalize_text_from.
  - intros A S I. apply normalize_text_keeps; [|exact S | now right].
    now apply str_lower_ascii_underscore.
Qed.

Lemma normalize_text_normal_form_witness :
  normalize_text (U := latin1) (u "Kit_Pet -- Promo!!")
  = u "kit_pet promo"
  /\ str_lower (PyUnicode := latin1)
       (normalize_text (U := latin1) (u "Kit_Pet -- Promo!!"))
     = normalize_text (U := latin1) (u "Kit_Pet -- Promo!!")
  /\ (forall c,
        In c (normalize_text (U := latin1) (u "Kit_Pet -- Promo!!")) ->
        c = 32 \/ (isspace (PyUnicode := latin1) c = false
                   /\ (isalnum (PyUnicode := latin1) c = true \/ c = 95)))
  /\ (forall pre a b post,
        normalize_text (U := latin1) (u "Kit_Pet -- Promo!!")
        = pre ++ a :: b :: post ->
        isspace (PyUnicode := latin1) a = true ->
        isspace (PyUnicode := latin1) b = false)
  /\ (forall a t,
        normalize_text (U := latin1) (u "Kit_Pet -- Promo!!") = a :: t ->
        isspace (PyUnicode := latin1) a = false)
  /\ (forall pre a,
        normalize_text (U := latin1) (u "Kit_Pet -- Promo!!")
        = pre ++ [a] ->
        isspace (PyUnicode := latin1) a = false)
  /\ normalize_text (U := latin1)
       (normalize_text (U := latin1) (u "Kit_Pet -- Promo!!"))
     = normalize_text (U := latin1) (u "Kit_Pet -- Promo!!")
  /\ normalize_text (U := latin1) (u "Kit_Pet -- Promo!!")
     = strip (U := latin1)
         (collapse_from (U := latin1)
            (spaced_out (U := latin1)
               (str_lower (PyUnicode := latin1) (u "Kit_Pet -- Promo!!")))
            false)
  /\ normalize_text (U := latin1) (u "Kit_Pet -- Promo!!")
     = join (u " ")
         (split (U := latin1)
            (spaced_out (U := latin1)
               (str_lower (PyUnicode := latin1)
                  (u "Kit_Pet -- Promo!!"))))
  /\ (forall c,
        In c (str_lower (PyUnicode := latin1) (u "Kit_Pet -- Promo!!")) ->
        isspace (PyUnicode := latin1) c = false ->
        isalnum (PyUnicode := latin1) c = true \/ c = 95 ->
        In c (normalize_text (U := latin1) (u "Kit_Pet -- Promo!!")))
  /\ (forall c,
        In c (normalize_text (U := latin1) (u "Kit_Pet -- Promo!!")) ->
        c = 32
        \/ In c (str_lower (PyUnicode := latin1)
                   (u "Kit_Pet -- Promo!!")))
  /\ (forallb (in_range 0 127) (u "Kit_Pet -- Promo!!") = true ->
      isspace (PyUnicode := latin1) 95 = false ->
      In 95 (u "Kit_Pet -- Promo!!") ->
      In 95 (normalize_text (U := latin1) (u "Kit_Pet -- Promo!!"))).
Proof.
  split; [vm_compute; reflexivity|].
  exact (normalize_text_normal_form latin1 latin1_laws
           (u "Kit_Pet -- Promo!!")).
Defined.

(** The example of the specification. *)
Example normalize_kit_promocao :
  normalize_text (U := latin1) (u "Kit-Promoção!!") = u "kit promoção".
Proof. vm_compute. reflexivity. Qed.

(** C9 as stated fails for the underscore: it is a punctuation character,
    and [normalize_text] keeps it, as it is a word character of the
    pattern. *)
Lemma underscore_survives :
  normalize_text (U := latin1) (u "kit_promo") = u "kit_promo"
  /\ In 95 (normalize_text (U := latin1) (u "kit_promo"))
  /\ ascii_punctuation 95 = true.
Proof.
  split; [vm_compute; reflexivity|]. split; [|reflexivity].
  vm_compute. tauto.
Qed.


(** * More of the quantity parser *)

Lemma transform_ascii `{U : PyUnicode} s :
  forallb (in_range 0 127) s = true ->
  PyFloat.transform_decimal_and_space s = s.
Proof.
  induction s as [|c t IH]; [reflexivity|]. cbn [forallb].
  intros [[_ Hc]%andb_true_iff Ht]%andb_true_iff.
  cbn [PyFloat.transform_decimal_and_space]. rewrite Hc. now rewrite IH.
Qed.

Lemma ascii_lower_range s :
  forallb (in_range 0 127) s = true ->
  forallb (in_range 0 127) (map ascii_lower s) = true.
Proof.
  induction s as [|c t IH]; [reflexivity|]. cbn [forallb map].
  intros [Hc Ht]%andb_true_iff. rewrite (IH Ht), andb_true_r.
  unfold in_range in Hc. apply andb_true_iff in Hc as [H1%Z.leb_le H2%Z.leb_le].
  unfold ascii_lower.
  destruct ((65 <=? c) && (c <=? 90)) eqn:E;
    [apply andb_true_iff in E as [_ E%Z.leb_le]|];
    unfold in_range; apply andb_true_iff; split; apply Z.leb_le; lia.
Qed.

Lemma parse_int_like_ascii `{U : PyUnicode} {L : PyUnicodeLaws U} s :
  forallb (in_range 0 127) s = true ->
  parse_int_like s = parse_int_like (U := latin1) s.
Proof.
  intros A. unfold parse_int_like.
  rewrite (str_lower_ascii s A).
  rewrite (@str_lower_ascii latin1 latin1_laws s A).
  set (s2 := replace (u ",") (u ".")
               (replace (u " ") [] (replace (u ".") [] (map ascii_lower s)))).
  assert (A2 : forallb (in_range 0 127) s2 = true).
  { unfold s2. apply forallb_replace; [discriminate | reflexivity|].
    apply forallb_replace; [discriminate | reflexivity|].
    apply forallb_replace; [discriminate | reflexivity|].
    now apply ascii_lower_range. }
  assert (R : forall old x, old <> [] -> forallb (in_range 0 127) x = true ->
                            forallb (in_range 0 127) (replace old [] x) = true).
  { intros old x O Hx. now apply forallb_replace. }
  assert (F : forall x, forallb (in_range 0 127) x = true ->
                        PyFloat.of_str x = PyFloat.of_str (H := latin1) x).
  { intros x Hx. unfold PyFloat.of_str.
    now rewrite (transform_ascii x Hx), (transform_ascii (U := latin1) x Hx). }
  destruct (contains (u "mil") s2).
  - destruct (contains (u "k") (replace (u "mil") [] s2)).
    + rewrite F; [reflexivity|].
      apply R; [discriminate|]. apply R; [discriminate | exact A2].
    + rewrite F; [reflexivity|]. apply R; [discriminate | exact A2].
  - destruct (contains (u "k") s2).
    + rewrite F; [reflexivity|]. apply R; [discriminate | exact A2].
    + rewrite F; [reflexivity | exact A2].
Qed.

Lemma parses_to_spec `{U : PyUnicode} {L : PyUnicodeLaws U} s v :
  parses_to s v = true -> parse_int_like s = Ok (Some v).
Proof.
  unfold parses_to. intros [A P]%andb_true_iff.
  rewrite (parse_int_like_ascii s A).
  destruct (parse_int_like (U := latin1) s) as [[n|]|]; try discriminate.
  apply Z.eqb_eq in P. now subst.
Qed.

Lemma counts_below_spec (b n : Z) : 0 <= n < b -> In n (counts_below b).
Proof.
  intros H. unfold counts_below. apply in_map_iff.
  exists (Z.to_nat n). split; [lia|]. apply in_seq. lia.
Qed.

Lemma u_string_of_uint d : u (NilEmpty.string_of_uint d) = codes d.
Proof.
  unfold u. induction d; cbn [NilEmpty.string_of_uint codes];
    [reflexivity|..];
    (cbn [utf8_decode]; rewrite IHd; reflexivity).
Qed.

Lemma codes_digits d : forallb PyFloat.is_digit (codes d) = true.
Proof. induction d; cbn [codes forallb]; [reflexivity|..]; exact IHd. Qed.

Lemma codes_acc d : forall acc,
  fold_left (fun a c => 10 * a + (c - 48)) (codes d) (Z.pos acc)
  = Z.pos (Pos.of_uint_acc d acc).
Proof.
  induction d; intros acc; cbn [codes fold_left Pos.of_uint_acc];
    [reflexivity|..];
    (rewrite <- IHd; f_equal; lia).
Qed.

Lemma codes_value d : PyFloat.digits_value (codes d) = Z.of_N (Pos.of_uint d).
Proof.
  unfold PyFloat.digits_value.
  induction d; cbn [codes fold_left Pos.of_uint]; [reflexivity | exact IHd|..];
    (change (10 * 0 + (_ - 48)) with (Z.pos 1) || idtac;
     match goal with
     | |- fold_left _ _ ?a = _ =>
         let v := eval vm_compute in a in change a with v
     end;
     rewrite codes_acc; reflexivity).
Qed.

Lemma fold_digits_lower ds : forall acc,
  0 <= acc -> forallb PyFloat.is_digit ds = true ->
  acc * 10 ^ Z.of_nat (length ds)
  <= fold_left (fun a c => 10 * a + (c - 48)) ds acc.
Proof.
  induction ds as [|c t IH]; intros acc A D; cbn [fold_left length].
  - cbn. lia.
  - cbn [forallb] in D. apply andb_true_iff in D as [Dc Dt].
    unfold PyFloat.is_digit, in_range in Dc.
    apply andb_true_iff in Dc as [H1%Z.leb_le H2%Z.leb_le].
    rewrite Nat2Z.inj_succ, Z.pow_succ_r by lia.
    specialize (IH (10 * acc + (c - 48)) ltac:(lia) Dt).
    assert (0 <= 10 ^ Z.of_nat (length t)) by (apply Z.pow_nonneg; lia).
    nia.
Qed.

Lemma str_of_pos p :
  str_of_int (Z.pos p) = codes (Pos.to_uint p)
  /\ PyFloat.digits_value (codes (Pos.to_uint p)) = Z.pos p
  /\ 10 ^ (Z.of_nat (length (codes (Pos.to_uint p))) - 1) <= Z.pos p.
Proof.
  assert (N : Decimal.unorm (Pos.to_uint p) = Pos.to_uint p).
  { rewrite <- DecimalPos.Unsigned.to_of, DecimalPos.Unsigned.of_to.
    reflexivity. }
  assert (V : PyFloat.digits_value (codes (Pos.to_uint p)) = Z.pos p).
  { rewrite codes_value, DecimalPos.Unsigned.of_to. reflexivity. }
  split; [|split; [exact V|]].
  - unfold str_of_int. cbn [Z.to_int NilZero.string_of_int].
    unfold NilZero.string_of_uint.
    destruct (Pos.to_uint p) eqn:E;
      [now apply DecimalPos.Unsigned.to_uint_nonnil in E|..];
      apply u_string_of_uint.
  - rewrite <- V. clear V. unfold PyFloat.digits_value.
    pose proof (codes_digits (Pos.to_uint p)) as D.
    pose proof (DecimalPos.Unsigned.to_uint_nonzero p) as Z0.
    pose proof (DecimalPos.Unsigned.to_uint_nonnil p) as Z1.
    destruct (Pos.to_uint p) as [|l|l|l|l|l|l|l|l|l|l] eqn:E;
      [congruence | | | | | | | | | |].
    { exfalso. unfold Decimal.unorm in N. cbn [Decimal.nzhead] in N.
      destruct (Decimal.nzhead l) eqn:H; try discriminate.
      - injection N as <-. now apply Z0.
      - now apply DecimalFacts.nzhead_nonzero in H. }
    all: cbn [codes fold_left length forallb] in *;
      apply andb_true_iff in D as [_ D];
      rewrite Nat2Z.inj_succ;
      replace (Z.succ (Z.of_nat (length (codes l))) - 1)
        with (Z.of_nat (length (codes l))) by lia;
      etransitivity; [|apply fold_digits_lower; [lia | exact D]]; lia.
Qed.

(** ** Floats that hold an integer exactly *)

Lemma digits2_bounds p :
  2 ^ (Z.pos (digits2_pos p) - 1) <= Z.pos p < 2 ^ Z.pos (digits2_pos p).
Proof.
  induction p as [p IH|p IH|]; cbn [digits2_pos]; [| |cbn; lia].
  - rewrite Pos2Z.inj_succ.
    replace (Z.succ (Z.pos (digits2_pos p)) - 1)
      with (Z.succ (Z.pos (digits2_pos p) - 1)) by lia.
    rewrite !Z.pow_succ_r by lia. lia.
  - rewrite Pos2Z.inj_succ.
    replace (Z.succ (Z.pos (digits2_pos p)) - 1)
      with (Z.succ (Z.pos (digits2_pos p) - 1)) by lia.
    rewrite !Z.pow_succ_r by lia. lia.
Qed.

Lemma digits2_unique p d :
  2 ^ (d - 1) <= Z.pos p < 2 ^ d -> Z.pos (digits2_pos p) = d.
Proof.
  intros H. pose proof (digits2_bounds p) as B.
  assert (0 < d).
  { destruct (Z.ltb_spec 0 d) as [?|N]; [assumption|].
    destruct (Z.eqb_spec d 0) as [->|?]; [cbn in H; lia|].
    rewrite (Z.pow_neg_r 2 d) in H by lia. lia. }
  assert (L1 : Z.log2 (Z.pos p) = d - 1).
  { apply Z.log2_unique; [lia|].
    replace (Z.succ (d - 1)) with d by lia. exact H. }
  assert (L2 : Z.log2 (Z.pos p) = Z.pos (digits2_pos p) - 1).
  { apply Z.log2_unique; [lia|].
    replace (Z.succ (Z.pos (digits2_pos p) - 1))
      with (Z.pos (digits2_pos p)) by lia.
    exact B. }
  lia.
Qed.

Lemma iter_xO_value k : forall q,
  Z.pos (Pos.iter xO q k) = Z.pos q * 2 ^ Z.pos k.
Proof.
  induction k as [|k IH] using Pos.peano_ind; intros q.
  - cbn [Pos.iter]. lia.
  - rewrite Pos.iter_succ, Pos2Z.inj_succ, Z.pow_succ_r by lia.
    rewrite Pos2Z.inj_xO, IH. lia.
Qed.

Lemma iter_shr_exact k : forall q,
  SpecFloat.iter_pos shr_1 k {| shr_m := Z.pos (Pos.iter xO q k);
                      shr_r := false; shr_s := false |}
  = {| shr_m := Z.pos q; shr_r := false; shr_s := false |}.
Proof.
  induction k as [k IH|k IH|]; intros q; cbn [SpecFloat.iter_pos Pos.iter].
  - cbn [shr_1 orb]. rewrite IH. apply IH.
  - rewrite IH. apply IH.
  - reflexivity.
Qed.

(** A mantissa of 53 bits times a power of two rounds to itself. *)
Lemma round_exact (s : bool) (q m : positive) (e k : Z) :
  Z.pos (digits2_pos q) = 53 -> -1074 <= e <= 971 -> 0 <= k ->
  Z.pos m = Z.pos q * 2 ^ k ->
  binary_round_aux PyFloat.prec PyFloat.emax s (Z.pos m) (e - k) loc_Exact
  = S754_finite s q e.
Proof.
  intros D E K M.
  pose proof (digits2_bounds q) as B. rewrite D in B.
  assert (Dm : Z.pos (digits2_pos m) = 53 + k).
  { apply digits2_unique. rewrite M.
    replace (53 + k - 1) with (52 + k) by lia.
    rewrite !Z.pow_add_r by lia.
    assert (0 < 2 ^ k) by (apply Z.pow_pos_nonneg; lia).
    change (53 - 1) with 52 in B. nia. }
  assert (S1 : shr_fexp PyFloat.prec PyFloat.emax (Z.pos m) (e - k) loc_Exact
               = ({| shr_m := Z.pos q; shr_r := false; shr_s := false |}, e)).
  { unfold shr_fexp, fexp, emin, Zdigits2, PyFloat.prec, PyFloat.emax.
    rewrite Dm. cbn [shr_record_of_loc].
    replace (Z.max (53 + k + (e - k) - 53) (3 - 1024 - 53) - (e - k))
      with k by lia.
    destruct k as [|kp|kp]; [| |lia].
    - cbn [shr]. rewrite Z.pow_0_r, Z.mul_1_r in M.
      injection M as ->. f_equal. lia.
    - cbn [shr].
      assert (m = Pos.iter xO q kp) as ->
        by (apply Pos2Z.inj; rewrite iter_xO_value; exact M).
      rewrite iter_shr_exact. f_equal. lia. }
  assert (S2 : shr_fexp PyFloat.prec PyFloat.emax (Z.pos q) e loc_Exact
               = ({| shr_m := Z.pos q; shr_r := false; shr_s := false |}, e)).
  { unfold shr_fexp, fexp, emin, Zdigits2, PyFloat.prec, PyFloat.emax.
    rewrite D. cbn [shr_record_of_loc].
    replace (Z.max (53 + e - 53) (3 - 1024 - 53) - e) with 0 by lia.
    reflexivity. }
  unfold binary_round_aux. rewrite S1.
  cbn [shr_m loc_of_shr_record round_nearest_even]. rewrite S2. cbn [shr_m].
  unfold PyFloat.prec, PyFloat.emax.
  destruct (Z.leb_spec e (1024 - 53)); [reflexivity | lia].
Qed.

Lemma holds_of_pos (a : positive) :
  Z.pos a < 2 ^ 53 ->
  holds (binary_round PyFloat.prec PyFloat.emax false a 0) (Z.pos a).
Proof.
  intros A. pose proof (digits2_bounds a) as B.
  assert (Dl : Z.pos (digits2_pos a) <= 53).
  { destruct (Z.leb_spec (Z.pos (digits2_pos a)) 53) as [?|N]; [assumption|].
    assert (2 ^ 53 <= 2 ^ (Z.pos (digits2_pos a) - 1))
      by (apply Z.pow_le_mono_r; lia).
    lia. }
  set (k := 53 - Z.pos (digits2_pos a)).
  unfold binary_round, shl_align, fexp, emin, PyFloat.prec, PyFloat.emax.
  replace (Z.max (Z.pos (digits2_pos a) + 0 - 53) (3 - 1024 - 53) - 0)
    with (- k) by (unfold k; lia).
  destruct k as [|kp|kp] eqn:Ek; [| |lia].
  - cbn [Z.opp].
    exists a, 0. split.
    + change 0 with (0 - 0) at 1.
      apply (round_exact false a a 0 0); [lia | lia | lia | lia].
    + split; [lia|]. split; [lia | lia].
  - cbn [Z.opp].
    assert (Q : Z.pos (Pos.iter xO a kp) = Z.pos a * 2 ^ Z.pos kp)
      by apply iter_xO_value.
    assert (Dq : Z.pos (digits2_pos (Pos.iter xO a kp)) = 53).
    { apply digits2_unique. rewrite Q.
      replace (Z.pos kp) with (53 - Z.pos (digits2_pos a)) by lia.
      assert (P : 2 ^ (Z.pos (digits2_pos a) - 1)
                  * 2 ^ (53 - Z.pos (digits2_pos a)) = 2 ^ (53 - 1)).
      { rewrite <- Z.pow_add_r by lia. f_equal. lia. }
      assert (P' : 2 ^ Z.pos (digits2_pos a)
                   * 2 ^ (53 - Z.pos (digits2_pos a)) = 2 ^ 53).
      { rewrite <- Z.pow_add_r by lia. f_equal. lia. }
      assert (0 < 2 ^ (53 - Z.pos (digits2_pos a)))
        by (apply Z.pow_pos_nonneg; lia).
      nia. }
    exists (Pos.iter xO a kp), (Z.pos kp). split.
    + replace (Z.max (Z.pos (digits2_pos a) + 0 - 53) (3 - 1024 - 53))
        with (- Z.pos kp - 0) by lia.
      apply round_exact; [exact Dq | lia | lia | lia].
    + split; [lia|]. split; [exact Q | exact Dq].
Qed.

Lemma holds_mul x y a b :
  holds x a -> holds y b -> a * b < 2 ^ 53 ->
  holds (PyFloat.mul x y) (a * b).
Proof.
  intros (q1 & k1 & -> & K1 & Q1 & D1) (q2 & k2 & -> & K2 & Q2 & D2) AB.
  pose proof (digits2_bounds q1) as B1. rewrite D1 in B1.
  pose proof (digits2_bounds q2) as B2. rewrite D2 in B2.
  change (53 - 1) with 52 in *.
  assert (0 < 2 ^ k1) by (apply Z.pow_pos_nonneg; lia).
  assert (0 < 2 ^ k2) by (apply Z.pow_pos_nonneg; lia).
  assert (Pa : 0 < a) by nia.
  assert (Pb : 0 < b) by nia.
  assert (Pab : 0 < a * b) by nia.
  destruct (a * b) as [|ab|] eqn:Eab; [lia| |lia].
  pose proof (digits2_bounds ab) as B.
  set (d := Z.pos (digits2_pos ab)) in *.
  assert (Dl : d <= 53).
  { destruct (Z.leb_spec d 53) as [?|N]; [assumption|].
    assert (2 ^ 53 <= 2 ^ (d - 1)) by (apply Z.pow_le_mono_r; lia).
    lia. }
  assert (Dp : 0 < d) by (unfold d; lia).
  (* the product of the mantissas *)
  assert (M : Z.pos (q1 * q2) = Z.pos ab * 2 ^ (k1 + k2)).
  { rewrite Pos2Z.inj_mul, Q1, Q2, Z.pow_add_r by lia. rewrite <- Eab. ring. }
  assert (Big : 2 ^ 104 <= Z.pos (q1 * q2)).
  { rewrite Pos2Z.inj_mul. change (2 ^ 104) with (2 ^ 52 * 2 ^ 52). nia. }
  assert (Kl : 53 - d <= k1 + k2).
  { destruct (Z.leb_spec (53 - d) (k1 + k2)) as [?|N]; [assumption|].
    exfalso.
    assert (2 ^ (k1 + k2) <= 2 ^ (52 - d)) by (apply Z.pow_le_mono_r; lia).
    assert (0 < 2 ^ (k1 + k2)) by (apply Z.pow_pos_nonneg; lia).
    assert (2 ^ d * 2 ^ (52 - d) = 2 ^ 52)
      by (rewrite <- Z.pow_add_r by lia; f_equal; lia).
    assert (2 ^ 52 < 2 ^ 104) by (vm_compute; reflexivity).
    nia. }
  set (K := 53 - d).
  assert (0 < 2 ^ K) by (apply Z.pow_pos_nonneg; unfold K; lia).
  destruct (Z.pos ab * 2 ^ K) as [|Q|] eqn:EQ; [nia| |nia].
  assert (DQ : Z.pos (digits2_pos Q) = 53).
  { apply digits2_unique. rewrite <- EQ.
    assert (2 ^ (d - 1) * 2 ^ K = 2 ^ (53 - 1))
      by (rewrite <- Z.pow_add_r by (unfold K; lia); f_equal; unfold K; lia).
    assert (2 ^ d * 2 ^ K = 2 ^ 53)
      by (rewrite <- Z.pow_add_r by (unfold K; lia); f_equal; unfold K; lia).
    nia. }
  exists Q, K. split; [|split; [unfold K; lia | split; [now rewrite EQ | exact DQ]]].
  unfold PyFloat.mul, SFmul. cbn [xorb].
  replace (- k1 + - k2) with (- K - (k1 + k2 - K)) by lia.
  apply round_exact; [exact DQ | unfold K; lia | lia|].
  rewrite M, <- EQ, <- Z.mul_assoc, <- Z.pow_add_r by (unfold K; lia).
  f_equal. f_equal. lia.
Qed.

Lemma holds_to_int x a : holds x a -> PyFloat.to_int x = Ok a.
Proof.
  intros (q & k & -> & K & Q & _). cbn [PyFloat.to_int].
  destruct (Z.leb_spec 0 (- k)) as [H|H].
  - assert (k = 0) as -> by lia. cbn in Q |- *. f_equal. lia.
  - f_equal. rewrite Q, Z.opp_involutive.
    apply Z.div_mul. apply Z.pow_nonzero; lia.
Qed.

(** ** The parser on a text of digits *)



Lemma is_digit_range c : PyFloat.is_digit c = true -> 48 <= c <= 57.
Proof.
  unfold PyFloat.is_digit, in_range.
  intros [?%Z.leb_le ?%Z.leb_le]%andb_true_iff. lia.
Qed.

Lemma lower_digits ds :
  forallb PyFloat.is_digit ds = true -> map ascii_lower ds = ds.
Proof.
  induction ds as [|c t IH]; [reflexivity|]. cbn [forallb map].
  intros [Hc%is_digit_range Ht]%andb_true_iff. rewrite (IH Ht). f_equal.
  unfold ascii_lower.
  destruct (Z.leb_spec 65 c); [lia | reflexivity].
Qed.

Lemma digits_ascii ds :
  forallb PyFloat.is_digit ds = true -> forallb (in_range 0 127) ds = true.
Proof.
  induction ds as [|c t IH]; [reflexivity|]. cbn [forallb].
  intros [Hc%is_digit_range Ht]%andb_true_iff. rewrite (IH Ht), andb_true_r.
  unfold in_range. apply andb_true_iff. split; apply Z.leb_le; lia.
Qed.

Lemma starts_with_past_digit w c s :
  starts_without_digit w = true -> PyFloat.is_digit c = true ->
  starts_with w (c :: s) = false.
Proof.
  destruct w as [|a w']; [discriminate|]. cbn [starts_without_digit].
  intros Na Dc. cbn [starts_with].
  destruct (Z.eqb_spec a c) as [->|?]; [|reflexivity].
  now rewrite Dc in Na.
Qed.

Lemma replace_past_digits old new ds s :
  starts_without_digit old = true -> forallb PyFloat.is_digit ds = true ->
  replace old new (ds ++ s) = ds ++ replace old new s.
Proof.
  intros O D. unfold replace. destruct old as [|a old']; [discriminate|].
  induction ds as [|c t IH]; [reflexivity|].
  cbn [forallb] in D. apply andb_true_iff in D as [Dc Dt].
  cbn [app replace_from].
  change (starts_with (a :: old') (c :: t ++ s))
    with (starts_with (a :: old') (c :: (t ++ s))).
  rewrite (starts_with_past_digit (a :: old') c (t ++ s) O Dc).
  now rewrite (IH Dt).
Qed.

Lemma contains_past_digits w ds s :
  starts_without_digit w = true -> forallb PyFloat.is_digit ds = true ->
  contains w (ds ++ s) = contains w s.
Proof.
  intros O D. induction ds as [|c t IH]; [reflexivity|].
  cbn [forallb] in D. apply andb_true_iff in D as [Dc Dt].
  cbn [app contains].
  rewrite (starts_with_past_digit w c (t ++ s) O Dc). exact (IH Dt).
Qed.

Lemma take_digits_all ds :
  forallb PyFloat.is_digit ds = true -> PyFloat.take_digits ds = (ds, []).
Proof.
  induction ds as [|c t IH]; [reflexivity|]. cbn [forallb PyFloat.take_digits].
  intros [-> Ht]%andb_true_iff. now rewrite (IH Ht).
Qed.

Lemma last_digit ds :
  ds <> [] -> forallb PyFloat.is_digit ds = true ->
  exists x, last ds = Some x /\ PyFloat.is_digit x = true.
Proof.
  intros N D. destruct (last ds) as [x|] eqn:E.
  - exists x. split; [reflexivity|].
    rewrite forallb_forall in D. apply D.
    apply last_Some in E as [l' ->]. apply in_or_app. right. now left.
  - apply last_None in E. contradiction.
Qed.

Lemma of_ascii_digits ds :
  ds <> [] -> forallb PyFloat.is_digit ds = true ->
  PyFloat.of_ascii ds
  = Ok (PyFloat.of_decimal false (PyFloat.digits_value ds) 0).
Proof.
  intros N D. unfold PyFloat.of_ascii, PyFloat.remove_underscores.
  assert (Un : existsb (Z.eqb 95) ds = false).
  { apply not_true_is_false. intros (x & Hx & E)%existsb_exists.
    apply Z.eqb_eq in E. subst x.
    rewrite forallb_forall in D. apply D in Hx. discriminate. }
  rewrite Un.
  destruct ds as [|c t] eqn:Eds; [congruence|]. rewrite <- Eds in *.
  assert (Dc : PyFloat.is_digit c = true)
    by (rewrite Eds in D; cbn [forallb] in D; now apply andb_true_iff in D).
  pose proof (is_digit_range c Dc) as Rc.
  assert (Bl : forall x, PyFloat.is_digit x = true -> PyFloat.is_blank x = false).
  { intros x Hx%is_digit_range. unfold PyFloat.is_blank, in_range.
    apply orb_false_iff. split; [apply Z.eqb_neq; lia|].
    apply andb_false_iff. right. apply Z.leb_gt. lia. }
  assert (B1 : drop_while PyFloat.is_blank ds = ds).
  { rewrite Eds. cbn [drop_while]. now rewrite (Bl c Dc). }
  rewrite B1.
  destruct (last_digit ds N D) as (x & Lx & Dx).
  rewrite (rev_drop_while_last PyFloat.is_blank ds x Lx (Bl x Dx)).
  rewrite Eds at 1.
  unfold PyFloat.string_to_double, PyFloat.parse_number.
  assert (Sg : PyFloat.parse_sign ds = (false, ds)).
  { rewrite Eds. unfold PyFloat.parse_sign.
    destruct (Z.eqb_spec c 45); [lia|]. destruct (Z.eqb_spec c 43); [lia|].
    reflexivity. }
  rewrite Sg, (take_digits_all ds D). rewrite app_nil_r.
  rewrite Eds at 1. cbn [PyFloat.parse_exponent length Z.of_nat].
  rewrite Eds. reflexivity.
Qed.

Lemma hundred_digits_bound m :
  0 < m < 2 ^ 53 -> PyFloat.digits10 m <= 16.
Proof.
  intros M. destruct m as [|p|p]; [lia| |lia].
  destruct (str_of_pos p) as (E & _ & B).
  unfold PyFloat.digits10. rewrite E.
  set (n := Z.of_nat (length (codes (Pos.to_uint p)))) in *.
  destruct (Z.leb_spec n 16) as [?|N]; [assumption|].
  assert (10 ^ 16 <= 10 ^ (n - 1)) by (apply Z.pow_le_mono_r; lia).
  assert (2 ^ 53 < 10 ^ 16) by (vm_compute; reflexivity).
  lia.
Qed.

Lemma to_int_of_digits m mult :
  0 <= m -> 0 < mult < 2 ^ 53 -> m * mult < 2 ^ 53 ->
  PyFloat.to_int
    (PyFloat.mul (PyFloat.of_decimal false m 0) (PyFloat.of_int mult))
  = Ok (m * mult).
Proof.
  intros M K P.
  assert (Hk : holds (PyFloat.of_int mult) mult).
  { unfold PyFloat.of_int. destruct mult as [|c|c]; [lia| |lia].
    cbn [binary_normalize]. apply holds_of_pos. lia. }
  destruct (Z.eqb_spec m 0) as [->|Nz].
  - destruct Hk as (q & k & -> & _). reflexivity.
  - assert (Mb : m < 2 ^ 53) by nia.
    pose proof (hundred_digits_bound m ltac:(lia)) as Dg.
    assert (Hm : holds (PyFloat.of_decimal false m 0) m).
    { unfold PyFloat.of_decimal.
      destruct (Z.leb_spec m 0); [lia|].
      destruct (Z.ltb_spec 310 (PyFloat.digits10 m + 0)); [lia|].
      assert (0 <= PyFloat.digits10 m)
        by (unfold PyFloat.digits10; lia).
      destruct (Z.ltb_spec (PyFloat.digits10 m + 0) (-330)); [lia|].
      cbn [Z.leb Z.compare]. rewrite Z.pow_0_r, Z.mul_1_r.
      destruct m as [|p|p]; [lia| |lia]. cbn [Z.to_pos].
      apply holds_of_pos. lia. }
    apply holds_to_int. now apply holds_mul.
Qed.

Section Counts.

Context `{U : PyUnicode} {L : PyUnicodeLaws U}.

Lemma parse_int_like_digits ds suf mult :
  ds <> [] -> forallb PyFloat.is_digit ds = true ->
  forallb (in_range 0 127) suf = true ->
  quantity_text suf = (mult, []) ->
  0 < mult < 2 ^ 53 -> PyFloat.digits_value ds * mult < 2 ^ 53 ->
  parse_int_like (ds ++ suf) = Ok (Some (PyFloat.digits_value ds * mult)).
Proof.
  intros N D A Q K P. unfold parse_int_like.
  rewrite str_lower_ascii
    by (rewrite forallb_app, (digits_ascii ds D), A; reflexivity).
  rewrite map_app, (lower_digits ds D).
  unfold quantity_text in Q.
  rewrite (replace_past_digits (u ".") [] ds _ eq_refl D).
  rewrite (replace_past_digits (u " ") [] ds _ eq_refl D).
  rewrite (replace_past_digits (u ",") (u ".") ds _ eq_refl D).
  set (t := replace (u ",") (u ".")
              (replace (u " ") [] (replace (u ".") [] (map ascii_lower suf))))
    in *.
  rewrite (contains_past_digits (u "mil") ds t eq_refl D).
  assert (F : forall w m,
             (m, w) = (mult, []) ->
             try_except
               (rbind (PyFloat.of_str (ds ++ w))
                  (fun x =>
                     rbind (PyFloat.to_int (PyFloat.mul x (PyFloat.of_int m)))
                       (fun n => Ok (Some n))))
               (Ok None)
             = Ok (Some (PyFloat.digits_value ds * mult))).
  { intros w m [= -> ->]. rewrite app_nil_r. unfold PyFloat.of_str.
    rewrite (transform_ascii ds (digits_ascii ds D)).
    rewrite (of_ascii_digits ds N D). cbn [rbind].
    rewrite to_int_of_digits; [reflexivity | | exact K | exact P].
    unfold PyFloat.digits_value.
    etransitivity; [|apply (fold_digits_lower ds 0); [lia | exact D]]. lia. }
  destruct (contains (u "mil") t).
  - rewrite (replace_past_digits (u "mil") [] ds _ eq_refl D).
    rewrite (contains_past_digits (u "k") ds _ eq_refl D).
    destruct (contains (u "k") (replace (u "mil") [] t)).
    + rewrite (replace_past_digits (u "k") [] ds _ eq_refl D). now apply F.
    + now apply F.
  - rewrite (contains_past_digits (u "k") ds _ eq_refl D).
    destruct (contains (u "k") t).
    + rewrite (replace_past_digits (u "k") [] ds _ eq_refl D). now apply F.
    + now apply F.
Qed.

Lemma str_of_count n :
  0 <= n ->
  str_of_int n <> [] /\ forallb PyFloat.is_digit (str_of_int n) = true
  /\ PyFloat.digits_value (str_of_int n) = n.
Proof.
  intros H. destruct n as [|p|p]; [| |lia].
  - split; [discriminate|]. split; reflexivity.
  - destruct (str_of_pos p) as (-> & V & _). split; [|split].
    + pose proof (DecimalPos.Unsigned.to_uint_nonnil p).
      destruct (Pos.to_uint p); [congruence|..]; discriminate.
    + apply codes_digits.
    + exact V.
Qed.

End Counts.

(** X15. For every count below a million million the parser gives the
    count for its decimal text, and a thousand times the count for the
    text followed by " mil" or by "k": no digit is lost to the floats. *)
Theorem plain_counts_parse_exactly (U : PyUnicode) (L : PyUnicodeLaws U)
    (n : Z) :
  0 <= n < 1000000000000 ->
  parse_int_like (str_of_int n) = Ok (Some n)
  /\ parse_int_like (str_of_int n ++ u " mil") = Ok (Some (1000 * n))
  /\ parse_int_like (str_of_int n ++ u "k") = Ok (Some (1000 * n)).
Proof.
  intros H. destruct (str_of_count n ltac:(lia)) as (N & D & V).
  assert (B : 1000000000000 * 1000 < 2 ^ 53) by (vm_compute; reflexivity).
  split; [|split].
  - rewrite <- (app_nil_r (str_of_int n)).
    rewrite (parse_int_like_digits (str_of_int n) [] 1 N D eq_refl eq_refl);
      [rewrite V; do 2 f_equal; lia | split; [lia | reflexivity]
      | rewrite V; lia].
  - rewrite (parse_int_like_digits (str_of_int n) (u " mil") 1000 N D
               eq_refl eq_refl);
      [rewrite V; do 2 f_equal; lia | split; [lia | reflexivity]
      | rewrite V; lia].
  - rewrite (parse_int_like_digits (str_of_int n) (u "k") 1000 N D
               eq_refl eq_refl);
      [rewrite V; do 2 f_equal; lia | split; [lia | reflexivity]
      | rewrite V; lia].
Qed.

Lemma plain_counts_parse_exactly_witness :
  parse_int_like (U := latin1) (str_of_int 300) = Ok (Some 300)
  /\ parse_int_like (U := latin1) (str_of_int 300 ++ u " mil")
     = Ok (Some (1000 * 300))
  /\ parse_int_like (U := latin1) (str_of_int 300 ++ u "k")
     = Ok (Some (1000 * 300)).
Proof.
  apply (plain_counts_parse_exactly latin1 latin1_laws 300). lia.
Defined.

Lemma decimal_thousands_checked :
  forallb (fun n => forallb (near_thousands n) (counts_below 10))
    (counts_below 1000) = true.
Proof. vm_compute. reflexivity. Qed.

(** X16. For a number below 1000 with one decimal, followed by " mil",
    the parser gives a thousand times the number or one less: the product
    of the floats can fall just below the integer, and is truncated.
    "78,7 mil" gives 78700, "32,3 mil" gives 32299. *)
Theorem decimal_thousands_may_lose_one (U : PyUnicode) (L : PyUnicodeLaws U) :
  (forall n d, 0 <= n < 1000 -> 0 <= d < 10 ->
     parse_int_like (decimal_text n d ++ u " mil")
     = Ok (Some (1000 * n + 100 * d))
     \/ parse_int_like (decimal_text n d ++ u " mil")
        = Ok (Some (1000 * n + 100 * d - 1)))
  /\ parse_int_like (u "78,7 mil") = Ok (Some 78700)
  /\ parse_int_like (u "32,3 mil") = Ok (Some 32299).
Proof.
  split; [|split].
  - intros n d Hn Hd. pose proof decimal_thousands_checked as C.
    rewrite forallb_forall in C.
    specialize (C n (counts_below_spec 1000 n Hn)).
    rewrite forallb_forall in C.
    specialize (C d (counts_below_spec 10 d Hd)).
    apply orb_true_iff in C as [C|C]; [left | right];
      now apply parses_to_spec.
  - apply parses_to_spec. vm_compute. reflexivity.
  - apply parses_to_spec. vm_compute. reflexivity.
Qed.

Lemma decimal_thousands_may_lose_one_witness :
  (forall n d, 0 <= n < 1000 -> 0 <= d < 10 ->
     parse_int_like (U := latin1) (decimal_text n d ++ u " mil")
     = Ok (Some (1000 * n + 100 * d))
     \/ parse_int_like (U := latin1) (decimal_text n d ++ u " mil")
        = Ok (Some (1000 * n + 100 * d - 1)))
  /\ parse_int_like (U := latin1) (u "78,7 mil") = Ok (Some 78700)
  /\ parse_int_like (U := latin1) (u "32,3 mil") = Ok (Some 32299).
Proof. exact (decimal_thousands_may_lose_one latin1 latin1_laws). Defined.

(** X17. A dot or a space anywhere in an ASCII text changes nothing for
    the parser: the dot is never a decimal point, "1.5k" is read as
    "15k". *)
Theorem dots_and_spaces_are_ignored (U : PyUnicode) (L : PyUnicodeLaws U)
    (s1 s2 : str) :
  forallb (in_range 0 127) s1 = true -> forallb (in_range 0 127) s2 = true ->
  parse_int_like (s1 ++ u "." ++ s2) = parse_int_like (s1 ++ s2)
  /\ parse_int_like (s1 ++ u " " ++ s2) = parse_int_like (s1 ++ s2).
Proof.
  intros A1 A2.
  assert (E : forall c, (c = 46 \/ c = 32) ->
            replace (u " ") [] (replace (u ".") [] (str_lower (s1 ++ [c] ++ s2)))
            = replace (u " ") [] (replace (u ".") [] (str_lower (s1 ++ s2)))).
  { intros c Hc.
    rewrite !str_lower_ascii.
    - rewrite !map_app. change (u ".") with [46]. change (u " ") with [32].
      rewrite !replace_char_app.
      destruct Hc as [-> | ->]; reflexivity.
    - rewrite forallb_app, A1, A2. reflexivity.
    - rewrite !forallb_app, A1, A2.
      destruct Hc as [-> | ->]; reflexivity. }
  split; unfold parse_int_like.
  - change (u "." ++ s2) with ([46] ++ s2). rewrite (E 46) by now left.
    reflexivity.
  - change (u " " ++ s2) with ([32] ++ s2). rewrite (E 32) by now right.
    reflexivity.
Qed.

Lemma dots_and_spaces_are_ignored_witness :
  (parse_int_like (U := latin1) (u "1" ++ u "." ++ u "5k")
   = parse_int_like (U := latin1) (u "1" ++ u "5k")
   /\ parse_int_like (U := latin1) (u "1" ++ u " " ++ u "5k")
      = parse_int_like (U := latin1) (u "1" ++ u "5k"))
  /\ parse_int_like (U := latin1) (u "1.5k") = Ok (Some 15000).
Proof.
  split; [|vm_compute; reflexivity].
  apply (dots_and_spaces_are_ignored latin1 latin1_laws (u "1") (u "5k"));
    reflexivity.
Defined.
